(** * StorageKeeperMap: a key-value table engine over a coordination service

    A shallow embedding of [StorageKeeperMap.cpp]: the write sink, the
    key-slice sources of the read path, the capacity limit chosen at
    construction, the reclaim step of the drop protocol, the validity check
    and the fetch-by-keys routine. The collaborators that the file calls but
    does not define (the coordination service and its client, the URL-safe
    text encoding of keys, the column codecs) are modelled next to it.

    The first part holds the definitions, the second part the lemmas and
    the theorems. *)

From Stdlib Require Import ZArith NArith Ascii String List Lia Bool.
From stdpp Require Import base option list sorting gmap strings.

(** * Part I: definitions *)

(** ** Strings as byte sequences *)

Module Str.

(** [contains c s]: the character [c] occurs in [s]. *)
Fixpoint contains (c : ascii) (s : string) : bool :=
  match s with
  | EmptyString => false
  | String x s' => if Ascii.eqb x c then true else contains c s'
  end.

Definition is_empty (s : string) : bool :=
  match s with EmptyString => true | String _ _ => false end.

(** [std::string_view::find_last_of(c)]: the index of the last occurrence
    of [c], [None] for [npos]. *)
Fixpoint find_last_of (c : ascii) (s : string) : option nat :=
  match s with
  | EmptyString => None
  | String x s' =>
      match find_last_of c s' with
      | Some i => Some (S i)
      | None => if Ascii.eqb x c then Some 0 else None
      end
  end.

(** [substr(pos)] for [pos] within the string: the suffix from [pos] on. *)
Fixpoint substr (pos : nat) (s : string) : string :=
  match pos, s with
  | O, _ => s
  | S p, String _ s' => substr p s'
  | S _, EmptyString => EmptyString
  end.

(** [strip_prefix p s]: the rest of [s] after the prefix [p], when [s]
    starts with [p]. *)
Fixpoint strip_prefix (p s : string) : option string :=
  match p, s with
  | EmptyString, _ => Some s
  | String a p', String b s' => if Ascii.eqb a b then strip_prefix p' s' else None
  | String _ _, EmptyString => None
  end.

Definition starts_with (c : ascii) (s : string) : bool :=
  match s with
  | String x _ => Ascii.eqb x c
  | EmptyString => false
  end.

Fixpoint ends_with (c : ascii) (s : string) : bool :=
  match s with
  | EmptyString => false
  | String x EmptyString => Ascii.eqb x c
  | String _ s' => ends_with c s'
  end.

(** [std::string::operator<] and the order derived from it: bytes compare
    as unsigned values. *)
Definition lt (a b : string) : bool := String.ltb a b.

End Str.

(** ** Key text encoding *)

Module Base64.

(** Modelled from the spec: [Common/Base64.h] ([base64Encode] and
    [base64Decode]) is not among the sources. The spec asks for a reversible,
    URL-safe text encoding applied to the binary serialization of the key;
    the call sites pass [url_encoding = true]. The model is the base64 scheme:
    three bytes become four characters of a 64-character alphabet, a final
    group of one or two bytes is completed with the padding character; the
    URL-safe alphabet replaces the two characters that are not legal in a URL
    or in a path segment by [-] and [_]. *)
Definition alphabet (url_encoding : bool) : string :=
  if url_encoding
  then "ABCDEFGHIJKLMNOPQRSTUVWXYZabcdefghijklmnopqrstuvwxyz0123456789-_"
  else "ABCDEFGHIJKLMNOPQRSTUVWXYZabcdefghijklmnopqrstuvwxyz0123456789+/".

Definition pad : ascii := "="%char.

Definition char_of_sextet (url_encoding : bool) (n : N) : ascii :=
  match String.get (N.to_nat n) (alphabet url_encoding) with
  | Some c => c
  | None => pad
  end.

Fixpoint index_of (c : ascii) (s : string) (i : N) : option N :=
  match s with
  | EmptyString => None
  | String x s' => if Ascii.eqb x c then Some i else index_of c s' (N.succ i)
  end.

Definition sextet_of_char (url_encoding : bool) (c : ascii) : option N :=
  index_of c (alphabet url_encoding) 0.

(** The four sextets of a group of three bytes. *)
Definition sextet0 (n0 : N) : N := (n0 / 4)%N.
Definition sextet1 (n0 n1 : N) : N := ((n0 mod 4) * 16 + n1 / 16)%N.
Definition sextet2 (n1 n2 : N) : N := ((n1 mod 16) * 4 + n2 / 64)%N.
Definition sextet3 (n2 : N) : N := (n2 mod 64)%N.

(** The three bytes of a group of four sextets. *)
Definition octet0 (s0 s1 : N) : N := (s0 * 4 + s1 / 16)%N.
Definition octet1 (s1 s2 : N) : N := ((s1 mod 16) * 16 + s2 / 4)%N.
Definition octet2 (s2 s3 : N) : N := ((s2 mod 4) * 64 + s3)%N.

Fixpoint base64Encode (decoded : string) (url_encoding : bool) : string :=
  let ch := char_of_sextet url_encoding in
  match decoded with
  | EmptyString => EmptyString
  | String a EmptyString =>
      let n0 := N_of_ascii a in
      String (ch (sextet0 n0)) (String (ch (sextet1 n0 0))
        (String pad (String pad EmptyString)))
  | String a (String b EmptyString) =>
      let n0 := N_of_ascii a in
      let n1 := N_of_ascii b in
      String (ch (sextet0 n0)) (String (ch (sextet1 n0 n1))
        (String (ch (sextet2 n1 0)) (String pad EmptyString)))
  | String a (String b (String c rest)) =>
      let n0 := N_of_ascii a in
      let n1 := N_of_ascii b in
      let n2 := N_of_ascii c in
      String (ch (sextet0 n0)) (String (ch (sextet1 n0 n1))
        (String (ch (sextet2 n1 n2)) (String (ch (sextet3 n2))
          (base64Encode rest url_encoding))))
  end.

(** Decoding fails ([None], an exception in the program) on text that is
    not a sequence of complete groups over the alphabet. *)
Fixpoint base64Decode (encoded : string) (url_encoding : bool) : option string :=
  let sx := sextet_of_char url_encoding in
  match encoded with
  | EmptyString => Some EmptyString
  | String c0 (String c1 (String c2 (String c3 rest))) =>
      match sx c0, sx c1 with
      | Some s0, Some s1 =>
          if Ascii.eqb c2 pad then
            if Ascii.eqb c3 pad && Str.is_empty rest
            then Some (String (ascii_of_N (octet0 s0 s1)) EmptyString)
            else None
          else
            match sx c2 with
            | Some s2 =>
                if Ascii.eqb c3 pad then
                  if Str.is_empty rest
                  then Some (String (ascii_of_N (octet0 s0 s1))
                               (String (ascii_of_N (octet1 s1 s2)) EmptyString))
                  else None
                else
                  match sx c3, base64Decode rest url_encoding with
                  | Some s3, Some tl =>
                      Some (String (ascii_of_N (octet0 s0 s1))
                             (String (ascii_of_N (octet1 s1 s2))
                               (String (ascii_of_N (octet2 s2 s3)) tl)))
                  | _, _ => None
                  end
            | None => None
            end
      | _, _ => None
      end
  | _ => None
  end.

Definition sextets : list N := map N.of_nat (seq 0 64).

End Base64.

(** ** The coordination service and its client *)

Module Coordination.

(** Modelled from the spec: the result codes of the coordination service
    ([Common/ZooKeeper/IKeeper.h], not among the sources). The source names
    [ZOK], [ZNONODE], [ZNODEEXISTS] and [ZNOTEMPTY]; the others stand for the
    remaining answers of the service: a version mismatch, the connectivity
    codes, and a refusal that is neither ([ZNOAUTH]). *)
Inductive Error :=
  | ZOK
  | ZNONODE
  | ZNODEEXISTS
  | ZNOTEMPTY
  | ZBADVERSION
  | ZNOAUTH
  | ZCONNECTIONLOSS
  | ZOPERATIONTIMEOUT
  | ZSESSIONEXPIRED.

#[export] Instance Error_eq_dec : EqDecision Error.
Proof. solve_decision. Defined.

(** Modelled from the spec: [Coordination::isHardwareError], the
    connectivity errors (the service cannot be reached or the session is
    gone). *)
Definition isHardwareError (code : Error) : bool :=
  match code with
  | ZCONNECTIONLOSS | ZOPERATIONTIMEOUT | ZSESSIONEXPIRED => true
  | _ => false
  end.

Inductive CreateMode := Persistent | Ephemeral.

(** The requests of a multi-operation transaction. Every request of
    [StorageKeeperMap.cpp] that takes a version passes [-1], which matches
    any version: node versions are not tracked and the argument is left out. *)
Inductive Request :=
  | CreateRequest (path data : string) (mode : CreateMode)
  | SetRequest (path data : string)
  | RemoveRequest (path : string)
  | CheckRequest (path : string).

Record Stat := { numChildren : Z }.

Record GetResponse := { error : Error; data : string }.

End Coordination.

Import Coordination.

(** Error codes of [DB::ErrorCodes] used by the file, and [INVALID_STATE],
    which [checkTable] (declared in the header) raises. *)
Inductive ErrorCode :=
  | NUMBER_OF_ARGUMENTS_DOESNT_MATCH
  | BAD_ARGUMENTS
  | KEEPER_EXCEPTION
  | LOGICAL_ERROR
  | LIMIT_EXCEEDED
  | INVALID_STATE.

(** What can be thrown: [DB::Exception] with a code,
    [Coordination::Exception] (a [DB::Exception] carrying a service code),
    and exceptions from outside the [DB::Exception] family, raised by the
    libraries behind the codecs or by the standard library. *)
Inductive Exception :=
  | DBException (code : ErrorCode)
  | CoordinationException (code : Error)
  | ForeignException.

Inductive Result (A : Type) :=
  | Ok (a : A)
  | Throw (e : Exception).
Arguments Ok {A} a.
Arguments Throw {A} e.

(** A [std::future]: the value (or exception) that [get] hands back, and
    whether it arrives before the deadline passed to [wait_until]. *)
Record Future (A : Type) := { value : Result A; ready_in_time : bool }.
Arguments value {A} _.
Arguments ready_in_time {A} _.

Inductive Call :=
  | CGet (path : string)
  | CExists (path : string)
  | CTryGet (path : string)
  | CGetChildren (path : string)
  | CRemoveChildren (path : string)
  | CMulti (requests : list Request).

(** Calls that can change the node tree. *)
Definition is_write (c : Call) : bool :=
  match c with
  | CMulti _ | CRemoveChildren _ => true
  | _ => false
  end.

Inductive Level := LInfo | LWarning | LError | LTrace.

Inductive Event :=
  | Called (c : Call)
  | Logged (level : Level) (message : string)
  | ExceptionLogged (e : Exception)
  | LockAlreadyRemoved (path : string).

(** The state the engine's functions act on: the node tree of the service
    (full path to payload), the condition of the client session ([Some e]:
    every call fails with [e]), the table's cached validity flag
    ([std::optional<bool> table_is_valid]), and what was observed from
    outside: the calls sent to the service and the log. *)
Record State := mkState {
  nodes : gmap string string;
  session : option Exception;
  table_is_valid : option bool;
  events : list Event
}.

Definition set_nodes (n : gmap string string) (σ : State) : State :=
  mkState n (session σ) (table_is_valid σ) (events σ).
Definition set_table_is_valid (v : option bool) (σ : State) : State :=
  mkState (nodes σ) (session σ) v (events σ).
Definition add_event (ev : Event) (σ : State) : State :=
  mkState (nodes σ) (session σ) (table_is_valid σ) (events σ ++ [ev]).

(** Computations that read and change the state and may throw. *)
Definition M (A : Type) : Type := State → Result A * State.

#[export] Instance M_ret : MRet M := λ A a σ, (Ok a, σ).
#[export] Instance M_bind : MBind M := λ A B f m σ,
  match m σ with
  | (Ok a, σ') => f a σ'
  | (Throw e, σ') => (Throw e, σ')
  end.

Definition throw {A : Type} (e : Exception) : M A := λ σ, (Throw e, σ).
Definition try_catch {A : Type} (m : M A) (handler : Exception → M A) : M A := λ σ,
  match m σ with
  | (Ok a, σ') => (Ok a, σ')
  | (Throw e, σ') => handler e σ'
  end.
Definition lift {A : Type} (r : Result A) : M A := λ σ, (r, σ).
Definition emit (ev : Event) : M unit := λ σ, (Ok tt, add_event ev σ).
Definition read_table_is_valid : M (option bool) := λ σ, (Ok (table_is_valid σ), σ).
Definition write_table_is_valid (v : bool) : M unit := λ σ,
  (Ok tt, set_table_is_valid (Some v) σ).

(** [for (x : l) body(x)], collecting the results. *)
Fixpoint for_each {A B : Type} (body : A → M B) (l : list A) : M (list B) :=
  match l with
  | [] => mret []
  | x :: l' => y ← body x; ys ← for_each body l'; mret (y :: ys)
  end.

Module zkutil.

(** Modelled from the spec: the client of the coordination service
    ([Common/ZooKeeper/ZooKeeper.h], not among the sources) and the service
    behind it: a path-addressed node tree with get, exists, children, and
    atomic multi-operation transactions of create, set, remove and check.
    The tree is a finite map from full paths to payloads; the children of a
    node are the paths one segment below it. A node is created under its
    parent only: a create whose parent is not there is refused with
    [ZNONODE]. Ephemeral nodes are kept like persistent ones (no session
    ends inside one call of the engine). *)
Definition child_name (parent path : string) : option string :=
  match Str.strip_prefix (parent +:+ "/") path with
  | Some name => if Str.is_empty name || Str.contains "/" name then None else Some name
  | None => None
  end.

Definition children (n : gmap string string) (parent : string) : list string :=
  omap (child_name parent) (map fst (map_to_list n)).

Definition below (parent path : string) : bool :=
  match Str.strip_prefix (parent +:+ "/") path with
  | Some _ => true
  | None => false
  end.

(** The parent of a node: the path before the last slash. The nodes right
    under the top node [/] have the empty path there; a path without a slash
    names no node of the tree. *)
Definition parent_path (path : string) : option string :=
  match Str.find_last_of "/" path with
  | Some last_slash => Some (String.substring 0 last_slash path)
  | None => None
  end.

(** The parent of [path] is in the tree; the top node always is. *)
Definition has_parent (n : gmap string string) (path : string) : bool :=
  match parent_path path with
  | Some EmptyString => true
  | Some parent =>
      match n !! parent with
      | Some _ => true
      | None => false
      end
  | None => false
  end.

(** One request of a transaction. A create looks for the parent first, then
    for the node itself. *)
Definition apply_request (r : Request) (n : gmap string string) : Error * gmap string string :=
  match r with
  | CreateRequest path data _ =>
      if negb (has_parent n path) then (ZNONODE, n)
      else
        match n !! path with
        | Some _ => (ZNODEEXISTS, n)
        | None => (ZOK, <[path := data]> n)
        end
  | SetRequest path data =>
      match n !! path with
      | Some _ => (ZOK, <[path := data]> n)
      | None => (ZNONODE, n)
      end
  | RemoveRequest path =>
      match n !! path with
      | Some _ =>
          match children n path with
          | [] => (ZOK, delete path n)
          | _ :: _ => (ZNOTEMPTY, n)
          end
      | None => (ZNONODE, n)
      end
  | CheckRequest path =>
      match n !! path with
      | Some _ => (ZOK, n)
      | None => (ZNONODE, n)
      end
  end.

(** The requests of a transaction are applied in order; the first one that
    fails decides the code. *)
Fixpoint apply_requests (rs : list Request) (n : gmap string string) : Error * gmap string string :=
  match rs with
  | [] => (ZOK, n)
  | r :: rs' =>
      match apply_request r n with
      | (ZOK, n') => apply_requests rs' n'
      | (code, _) => (code, n)
      end
  end.

(** A call to the service: it is recorded, fails with the session's
    exception on a broken session, and otherwise answers from the tree. *)
Definition service {A : Type} (c : Call)
    (answer : gmap string string → Result A * gmap string string) : M A := λ σ,
  let σ := add_event (Called c) σ in
  match session σ with
  | Some e => (Throw e, σ)
  | None => let '(r, n) := answer (nodes σ) in (r, set_nodes n σ)
  end.

(** An asynchronous call: the call itself does not throw; a broken session
    shows when the future is read. The model's service answers in time. *)
Definition async {A : Type} (c : Call) (answer : gmap string string → Result A) : M (Future A) := λ σ,
  let σ := add_event (Called c) σ in
  match session σ with
  | Some e => (Ok {| value := Throw e; ready_in_time := true |}, σ)
  | None => (Ok {| value := answer (nodes σ); ready_in_time := true |}, σ)
  end.

(** All or nothing: a failed transaction leaves the tree as it was. *)
Definition tryMulti (requests : list Request) : M Error :=
  service (CMulti requests) (λ n,
    match apply_requests requests n with
    | (ZOK, n') => (Ok ZOK, n')
    | (code, _) => (Ok code, n)
    end).

(** [KeeperMultiException::check]: any code but [ZOK] is thrown. *)
Definition check (code : Error) : M unit :=
  match code with
  | ZOK => mret tt
  | _ => throw (CoordinationException code)
  end.

Definition multi (requests : list Request) : M unit :=
  code ← tryMulti requests; check code.

Definition get (path : string) : M (string * Stat) :=
  service (CGet path) (λ n,
    match n !! path with
    | Some payload =>
        (Ok (payload, {| numChildren := Z.of_nat (length (children n path)) |}), n)
    | None => (Throw (CoordinationException ZNONODE), n)
    end).

Definition getChildren (path : string) : M (list string) :=
  service (CGetChildren path) (λ n,
    match n !! path with
    | Some _ => (Ok (children n path), n)
    | None => (Throw (CoordinationException ZNONODE), n)
    end).

(** The existence answer carries only the code. *)
Definition asyncExists (path : string) : M (Future Error) :=
  async (CExists path) (λ n,
    match n !! path with
    | Some _ => Ok ZOK
    | None => Ok ZNONODE
    end).

Definition asyncTryGet (path : string) : M (Future GetResponse) :=
  async (CTryGet path) (λ n,
    match n !! path with
    | Some payload => Ok {| error := ZOK; data := payload |}
    | None => Ok {| error := ZNONODE; data := EmptyString |}
    end).

(** [RemoveException]: the child of the walked node that is kept;
    [remove_subtree] tells whether what is below that child goes. *)
Record RemoveException := { keep_path : string; remove_subtree : bool }.

Definition survives (path : string) (keep_child : RemoveException) (p : string) : bool :=
  if below path p then
    let kept := path +:+ "/" +:+ keep_path keep_child in
    if Str.is_empty (keep_path keep_child) then false
    else if String.eqb p kept then true
    else below kept p && negb (remove_subtree keep_child)
  else true.

(** The tree after everything below [path] is gone, the kept child apart. *)
Definition sweep (path : string) (keep_child : RemoveException)
    (n : gmap string string) : gmap string string :=
  filter (λ kv, survives path keep_child kv.1 = true) n.

Definition removeChildrenRecursive (path : string) (keep_child : RemoveException) : M unit :=
  service (CRemoveChildren path) (λ n, (Ok tt, sweep path keep_child n)).

End zkutil.

(** ** Column codecs *)

(** The default binary serialization of a column type
    ([IDataType::getDefaultSerialization], not among the sources) is an
    interface for the engine: [serializeBinary] gives the bytes appended to
    the write buffer for one value, [deserializeBinary] reads one value from
    the front of a read buffer and gives back the rest (or fails), and
    [getDefault] is the type's default value. *)
Class Serialization (DataType Field : Type) := {
  serializeBinary : DataType → Field → string;
  deserializeBinary : DataType → string → option (Field * string);
  getDefault : DataType → Field
}.

(** [operator<] of the keys of a container. *)
Class Less (K : Type) := less : K → K → bool.

#[export] Instance string_less : Less string := Str.lt.

(** ** Pure helpers of the engine *)

(** Unsigned 64-bit arithmetic ([size_t], [UInt64]). *)
Definition wrap64 (z : Z) : Z := (z mod 2 ^ 64)%Z.

Definition getBaseName (path : string) : Result string :=
  match Str.find_last_of "/" path with
  | None => Throw (DBException LOGICAL_ERROR)
  | Some last_slash => Ok (Str.substr (last_slash + 1) path)
  end.

(** [std::filesystem::path::operator/] on generic POSIX paths. *)
Definition fs_join (a b : string) : string :=
  if Str.starts_with "/" b then b
  else if Str.is_empty a then b
  else if Str.ends_with "/" a then a +:+ b
  else a +:+ "/" +:+ b.

(** [std::sort] with [operator<]: [a] may stand before [b] when [b < a]
    does not hold. *)
Definition not_after {K : Type} `{Less K} : relation K := λ a b, less b a = false.

#[export] Instance not_after_dec {K : Type} `{Less K} : RelDecision (not_after (K:=K)).
Proof. intros a b. unfold not_after. apply _. Defined.

Definition sort {K : Type} `{Less K} (l : list K) : list K :=
  merge_sort not_after l.

(** [std::unique] followed by [erase]: of each run of equal neighbours the
    first one stays. *)
Fixpoint unique_from {K : Type} `{EqDecision K} (x : K) (l : list K) : list K :=
  match l with
  | [] => [x]
  | y :: l' => if decide (x = y) then unique_from x l' else x :: unique_from y l'
  end.

Definition unique {K : Type} `{EqDecision K} (l : list K) : list K :=
  match l with
  | [] => []
  | x :: l' => unique_from x l'
  end.

(** ** The table object *)

Section Engine.

Context {DataType Field : Type} `{Serialization DataType Field}.

(** A row holds one value per column of the header. A chunk is kept row by
    row: row [i] of the model is entry [i] of every column of the chunk. *)
Definition Row : Type := list Field.

(** The immutable members of [StorageKeeperMap]; the mutable
    [table_is_valid] lives in the [State]. [sample_block] is the header
    (name and type of each column) of the in-memory metadata. *)
Record StorageKeeperMap := {
  root_path : string;
  primary_key : string;
  zookeeper_name : string;
  keys_limit : Z;
  metadata_path : string;
  tables_path : string;
  table_path : string;
  dropped_path : string;
  dropped_lock_path : string;
  sample_block : list (string * DataType)
}.

Definition rootKeeperPath (storage : StorageKeeperMap) : string := root_path storage.

Definition fullPathForKey (storage : StorageKeeperMap) (key : string) : string :=
  root_path storage +:+ "/" +:+ key.

Definition keysLimit (storage : StorageKeeperMap) : Z := keys_limit storage.

(** [Block::getPositionByName]: throws when no column has the name. *)
Fixpoint getPositionByName (header : list (string * DataType)) (name : string) : Result nat :=
  match header with
  | [] => Throw (DBException BAD_ARGUMENTS)
  | (n, _) :: header' =>
      if String.eqb n name then Ok 0
      else match getPositionByName header' name with
           | Ok i => Ok (S i)
           | Throw e => Throw e
           end
  end.

Fixpoint getByName (header : list (string * DataType)) (name : string) : Result DataType :=
  match header with
  | [] => Throw (DBException BAD_ARGUMENTS)
  | (n, ty) :: header' => if String.eqb n name then Ok ty else getByName header' name
  end.

(** *** Construction: the capacity limit and the paths *)

(** The constructor up to the point where it starts to talk to the
    service: the checks of the configuration, the choice of the capacity
    limit and the paths of the metadata nodes. [path_prefix] is the
    [keeper_map_path_prefix] setting, [config_keys_limit] the
    [keeper_map_keys_limit] setting (0 when absent), [extracted_root_path]
    and [extracted_name] what [zkutil::extractZooKeeperPath] and
    [zkutil::extractZooKeeperName] make of the engine argument,
    [table_unique_id] the table's and the server's UUIDs in text. The
    creation of the nodes that follows does not touch these members. *)
Definition StorageKeeperMap_init
    (path_prefix : string) (has_uuid : bool)
    (metadata : list (string * DataType)) (primary_key_ : string)
    (extracted_root_path extracted_name : string) (table_unique_id : string)
    (keys_limit_ config_keys_limit : Z) : M StorageKeeperMap :=
  if Str.is_empty path_prefix then throw (DBException BAD_ARGUMENTS)
  else if negb has_uuid then throw (DBException BAD_ARGUMENTS)
  else if Str.is_empty extracted_root_path then throw (DBException BAD_ARGUMENTS)
  else if negb (Str.starts_with "/" extracted_root_path) then throw (DBException BAD_ARGUMENTS)
  else
    limit ← (if negb (config_keys_limit =? 0)%Z && (keys_limit_ >? config_keys_limit)%Z
             then emit (Logged LWarning "Keys limit defined by argument is larger than the one defined by keeper_map_keys_limit config. Will use config defined value");;
                  mret config_keys_limit
             else if (keys_limit_ >? 0)%Z
             then emit (Logged LInfo "Keys limit will be set");; mret keys_limit_
             else mret keys_limit_);
    let root_path_fs := fs_join path_prefix (Str.substr 1 extracted_root_path) in
    let metadata_path_fs := fs_join root_path_fs "ch_metadata" in
    let tables := fs_join metadata_path_fs "tables" in
    let dropped := fs_join metadata_path_fs "dropped" in
    mret {| root_path := root_path_fs;
            primary_key := primary_key_;
            zookeeper_name := extracted_name;
            keys_limit := limit;
            metadata_path := metadata_path_fs;
            tables_path := tables;
            table_path := fs_join tables table_unique_id;
            dropped_path := dropped;
            dropped_lock_path := fs_join dropped "lock";
            sample_block := metadata |}.

(** *** Validity *)

(** [isTableValid]: the cached value if there is one; otherwise one check
    transaction on the table marker, inside the [try] whose two handlers
    log and decide what is cached. [getClient()] is the session of the
    state: a broken session makes the call throw. *)
Definition isTableValid (storage : StorageKeeperMap) : M (option bool) :=
  cached ← read_table_is_valid;
  match cached with
  | Some v => mret (Some v)
  | None =>
      try_catch
        (res ← zkutil.tryMulti [CheckRequest (table_path storage)];
         write_table_is_valid (bool_decide (res = ZOK)))
        (λ e,
           match e with
           | CoordinationException code =>
               emit (ExceptionLogged e);;
               if negb (isHardwareError code) then write_table_is_valid false else mret tt
           | DBException _ =>
               emit (ExceptionLogged e);;
               write_table_is_valid false
           | ForeignException => throw e
           end);;
      read_table_is_valid
  end.

(** Modelled from the spec: [checkTable] is defined in the header, which is
    not among the sources. Every read, write, truncate and drop validates
    the table first and fails fast on a table that is not known to be
    valid; with [throw_on_error = false] (attach) the failure is logged. *)
Definition checkTable (throw_on_error : bool) (storage : StorageKeeperMap) : M unit :=
  is_table_valid ← isTableValid storage;
  match is_table_valid with
  | Some true => mret tt
  | _ =>
      if throw_on_error then throw (DBException INVALID_STATE)
      else emit (Logged LError "Failed to activate table")
  end.

(** *** The reclaim step of the drop protocol *)

(** [dropTable(zookeeper, metadata_drop_lock)]: the lock holder is its path;
    [setAlreadyRemoved] shows as an event. *)
Definition dropTable (storage : StorageKeeperMap) (metadata_drop_lock : string) : M bool :=
  base ← lift (getBaseName (metadata_path storage));
  zkutil.removeChildrenRecursive (root_path storage)
    {| zkutil.keep_path := base; zkutil.remove_subtree := false |};;
  let ops := [RemoveRequest metadata_drop_lock;
              RemoveRequest (dropped_path storage);
              RemoveRequest (metadata_path storage)] in
  code ← zkutil.tryMulti ops;
  match code with
  | ZOK =>
      emit (LockAlreadyRemoved metadata_drop_lock);;
      emit (Logged LInfo "Metadata was successfully removed from ZooKeeper");;
      mret true
  | ZNONODE => throw (DBException LOGICAL_ERROR)
  | ZNOTEMPTY =>
      emit (Logged LError "Metadata was not completely removed from ZooKeeper");;
      mret false
  | _ => zkutil.check code;; mret false
  end.

(** *** The write path *)

(** [StorageKeeperMapSink]: the table, the buffered batch and the position
    of the key column in the header. *)
Record StorageKeeperMapSink := {
  storage : StorageKeeperMap;
  new_values : gmap string string;
  primary_key_pos : nat
}.

Definition StorageKeeperMapSink_init (storage_ : StorageKeeperMap) : Result StorageKeeperMapSink :=
  match getPositionByName (sample_block storage_) (primary_key storage_) with
  | Ok pos => Ok {| storage := storage_; new_values := ∅; primary_key_pos := pos |}
  | Throw e => Throw e
  end.

(** The inner loop of [consume] over the columns of one row: the key column
    goes to [wb_key], every other column to [wb_value]. *)
Fixpoint serialize_row (header : list (string * DataType)) (row : Row)
    (idx key_pos : nat) (wb_key wb_value : string) : string * string :=
  match header, row with
  | (_, ty) :: header', v :: row' =>
      if (idx =? key_pos)%nat
      then serialize_row header' row' (S idx) key_pos (wb_key +:+ serializeBinary ty v) wb_value
      else serialize_row header' row' (S idx) key_pos wb_key (wb_value +:+ serializeBinary ty v)
  | _, _ => (wb_key, wb_value)
  end.

(** The node name and the payload of a row. *)
Definition row_entry (sink : StorageKeeperMapSink) (row : Row) : string * string :=
  let '(wb_key, wb_value) :=
    serialize_row (sample_block (storage sink)) row 0 (primary_key_pos sink)
      EmptyString EmptyString in
  (Base64.base64Encode wb_key true, wb_value).

Definition consume_row (sink : StorageKeeperMapSink) (row : Row) : StorageKeeperMapSink :=
  let '(key, wb_value) := row_entry sink row in
  {| storage := storage sink;
     new_values := <[key := wb_value]> (new_values sink);
     primary_key_pos := primary_key_pos sink |}.

(** [consume(chunk)]: every row is serialized and stored under its encoded
    key; [operator[]] replaces what the key held. *)
Definition consume (chunk : list Row) (sink : StorageKeeperMapSink) : StorageKeeperMapSink :=
  foldl consume_row sink chunk.

(** The second loop of [onFinish]: one request per answered existence
    check, counting the keys that have to be created. *)
Fixpoint stage_requests (storage_ : StorageKeeperMap) (values : gmap string string)
    (exist_responses : list (string * Future Error))
    (requests : list Request) (new_keys_num : Z) : Result (list Request * Z) :=
  match exist_responses with
  | [] => Ok (requests, new_keys_num)
  | (key, response) :: rest =>
      match value response with
      | Throw e => Throw e
      | Ok ZOK =>
          stage_requests storage_ values rest
            (requests ++ [SetRequest (fullPathForKey storage_ key) (values !!! key)])
            new_keys_num
      | Ok _ =>
          stage_requests storage_ values rest
            (requests ++ [CreateRequest (fullPathForKey storage_ key) (values !!! key) Persistent])
            (wrap64 (new_keys_num + 1))
      end
  end.

(** [onFinish]: the child count of the root (with a limit only), the
    existence checks, the staging of the requests, the limit test, the
    transaction. The buffered map is walked in the order of
    [map_to_list]. *)
Definition onFinish (sink : StorageKeeperMapSink) : M unit :=
  let storage_ := storage sink in
  let keys_limit := keysLimit storage_ in
  current_keys_num ←
    (if negb (keys_limit =? 0)%Z
     then root ← zkutil.get (rootKeeperPath storage_);
          mret (wrap64 (numChildren root.2 - 1))
     else mret 0%Z);
  exist_responses ←
    for_each (λ kv : string * string,
                response ← zkutil.asyncExists (fullPathForKey storage_ kv.1);
                mret (kv.1, response))
             (map_to_list (new_values sink));
  staged ← lift (stage_requests storage_ (new_values sink) exist_responses [] 0%Z);
  let '(requests, new_keys_num) := staged in
  (if negb (new_keys_num =? 0)%Z
   then let will_be := wrap64 (current_keys_num + new_keys_num) in
        if negb (keys_limit =? 0)%Z && (will_be >? keys_limit)%Z
        then throw (DBException LIMIT_EXCEEDED)
        else mret tt
   else mret tt);;
  zkutil.multi requests.

(** *** Fetching by keys *)

(** Modelled from the spec: [fillColumns] ([Storages/KVStorageUtils.h]) is
    not among the sources. It decodes one row: the key column is read from
    the key bytes, the other columns from the value blob, in the fixed
    column order of the header; a failing codec fails the row. *)
Fixpoint fillColumns_from (header : list (string * DataType)) (i key_pos : nat)
    (key_buffer value_buffer : string) : option Row :=
  match header with
  | [] => Some []
  | (_, ty) :: header' =>
      if (i =? key_pos)%nat
      then match deserializeBinary ty key_buffer with
           | Some (v, key_buffer') =>
               match fillColumns_from header' (S i) key_pos key_buffer' value_buffer with
               | Some row => Some (v :: row)
               | None => None
               end
           | None => None
           end
      else match deserializeBinary ty value_buffer with
           | Some (v, value_buffer') =>
               match fillColumns_from header' (S i) key_pos key_buffer value_buffer' with
               | Some row => Some (v :: row)
               | None => None
               end
           | None => None
           end
  end.

Definition fillColumns (key value_ : string) (key_pos : nat)
    (header : list (string * DataType)) : option Row :=
  fillColumns_from header 0 key_pos key value_.

(** The row of column defaults inserted for a key that was not found. *)
Definition default_row (header : list (string * DataType)) : Row :=
  map (λ col, getDefault col.2) header.

(** [fillColumns(base64Decode(key, true), response.data, ...)]: the row
    that a found key contributes; [None] when a codec throws. *)
Definition decode_node (storage_ : StorageKeeperMap) (key_pos : nat)
    (key payload : string) : option Row :=
  match Base64.base64Decode key true with
  | Some raw_key => fillColumns raw_key payload key_pos (sample_block storage_)
  | None => None
  end.

(** The first loop of [getBySerializedKeys]: a fetch is sent for every key
    but the metadata node, whose slot holds no future. *)
Definition request_values (storage_ : StorageKeeperMap) (keys : list string)
    : M (list (option (Future GetResponse))) :=
  for_each (λ key,
              let full_path := fullPathForKey storage_ key in
              if String.eqb full_path (metadata_path storage_)
              then mret None
              else response ← zkutil.asyncTryGet full_path; mret (Some response))
           keys.

(** The second loop: [columns] are the rows appended so far, [null_map] the
    indicator array (meaningful when [with_null_map]). *)
Fixpoint collect_values (storage_ : StorageKeeperMap) (key_pos : nat) (with_null_map : bool)
    (i : nat) (keys : list string) (values : list (option (Future GetResponse)))
    (columns : list Row) (null_map : list Z) : Result (list Row * list Z) :=
  match keys, values with
  | key :: keys', slot :: values' =>
      match slot with
      | None =>
          collect_values storage_ key_pos with_null_map (S i) keys' values' columns null_map
      | Some response =>
          if negb (ready_in_time response) then Throw (DBException LOGICAL_ERROR)
          else
            match value response with
            | Throw e => Throw e
            | Ok r =>
                match error r with
                | ZOK =>
                    match decode_node storage_ key_pos key (data r) with
                    | None => Throw ForeignException
                    | Some row =>
                        collect_values storage_ key_pos with_null_map (S i) keys' values'
                          (columns ++ [row]) null_map
                    end
                | ZNONODE =>
                    if with_null_map
                    then collect_values storage_ key_pos with_null_map (S i) keys' values'
                           (columns ++ [default_row (sample_block storage_)])
                           (<[i := 0%Z]> null_map)
                    else collect_values storage_ key_pos with_null_map (S i) keys' values'
                           columns null_map
                | _ => Throw (DBException KEEPER_EXCEPTION)
                end
            end
      end
  | _, _ => Ok (columns, null_map)
  end.

(** [getBySerializedKeys(keys, null_map)]: the rows of the chunk and, when a
    null map was passed ([with_null_map]), its final content. *)
Definition getBySerializedKeys (storage_ : StorageKeeperMap) (keys : list string)
    (with_null_map : bool) : M (list Row * option (list Z)) :=
  key_pos ← lift (getPositionByName (sample_block storage_) (primary_key storage_));
  let null_map := if with_null_map then replicate (length keys) 1%Z else [] in
  values ← request_values storage_ keys;
  fetched ← lift (collect_values storage_ key_pos with_null_map 0 keys values [] null_map);
  match sample_block storage_ with
  | [] => throw ForeignException
  | _ :: _ => mret (fetched.1, if with_null_map then Some fetched.2 else None)
  end.

(** *** The read path *)

(** [StorageKeeperMapSource<KeyContainer>]: the shared container and the
    two iterators, as positions in it. *)
Record StorageKeeperMapSource (K : Type) := {
  source_storage : StorageKeeperMap;
  max_block_size : nat;
  container : list K;
  it : nat;
  end_ : nat
}.
Arguments source_storage {K} _.
Arguments max_block_size {K} _.
Arguments container {K} _.
Arguments it {K} _.
Arguments end_ {K} _.

Definition advance {K : Type} (source : StorageKeeperMapSource K) (pos : nat)
    : StorageKeeperMapSource K :=
  {| source_storage := source_storage source;
     max_block_size := max_block_size source;
     container := container source;
     it := pos;
     end_ := end_ source |}.

(** The keys between the two iterators of a source. *)
Definition slice {K : Type} (source : StorageKeeperMapSource K) : list K :=
  take (end_ source - it source) (drop (it source) (container source)).

(** [generate] over a container of encoded keys (full scan): [None] is the
    empty chunk that ends the source. *)
Definition generate_strings (source : StorageKeeperMapSource string)
    : M (option (list Row * StorageKeeperMapSource string)) :=
  if (end_ source <=? it source)%nat then mret None
  else
    let elem_num := Nat.min (max_block_size source) (end_ source - it source) in
    chunk ← getBySerializedKeys (source_storage source)
               (take elem_num (drop (it source) (container source))) false;
    mret (Some (chunk.1, advance source (it source + elem_num))).

(** Modelled from the spec: [serializeKeysToRawString]
    ([Storages/KVStorageUtils.h], not among the sources) serializes the next
    batch of at most [max_block_size] keys between the two iterators and
    moves the first iterator past them. *)
Definition serializeKeysToRawString (keys : list Field) (it_ end__ : nat)
    (key_column_type : DataType) (max_block_size_ : nat) : list string * nat :=
  let n := Nat.min max_block_size_ (end__ - it_) in
  (map (serializeBinary key_column_type) (take n (drop it_ keys)), it_ + n).

(** [generate] over a container of key values (keys of the query). *)
Definition generate_fields (source : StorageKeeperMapSource Field)
    : M (option (list Row * StorageKeeperMapSource Field)) :=
  if (end_ source <=? it source)%nat then mret None
  else
    key_column_type ← lift (getByName (sample_block (source_storage source))
                                      (primary_key (source_storage source)));
    let '(raw_keys, it') :=
      serializeKeysToRawString (container source) (it source) (end_ source)
        key_column_type (max_block_size source) in
    let raw_keys := map (λ raw_key, Base64.base64Encode raw_key true) raw_keys in
    chunk ← getBySerializedKeys (source_storage source) raw_keys false;
    mret (Some (chunk.1, advance source it')).

(** The lambda [process_keys] of [read]: one source per slice of the
    sorted, deduplicated keys. [num_streams] is an [unsigned], the products
    are [size_t]. *)
Definition process_keys {K : Type} `{Less K, EqDecision K}
    (storage_ : StorageKeeperMap) (max_block_size_ : nat) (num_streams : Z)
    (keys : list K) : list (StorageKeeperMapSource K) :=
  match keys with
  | [] => []
  | _ :: _ =>
      let keys := unique (sort keys) in
      let num_keys := Z.of_nat (length keys) in
      let num_threads := Z.min num_streams (Z.of_nat (length keys)) in
      map (λ t,
             let thread_idx := Z.of_nat t in
             let begin_ := (wrap64 (num_keys * thread_idx) / num_threads)%Z in
             let end__ := (wrap64 (num_keys * wrap64 (thread_idx + 1)) / num_threads)%Z in
             {| source_storage := storage_;
                max_block_size := max_block_size_;
                container := keys;
                it := Z.to_nat begin_;
                end_ := Z.to_nat end__ |})
          (seq 0 (Z.to_nat num_threads))
  end.

(** The pipe returned by [read]: the sources over encoded keys of a full
    scan, or the sources over the key values of the query. *)
Inductive Pipe :=
  | ScanPipe (sources : list (StorageKeeperMapSource string))
  | KeysPipe (sources : list (StorageKeeperMapSource Field)).

(** [read]: [filtered_keys] and [all_scan] are the result of
    [getFilterKeys] on the query. *)
Definition read `{Less Field, EqDecision Field} (storage_ : StorageKeeperMap)
    (filtered_keys : list Field) (all_scan : bool)
    (max_block_size_ : nat) (num_streams : Z) : M Pipe :=
  checkTable true storage_;;
  if all_scan
  then children ← zkutil.getChildren (root_path storage_);
       mret (ScanPipe (process_keys storage_ max_block_size_ num_streams children))
  else mret (KeysPipe (process_keys storage_ max_block_size_ num_streams filtered_keys)).

(** Modelled from the spec: the pipeline that drives a source ([ISource],
    not among the sources) asks for chunks until the source ends, and
    every chunk is one unit of output. [fuel] bounds the number of requests;
    [None] reports that it ran out. *)
Fixpoint drain (fuel : nat) (source : StorageKeeperMapSource string)
    : M (option (list Row)) :=
  match fuel with
  | O => mret None
  | S fuel' =>
      step ← generate_strings source;
      match step with
      | None => mret (Some [])
      | Some (chunk, source') =>
          rest ← drain fuel' source';
          mret (match rest with
                | Some rows => Some (chunk ++ rows)
                | None => None
                end)
      end
  end.

(** All sources of a pipe, one after the other. *)
Fixpoint drain_all (fuel : nat) (sources : list (StorageKeeperMapSource string))
    : M (option (list Row)) :=
  match sources with
  | [] => mret (Some [])
  | source :: sources' =>
      rows ← drain fuel source;
      rest ← drain_all fuel sources';
      mret (match rows, rest with
            | Some r1, Some r2 => Some (r1 ++ r2)
            | _, _ => None
            end)
  end.

End Engine.

Arguments Row : clear implicits.
Arguments StorageKeeperMap : clear implicits.
Arguments StorageKeeperMapSink : clear implicits.
Arguments StorageKeeperMapSource : clear implicits.
Arguments Pipe : clear implicits.
Arguments source_storage {DataType K} _.
Arguments max_block_size {DataType K} _.
Arguments container {DataType K} _.
Arguments it {DataType K} _.
Arguments end_ {DataType K} _.

(** ** The key codec of the spec *)

Section KeyCodec.

Context {DataType Field : Type} `{Serialization DataType Field}.

(** [encodeKey]: the node name of a key value, as [consume] computes it for
    the key column of a row (binary serialization, then URL-safe text). *)
Definition encodeKey (key_type : DataType) (k : Field) : string :=
  Base64.base64Encode (serializeBinary key_type k) true.

(** [decodeKey]: the key value of a node name, as [getBySerializedKeys]
    recovers it (text decoding, then the key column's deserialization). *)
Definition decodeKey (key_type : DataType) (node_name : string) : option Field :=
  match Base64.base64Decode node_name true with
  | Some raw =>
      match deserializeBinary key_type raw with
      | Some (k, _) => Some k
      | None => None
      end
  | None => None
  end.

(** A value is legal for a column type when the type's codec reads it back
    from the front of any buffer that starts with its serialization. *)
Definition legal (ty : DataType) (v : Field) : Prop :=
  ∀ rest, deserializeBinary ty (serializeBinary ty v +:+ rest) = Some (v, rest).

End KeyCodec.

(** ** A concrete codec: single-byte columns *)

(** Columns of one byte each ([UInt8]): the serialization of a value is the
    byte itself. Used to run the engine on concrete tables. *)
Module ByteColumns.

#[global] Instance serialization : Serialization unit ascii := {|
  serializeBinary := λ _ v, String v EmptyString;
  deserializeBinary := λ _ s,
    match s with
    | String c rest => Some (c, rest)
    | EmptyString => None
    end;
  getDefault := λ _, Ascii.zero
|}.

#[global] Instance byte_less : Less ascii := λ a b, (N_of_ascii a <? N_of_ascii b)%N.

(** A table with a key column [k] and a value column [v], rooted at
    [/keeper_map/t], with the given capacity limit. *)
Definition table (limit : Z) : StorageKeeperMap unit := {|
  root_path := "/keeper_map/t";
  primary_key := "k";
  zookeeper_name := "default";
  keys_limit := limit;
  metadata_path := "/keeper_map/t/ch_metadata";
  tables_path := "/keeper_map/t/ch_metadata/tables";
  table_path := "/keeper_map/t/ch_metadata/tables/0001";
  dropped_path := "/keeper_map/t/ch_metadata/dropped";
  dropped_lock_path := "/keeper_map/t/ch_metadata/dropped/lock";
  sample_block := [("k", tt); ("v", tt)]
|}.

(** The node tree of the table when it holds the given data nodes. *)
Definition tree (data_nodes : list (string * string)) : gmap string string :=
  list_to_map
    ([("/keeper_map/t", EmptyString);
      ("/keeper_map/t/ch_metadata", EmptyString);
      ("/keeper_map/t/ch_metadata/tables", EmptyString);
      ("/keeper_map/t/ch_metadata/tables/0001", EmptyString)]
     ++ map (λ kv, ("/keeper_map/t/" +:+ kv.1, kv.2)) data_nodes).

Definition state (data_nodes : list (string * string)) (valid : option bool) : State :=
  mkState (tree data_nodes) None valid [].

(** An empty sink on the table, and the sink after it consumed a chunk. *)
Definition sink (limit : Z) : StorageKeeperMapSink unit :=
  {| storage := table limit; new_values := ∅; primary_key_pos := 0 |}.

Definition batch (limit : Z) (chunk : list (list ascii)) : StorageKeeperMapSink unit :=
  consume chunk (sink limit).

(** The same table seen through a session that fails with [e]. *)
Definition failing_state (e : Exception) (valid : option bool) : State :=
  mkState (tree []) (Some e) valid [].

(** The node tree after [drop] has removed the last table marker and the
    tables directory and has created the dropped marker and its lock. *)
Definition dropped_tree (data_nodes : list (string * string)) : gmap string string :=
  list_to_map
    ([("/keeper_map/t", EmptyString);
      ("/keeper_map/t/ch_metadata", EmptyString);
      ("/keeper_map/t/ch_metadata/dropped", EmptyString);
      ("/keeper_map/t/ch_metadata/dropped/lock", EmptyString)]
     ++ map (λ kv, ("/keeper_map/t/" +:+ kv.1, kv.2)) data_nodes).

End ByteColumns.

(** ** Notions used in the statements *)

(** Two states that differ in the recorded events only. *)
Definition same_service (σ σ' : State) : Prop :=
  nodes σ' = nodes σ ∧ session σ' = session σ ∧ table_is_valid σ' = table_is_valid σ.

(** The answer of a reachable service to the fetch of one key. *)
Definition answer_of (n : gmap string string) (path : string) : Future GetResponse :=
  {| value := Ok (match n !! path with
                  | Some payload => {| error := ZOK; data := payload |}
                  | None => {| error := ZNONODE; data := EmptyString |}
                  end);
     ready_in_time := true |}.

(** The answer of a reachable service to an existence check. *)
Definition exists_answer (n : gmap string string) (path : string) : Future Error :=
  {| value := Ok (match n !! path with
                  | Some _ => ZOK
                  | None => ZNONODE
                  end);
     ready_in_time := true |}.

(** The events of a list that are calls able to change the tree. *)
Definition is_write_event (ev : Event) : bool :=
  match ev with
  | Called c => is_write c
  | _ => false
  end.

(** From [σ] to [σ'] the tree is the same and no call that could change it
    was sent. *)
Definition reads_only (σ σ' : State) : Prop :=
  nodes σ' = nodes σ ∧
  ∃ evs, events σ' = events σ ++ evs ∧ forallb (λ ev, negb (is_write_event ev)) evs = true.

Section Vocabulary.

Context {DataType Field : Type} `{Serialization DataType Field}.

(** The source that [process_keys] builds for thread [t]. *)
Definition source_at {K : Type} (table : StorageKeeperMap DataType) (max_block_size_ : nat)
    (sorted : list K) (k : Z) (t : nat) : StorageKeeperMapSource DataType K :=
  {| source_storage := table;
     max_block_size := max_block_size_;
     container := sorted;
     it := Z.to_nat (Z.of_nat (length sorted) * Z.of_nat t / k);
     end_ := Z.to_nat (Z.of_nat (length sorted) * (Z.of_nat t + 1) / k) |}.

(** What a key contributes when a null map is passed: the decoded row of
    its node, or the row of defaults. *)
Definition contribution (table : StorageKeeperMap DataType) (key_pos : nat)
    (n : gmap string string) (key : string) : option (Row Field) :=
  match n !! fullPathForKey table key with
  | Some payload => decode_node table key_pos key payload
  | None => Some (default_row (sample_block table))
  end.

(** The null-map entry of a key: 1 for a key that was found, 0 for a key
    without a node. *)
Definition null_map_entry (table : StorageKeeperMap DataType)
    (n : gmap string string) (key : string) : Z :=
  match n !! fullPathForKey table key with
  | Some _ => 1%Z
  | None => 0%Z
  end.

(** What a key contributes when no null map is passed. *)
Definition found_row (table : StorageKeeperMap DataType) (key_pos : nat)
    (n : gmap string string) (key : string) : option (Row Field) :=
  match n !! fullPathForKey table key with
  | Some payload => decode_node table key_pos key payload
  | None => None
  end.

(** What the first loop of [getBySerializedKeys] keeps for a key: nothing
    for the metadata node, the answer of the service otherwise. *)
Definition slot_of (table : StorageKeeperMap DataType) (n : gmap string string)
    (key : string) : option (Future GetResponse) :=
  if String.eqb (fullPathForKey table key) (metadata_path table) then None
  else Some (answer_of n (fullPathForKey table key)).

(** What a name contributes to a scan: nothing for the metadata node,
    the decoded row of its node otherwise. *)
Definition scan_row (table : StorageKeeperMap DataType) (key_pos : nat)
    (n : gmap string string) (key : string) : option (Row Field) :=
  if String.eqb (fullPathForKey table key) (metadata_path table) then None
  else found_row table key_pos n key.

(** The node of a key, when there is one, decodes. *)
Definition decodable (table : StorageKeeperMap DataType) (key_pos : nat)
    (n : gmap string string) (key : string) : Prop :=
  ∀ payload, n !! fullPathForKey table key = Some payload →
             is_Some (decode_node table key_pos key payload).

(** A name that can be scanned: the metadata node, or a name whose node,
    if any, decodes. *)
Definition scannable (table : StorageKeeperMap DataType) (key_pos : nat)
    (n : gmap string string) (key : string) : Prop :=
  fullPathForKey table key ≠ metadata_path table → decodable table key_pos n key.

(** The children of the root that are data nodes: all but the metadata
    node. *)
Definition data_keys (table : StorageKeeperMap DataType) (n : gmap string string)
    : list string :=
  filter (λ name, fullPathForKey table name ≠ metadata_path table)
         (zkutil.children n (root_path table)).

(** The request that [onFinish] stages for a buffered key, given the tree
    the existence checks saw. *)
Definition staged_request (table : StorageKeeperMap DataType) (values : gmap string string)
    (n : gmap string string) (key : string) : Request :=
  match n !! fullPathForKey table key with
  | Some _ => SetRequest (fullPathForKey table key) (values !!! key)
  | None => CreateRequest (fullPathForKey table key) (values !!! key) Persistent
  end.

(** The buffered keys that have no node yet. *)
Definition new_keys (table : StorageKeeperMap DataType) (values : gmap string string)
    (n : gmap string string) : list string :=
  filter (λ key, n !! fullPathForKey table key = None) (map fst (map_to_list values)).

(** The count of new keys as the second loop keeps it. *)
Fixpoint count_new (table : StorageKeeperMap DataType) (n : gmap string string)
    (keys : list string) (new_keys_num : Z) : Z :=
  match keys with
  | [] => new_keys_num
  | key :: keys' =>
      match n !! fullPathForKey table key with
      | Some _ => count_new table n keys' new_keys_num
      | None => count_new table n keys' (wrap64 (new_keys_num + 1))
      end
  end.

(** The tree after a batch has been written over it. *)
Definition commit (table : StorageKeeperMap DataType) (values : list (string * string))
    (n : gmap string string) : gmap string string :=
  foldl (λ acc kv, <[fullPathForKey table kv.1 := kv.2]> acc) n values.

(** The key count that [onFinish] works with: nothing is read without a
    limit; otherwise the children of the root less one, for the metadata
    node. *)
Definition current_keys_num (table : StorageKeeperMap DataType) (n : gmap string string) : Z :=
  if (keysLimit table =? 0)%Z then 0%Z
  else wrap64 (Z.of_nat (length (zkutil.children n (rootKeeperPath table))) - 1).

(** The test of [onFinish] that rejects a batch. *)
Definition limit_exceeded (table : StorageKeeperMap DataType) (values : gmap string string)
    (n : gmap string string) : bool :=
  let new_keys_num := count_new table n (map fst (map_to_list values)) 0 in
  negb (new_keys_num =? 0)%Z && negb (keysLimit table =? 0)%Z
  && (wrap64 (current_keys_num table n + new_keys_num) >? keysLimit table)%Z.

End Vocabulary.

(** ** More of the client: single requests and the lock holder *)

Module ZooKeeper.

(** Modelled from the spec: the single-request calls of the client
    ([Common/ZooKeeper/ZooKeeper.h], not among the sources) that [truncate],
    [drop] and [getByKeys] go through. A single request reaches the service
    as a transaction of that one request. [remove] throws on every code but
    [ZOK]; [tryRemove] hands back the codes a caller can act on and throws
    the others. *)
Definition remove (path : string) : M unit :=
  zkutil.multi [RemoveRequest path].

Definition tryRemove (path : string) : M Error :=
  code ← zkutil.tryMulti [RemoveRequest path];
  match code with
  | ZOK | ZNONODE | ZBADVERSION | ZNOTEMPTY => mret code
  | _ => throw (CoordinationException code)
  end.

(** Modelled from the spec: the calls of the client that the constructor
    goes through. [exists] tells whether a node is there; [tryCreate] hands
    back the codes a caller can act on and throws the others;
    [createIfNotExists] takes an existing node for success. *)
Definition exists_ (path : string) : M bool :=
  zkutil.service (CExists path) (λ n, (Ok (bool_decide (is_Some (n !! path))), n)).

Definition tryCreate (path data : string) (mode : CreateMode) : M Error :=
  code ← zkutil.tryMulti [CreateRequest path data mode];
  match code with
  | ZOK | ZNONODE | ZNODEEXISTS => mret code
  | _ => throw (CoordinationException code)
  end.

Definition createIfNotExists (path data : string) : M unit :=
  code ← zkutil.tryMulti [CreateRequest path data Persistent];
  match code with
  | ZOK | ZNODEEXISTS => mret tt
  | _ => throw (CoordinationException code)
  end.

(** The proper ancestors of a path, from the top: the prefixes that end
    before a slash, the leading slash apart. *)
Fixpoint ancestors_from (prefix rest : string) : list string :=
  match rest with
  | EmptyString => []
  | String c rest' =>
      if Ascii.eqb c "/"
      then prefix :: ancestors_from (prefix +:+ String c EmptyString) rest'
      else ancestors_from (prefix +:+ String c EmptyString) rest'
  end.

Definition ancestors (path : string) : list string :=
  match path with
  | EmptyString => []
  | String c rest => ancestors_from (String c EmptyString) rest
  end.

Definition createAncestors (path : string) : M unit :=
  for_each (λ ancestor, createIfNotExists ancestor EmptyString) (ancestors path);;
  mret tt.

(** Modelled from the spec: [tryRemoveChildrenRecursive] walks the same
    subtree as [removeChildrenRecursive] and reports whether everything but
    the kept child went; no other client adds nodes during a call, so the
    walk is complete. *)
Definition tryRemoveChildrenRecursive (path : string) (probably_flat : bool)
    (keep_child : zkutil.RemoveException) : M bool :=
  zkutil.service (CRemoveChildren path) (λ n, (Ok true, zkutil.sweep path keep_child n)).

End ZooKeeper.

Module EphemeralNodeHolder.

(** Modelled from the spec: the destructor of [zkutil::EphemeralNodeHolder]
    ([Common/ZooKeeper/ZooKeeper.h], not among the sources). A holder that
    was not told that its node is gone removes the node; what the removal
    throws is logged and goes no further. *)
Definition release (path : string) : M unit :=
  try_catch (ZooKeeper.tryRemove path;; mret tt) (λ e, emit (ExceptionLogged e)).

(** The scope of a holder around [body], which tells with [true] that it
    called [setAlreadyRemoved]: the destructor runs when the scope is left,
    by return or by exception. *)
Definition scope (path : string) (body : M bool) : M bool :=
  try_catch
    (already_removed ← body;
     (if already_removed : bool then mret tt else release path);;
     mret already_removed)
    (λ e, release path;; throw e).

End EphemeralNodeHolder.

(** ** More of the table object *)

Section EngineMore.

Context {DataType Field : Type} `{Serialization DataType Field}.

(** *** Construction: the metadata nodes *)

(** The loop of the constructor that creates the metadata nodes, at most
    [attempts] times round (1000 in the source): leftovers of a dropped
    table are reclaimed first, under the lock; then the metadata node, the
    tables directory and the table's marker are created. A round that could
    not reclaim, or that lost the metadata nodes to another table on the
    way, is followed by the next one. *)
Fixpoint create_metadata (attempts : nat) (storage_ : StorageKeeperMap DataType) : M unit :=
  match attempts with
  | O => throw (DBException BAD_ARGUMENTS)
  | S attempts' =>
      dropped ← ZooKeeper.exists_ (dropped_path storage_);
      again ←
        (if dropped : bool
         then
           emit (Logged LInfo "Removing leftover nodes");;
           code ← ZooKeeper.tryCreate (dropped_lock_path storage_) EmptyString Ephemeral;
           match code with
           | ZNONODE | ZNODEEXISTS =>
               emit (Logged LInfo "Someone else removed leftover nodes");;
               mret false
           | ZOK =>
               removed ← EphemeralNodeHolder.scope (dropped_lock_path storage_)
                           (dropTable storage_ (dropped_lock_path storage_));
               mret (negb removed)
           | _ => throw (CoordinationException code)
           end
         else mret false);
      if again : bool
      then create_metadata attempts' storage_
      else
        ZooKeeper.createIfNotExists (metadata_path storage_) EmptyString;;
        ZooKeeper.createIfNotExists (tables_path storage_) EmptyString;;
        code ← ZooKeeper.tryCreate (table_path storage_) EmptyString Persistent;
        match code with
        | ZOK => write_table_is_valid true
        | ZNONODE =>
            emit (Logged LInfo "Metadata nodes were deleted in background, will retry");;
            create_metadata attempts' storage_
        | _ => throw (CoordinationException code)
        end
  end.

(** The constructor from the point where the paths are set: an attached
    table is only checked; for a created one the root is looked up (and
    created with its ancestors when that is asked for), then the metadata
    nodes are created. *)
Definition StorageKeeperMap_init_nodes (storage_ : StorageKeeperMap DataType)
    (attach create_missing_root_path : bool) : M unit :=
  if attach then checkTable false storage_
  else
    missing ← (if negb (String.eqb (root_path storage_) "/")
               then found ← ZooKeeper.exists_ (root_path storage_); mret (negb found)
               else mret false);
    (if missing : bool
     then
       if negb create_missing_root_path then throw (DBException BAD_ARGUMENTS)
       else
         emit (Logged LTrace "Creating root path");;
         ZooKeeper.createAncestors (root_path storage_);;
         ZooKeeper.createIfNotExists (root_path storage_) EmptyString
     else mret tt);;
    create_metadata 1000 storage_.

(** [write]: the table is validated, then the sink is built. *)
Definition write (storage_ : StorageKeeperMap DataType) : M (StorageKeeperMapSink DataType) :=
  checkTable true storage_;;
  lift (StorageKeeperMapSink_init storage_).

(** [truncate]: everything below the root goes, the metadata node and what
    is below it apart. *)
Definition truncate (storage_ : StorageKeeperMap DataType) : M unit :=
  checkTable true storage_;;
  base ← lift (getBaseName (metadata_path storage_));
  ZooKeeper.tryRemoveChildrenRecursive (root_path storage_) true
    {| zkutil.keep_path := base; zkutil.remove_subtree := false |};;
  mret tt.

(** Modelled from the spec: [serializeKeysToRawString] on a key column
    ([Storages/KVStorageUtils.h], not among the sources) gives the binary
    serialization of every value of the column, one string per value. *)
Definition serializeKeysToRawString_column (column : list Field) (type : DataType)
    : list string :=
  map (serializeBinary type) column.

(** [getByKeys]: [keys] are the key columns of the request, each with its
    values and its type. *)
Definition getByKeys (storage_ : StorageKeeperMap DataType)
    (keys : list (list Field * DataType)) : M (list (Row Field) * option (list Z)) :=
  match keys with
  | [(column, type)] =>
      let raw_keys := serializeKeysToRawString_column column type in
      if negb (length raw_keys =? length column)%nat
      then throw (DBException LOGICAL_ERROR)
      else getBySerializedKeys storage_ raw_keys true
  | _ => throw (DBException LOGICAL_ERROR)
  end.

End EngineMore.

(** [StorageKeeperMap::drop] has the name of the list function; it is kept
    in a module. *)
Module Storage.

Section Drop.

Context {DataType Field : Type} `{Serialization DataType Field}.

(** [drop]: the table's marker goes; the table that removes the last marker
    turns the tables directory into the dropped marker with its lock and
    reclaims the nodes. [dropTable] marks the lock holder as removed exactly
    when it returns [true]. *)
Definition drop (storage_ : StorageKeeperMap DataType) : M unit :=
  checkTable true storage_;;
  ZooKeeper.remove (table_path storage_);;
  remaining ← zkutil.getChildren (tables_path storage_);
  match remaining with
  | _ :: _ => mret tt
  | [] =>
      let ops := [RemoveRequest (tables_path storage_);
                  CreateRequest (dropped_path storage_) EmptyString Persistent;
                  CreateRequest (dropped_lock_path storage_) EmptyString Ephemeral] in
      code ← zkutil.tryMulti ops;
      match code with
      | ZNONODE | ZNODEEXISTS =>
          emit (Logged LInfo "Metadata is being removed by another table")
      | ZNOTEMPTY =>
          emit (Logged LWarning "Another table is using the same path, metadata will not be deleted")
      | _ =>
          zkutil.check code;;
          EphemeralNodeHolder.scope (dropped_lock_path storage_)
            (dropTable storage_ (dropped_lock_path storage_));;
          mret tt
      end
  end.

End Drop.

End Storage.

(** ** More notions used in the statements *)

(** The state after the given calls were sent and recorded. *)
Definition record_calls (calls : list Call) (σ : State) : State :=
  foldl (λ s c, add_event (Called c) s) σ calls.

(** The tree after [createIfNotExists]: a node that is there stays as it
    is. *)
Definition create_if_absent (path data : string) (n : gmap string string)
    : gmap string string :=
  match n !! path with
  | Some _ => n
  | None => <[path := data]> n
  end.

(** The tree [n'] is the tree [n] without the nodes below [root]. *)
Definition cleared (root : string) (n n' : gmap string string) : Prop :=
  ∀ p, n' !! p = if zkutil.below root p then None else n !! p.

Section VocabularyMore.

Context {DataType Field : Type} `{Serialization DataType Field}.

(** The reads that [onFinish] sends before it decides: the child count of
    the root when there is a limit, then one existence check per buffered
    key. *)
Definition onFinish_reads (table : StorageKeeperMap DataType) (values : gmap string string)
    : list Call :=
  (if (keysLimit table =? 0)%Z then [] else [CGet (rootKeeperPath table)])
  ++ map (λ kv : string * string, CExists (fullPathForKey table kv.1)) (map_to_list values).

(** The transaction that [onFinish] stages against the tree [n]. *)
Definition onFinish_requests (table : StorageKeeperMap DataType) (values : gmap string string)
    (n : gmap string string) : list Request :=
  map (staged_request table values n) (map fst (map_to_list values)).

(** The paths of the metadata nodes as the constructor lays them out under
    a root: the metadata node [base] below the root, the tables directory
    and the dropped marker below it, the table's marker [id] in the tables
    directory and the lock below the dropped marker. *)
Definition layout (table : StorageKeeperMap DataType) (base id : string) : Prop :=
  Str.is_empty base = false ∧ Str.contains "/" base = false ∧
  metadata_path table = root_path table +:+ "/" +:+ base ∧
  tables_path table = metadata_path table +:+ "/tables" ∧
  table_path table = tables_path table +:+ "/" +:+ id ∧
  dropped_path table = metadata_path table +:+ "/dropped" ∧
  dropped_lock_path table = dropped_path table +:+ "/lock".

(** The nodes below the metadata node are exactly those at [paths]. *)
Definition metadata_holds (table : StorageKeeperMap DataType) (paths : list string)
    (n : gmap string string) : Prop :=
  ∀ p, zkutil.below (metadata_path table) p = true → (is_Some (n !! p) ↔ p ∈ paths).

End VocabularyMore.
(** * Part II: lemmas and theorems *)

(** ** Strings *)

Lemma append_cons (x : ascii) (a b : string) : String x a +:+ b = String x (a +:+ b).
Proof. reflexivity. Qed.

Lemma append_nil_l (s : string) : EmptyString +:+ s = s.
Proof. reflexivity. Qed.

Lemma append_nil_r (s : string) : s +:+ EmptyString = s.
Proof.
  induction s as [|c s IH]; [reflexivity|].
  now rewrite append_cons, IH.
Qed.

Lemma append_assoc (a b c : string) : (a +:+ b) +:+ c = a +:+ (b +:+ c).
Proof.
  induction a as [|x a IH]; [reflexivity|].
  now rewrite !append_cons, IH.
Qed.

Lemma append_inv_head (a b c : string) : a +:+ b = a +:+ c → b = c.
Proof.
  induction a as [|x a IH]; [now rewrite !append_nil_l|].
  rewrite !append_cons. intros E. injection E. exact IH.
Qed.

Lemma contains_append (c : ascii) (a b : string) :
  Str.contains c (a +:+ b) = Str.contains c a || Str.contains c b.
Proof.
  induction a as [|x a IH]; [reflexivity|].
  rewrite append_cons. simpl. destruct (Ascii.eqb x c); [reflexivity | exact IH].
Qed.

Lemma strip_prefix_append (p s : string) : Str.strip_prefix p (p +:+ s) = Some s.
Proof.
  induction p as [|x p IH]; [reflexivity|].
  rewrite append_cons. simpl. now rewrite Ascii.eqb_refl.
Qed.

Lemma strip_prefix_Some (p s r : string) : Str.strip_prefix p s = Some r → s = p +:+ r.
Proof.
  revert s. induction p as [|x p IH]; intros s.
  - simpl. now intros [= ->].
  - destruct s as [|y s]; simpl; [discriminate|].
    destruct (Ascii.eqb_spec x y) as [->|]; [|discriminate].
    intros E. rewrite append_cons. f_equal. now apply IH.
Qed.

(** Induction three bytes at a time, the stride of the text encoding. *)
Lemma string_ind3 (P : string → Prop) :
  P EmptyString →
  (∀ a, P (String a EmptyString)) →
  (∀ a b, P (String a (String b EmptyString))) →
  (∀ a b c s, P s → P (String a (String b (String c s)))) →
  ∀ s, P s.
Proof.
  intros H0 H1 H2 H3.
  fix IH 1. intros [|a [|b [|c s]]];
    [exact H0 | apply H1 | apply H2 | apply H3, IH].
Qed.

(** ** The text encoding of keys *)

Lemma sextets_all (P : N → Prop) :
  List.Forall P Base64.sextets → ∀ n, (n < 64)%N → P n.
Proof.
  intros HP n Hn. eapply (proj1 (List.Forall_forall P Base64.sextets)); [exact HP|].
  unfold Base64.sextets. apply List.in_map_iff. exists (N.to_nat n).
  split; [apply N2Nat.id | apply List.in_seq; lia].
Qed.

Lemma sextet_of_char_of_sextet (url_encoding : bool) (n : N) :
  (n < 64)%N →
  Base64.sextet_of_char url_encoding (Base64.char_of_sextet url_encoding n) = Some n.
Proof.
  revert n. apply sextets_all.
  destruct url_encoding; vm_compute; repeat constructor.
Qed.

Lemma char_of_sextet_not_pad (url_encoding : bool) (n : N) :
  (n < 64)%N → Ascii.eqb (Base64.char_of_sextet url_encoding n) Base64.pad = false.
Proof.
  revert n. apply sextets_all.
  destruct url_encoding; vm_compute; repeat constructor.
Qed.

Lemma char_of_sextet_not_slash (n : N) :
  (n < 64)%N → Ascii.eqb (Base64.char_of_sextet true n) "/"%char = false.
Proof. revert n. apply sextets_all. vm_compute; repeat constructor. Qed.

Section SextetArithmetic.

Local Open Scope N_scope.
Local Ltac Zify.zify_post_hook ::= Z.to_euclidean_division_equations.

Variables n0 n1 n2 : N.
Hypothesis (B0 : n0 < 256) (B1 : n1 < 256) (B2 : n2 < 256).

Lemma sextet0_lt : Base64.sextet0 n0 < 64.
Proof using B0. clear B1 B2. unfold Base64.sextet0. lia. Qed.

Lemma sextet1_lt : Base64.sextet1 n0 n1 < 64.
Proof using B1. clear B0 B2. unfold Base64.sextet1. lia. Qed.

Lemma sextet2_lt : Base64.sextet2 n1 n2 < 64.
Proof using B2. clear B0 B1. unfold Base64.sextet2. lia. Qed.

Lemma sextet3_lt : Base64.sextet3 n2 < 64.
Proof using Type. clear B0 B1 B2. unfold Base64.sextet3. lia. Qed.

Lemma octet0_sextets : Base64.octet0 (Base64.sextet0 n0) (Base64.sextet1 n0 n1) = n0.
Proof using B1. clear B0 B2. unfold Base64.octet0, Base64.sextet0, Base64.sextet1. lia. Qed.

Lemma octet1_sextets : Base64.octet1 (Base64.sextet1 n0 n1) (Base64.sextet2 n1 n2) = n1.
Proof using B1 B2. clear B0. unfold Base64.octet1, Base64.sextet1, Base64.sextet2. lia. Qed.

Lemma octet2_sextets : Base64.octet2 (Base64.sextet2 n1 n2) (Base64.sextet3 n2) = n2.
Proof using B2. clear B0 B1. unfold Base64.octet2, Base64.sextet2, Base64.sextet3. lia. Qed.

End SextetArithmetic.

Lemma byte_lt (a : ascii) : (N_of_ascii a < 256)%N.
Proof. apply N_ascii_bounded. Qed.

Lemma zero_lt_256 : (0 < 256)%N.
Proof. reflexivity. Qed.

Create HintDb b64 discriminated.
#[local] Hint Resolve byte_lt zero_lt_256 sextet0_lt sextet1_lt sextet2_lt sextet3_lt : b64.

Ltac b64_step :=
  first
    [ rewrite sextet_of_char_of_sextet by auto with b64
    | rewrite char_of_sextet_not_pad by auto with b64
    | rewrite octet0_sextets by auto with b64
    | rewrite octet1_sextets by auto with b64
    | rewrite octet2_sextets by auto with b64
    | rewrite ascii_N_embedding ].

(** Decoding undoes encoding, for both alphabets. *)
Lemma base64Decode_base64Encode (url_encoding : bool) (s : string) :
  Base64.base64Decode (Base64.base64Encode s url_encoding) url_encoding = Some s.
Proof.
  induction s as [| a | a b | a b c s IH] using string_ind3.
  - reflexivity.
  - cbn [Base64.base64Encode Base64.base64Decode]. repeat b64_step. reflexivity.
  - cbn [Base64.base64Encode Base64.base64Decode]. repeat b64_step. reflexivity.
  - cbn [Base64.base64Encode Base64.base64Decode]. repeat b64_step.
    rewrite IH. reflexivity.
Qed.

Lemma base64Encode_inj (url_encoding : bool) (s t : string) :
  Base64.base64Encode s url_encoding = Base64.base64Encode t url_encoding → s = t.
Proof.
  intros E. apply (f_equal (λ x, Base64.base64Decode x url_encoding)) in E.
  rewrite !base64Decode_base64Encode in E. congruence.
Qed.

(** The URL-safe encoding never produces a path separator: an encoded key
    is a single path segment. *)
Lemma base64Encode_no_slash (s : string) :
  Str.contains "/"%char (Base64.base64Encode s true) = false.
Proof.
  induction s as [| a | a b | a b c s IH] using string_ind3;
    cbn [Base64.base64Encode Str.contains];
    repeat rewrite char_of_sextet_not_slash by auto with b64;
    try reflexivity.
  exact IH.
Qed.

(** ** Running the state monad *)

Lemma bind_Ok {A B : Type} (m : M A) (f : A → M B) (σ σ' : State) (a : A) :
  m σ = (Ok a, σ') → (m ≫= f) σ = f a σ'.
Proof. intros E. unfold mbind, M_bind. now rewrite E. Qed.

Lemma bind_Throw {A B : Type} (m : M A) (f : A → M B) (σ σ' : State) (e : Exception) :
  m σ = (Throw e, σ') → (m ≫= f) σ = (Throw e, σ').
Proof. intros E. unfold mbind, M_bind. now rewrite E. Qed.

(** [step_bind tac]: runs the first computation of a bind in the goal, [tac]
    proving what it returns. *)
Ltac step_bind tac := etransitivity; [eapply bind_Ok; tac|].

Tactic Notation "unfold_M" :=
  unfold mbind, M_bind, mret, M_ret, throw, try_catch, lift, emit,
    read_table_is_valid, write_table_is_valid.

Tactic Notation "unfold_M" "in" hyp(E) :=
  unfold mbind, M_bind, mret, M_ret, throw, try_catch, lift, emit,
    read_table_is_valid, write_table_is_valid in E.

(** Unfolds the monad and the service wrappers, leaving the transactions
    and the tree operations folded. *)
Ltac run_M :=
  cbv beta iota zeta delta
    [mbind M_bind mret M_ret throw try_catch lift emit
     read_table_is_valid write_table_is_valid
     zkutil.service zkutil.async zkutil.tryMulti zkutil.multi zkutil.get
     zkutil.getChildren zkutil.asyncExists zkutil.asyncTryGet
     zkutil.removeChildrenRecursive
     add_event set_nodes set_table_is_valid
     session nodes events table_is_valid fst snd].

Tactic Notation "run_M" "in" hyp(E) :=
  cbv beta iota zeta delta
    [mbind M_bind mret M_ret throw try_catch lift emit
     read_table_is_valid write_table_is_valid
     zkutil.service zkutil.async zkutil.tryMulti zkutil.multi zkutil.get
     zkutil.getChildren zkutil.asyncExists zkutil.asyncTryGet
     zkutil.removeChildrenRecursive
     add_event set_nodes set_table_is_valid
     session nodes events table_is_valid fst snd] in E.

(** ** The key codec round trip *)

Section KeyCodecFacts.

Context {DataType Field : Type} `{Serialization DataType Field}.

(** The buffers grow by appending: what a row adds does not depend on what
    the buffers held before. *)
Lemma serialize_row_buffers (header : list (string * DataType)) (row : Row Field)
    (idx key_pos : nat) (wb_key wb_value : string) :
  serialize_row header row idx key_pos wb_key wb_value =
    (wb_key +:+ (serialize_row header row idx key_pos EmptyString EmptyString).1,
     wb_value +:+ (serialize_row header row idx key_pos EmptyString EmptyString).2).
Proof.
  revert row idx wb_key wb_value.
  induction header as [|[n ty] header IH]; intros row idx wb_key wb_value.
  - simpl. now rewrite !append_nil_r.
  - destruct row as [|v row]; simpl; [now rewrite !append_nil_r|].
    destruct (idx =? key_pos)%nat.
    + rewrite (IH row (S idx) (wb_key +:+ _)), (IH row (S idx) (EmptyString +:+ _)).
      simpl. now rewrite append_assoc.
    + rewrite (IH row (S idx) _ (wb_value +:+ _)), (IH row (S idx) _ (EmptyString +:+ _)).
      simpl. now rewrite append_assoc.
Qed.

(** The key buffer of a row holds the serialization of its key column and
    nothing else. *)
Lemma serialize_row_key (header : list (string * DataType)) (row : Row Field)
    (idx key_pos : nat) (n : string) (ty : DataType) (k : Field) :
  (idx ≤ key_pos)%nat →
  header !! (key_pos - idx)%nat = Some (n, ty) →
  row !! (key_pos - idx)%nat = Some k →
  (serialize_row header row idx key_pos EmptyString EmptyString).1 = serializeBinary ty k.
Proof.
  revert row idx.
  induction header as [|[n' ty'] header IH]; intros row idx Hle Hh Hr; [discriminate|].
  destruct row as [|v row]; [discriminate|]. simpl.
  destruct (Nat.eqb_spec idx key_pos) as [->|Hne].
  - rewrite Nat.sub_diag in Hh, Hr. simpl in Hh, Hr.
    injection Hh as -> ->. injection Hr as ->.
    rewrite serialize_row_buffers. simpl.
    assert (Hnone : ∀ h r i w1 w2, (key_pos < i)%nat →
              (serialize_row h r i key_pos w1 w2).1 = w1).
    { clear. induction h as [|[? ?] h IHh]; intros r i w1 w2 Hlt; [reflexivity|].
      destruct r as [|? r]; [reflexivity|]. simpl.
      destruct (Nat.eqb_spec i key_pos); [lia|]. apply IHh. lia. }
    rewrite Hnone by lia. now rewrite append_nil_r.
  - replace (key_pos - idx)%nat with (S (key_pos - S idx)) in Hh, Hr by lia.
    simpl in Hh, Hr. rewrite serialize_row_buffers. cbn [fst].
    rewrite append_nil_l. apply IH; [lia | exact Hh | exact Hr].
Qed.

(** The node name under which [consume] stores a row is the encoded key of
    its key column. *)
Lemma consume_row_encodeKey (sink : StorageKeeperMapSink DataType) (row : Row Field)
    (n : string) (ty : DataType) (k : Field) :
  sample_block (storage sink) !! primary_key_pos sink = Some (n, ty) →
  row !! primary_key_pos sink = Some k →
  ∃ blob, new_values (consume_row sink row) = <[encodeKey ty k := blob]> (new_values sink).
Proof.
  intros Hh Hr. unfold consume_row, row_entry.
  pose proof (serialize_row_key (sample_block (storage sink)) row 0
                (primary_key_pos sink) n ty k) as Hk.
  rewrite Nat.sub_0_r in Hk. specialize (Hk (Nat.le_0_l _) Hh Hr).
  destruct (serialize_row _ row 0 _ _ _) as [wb_key wb_value] eqn:E.
  simpl in Hk. subst wb_key. exists wb_value. reflexivity.
Qed.

(** C2. For every legal key value [k] of the key column's type, decoding
    the node name produced by encoding [k] gives [k] back; hence two legal
    key values with the same node name are equal (the encoding is
    injective). Encoding is the binary serialization followed by the
    URL-safe text encoding, decoding undoes the two in reverse order. *)
Theorem decodeKey_encodeKey (key_type : DataType) (k : Field) :
  legal key_type k →
  decodeKey key_type (encodeKey key_type k) = Some k ∧
  ∀ k', legal key_type k' → encodeKey key_type k' = encodeKey key_type k → k' = k.
Proof.
  intros Hk.
  assert (Hround : ∀ v, legal key_type v → decodeKey key_type (encodeKey key_type v) = Some v).
  { intros v Hv. unfold decodeKey, encodeKey.
    rewrite base64Decode_base64Encode.
    specialize (Hv EmptyString). rewrite append_nil_r in Hv. now rewrite Hv. }
  split; [now apply Hround|].
  intros k' Hk' E.
  apply Hround in Hk'. rewrite E, (Hround k Hk) in Hk'. congruence.
Qed.

End KeyCodecFacts.

Lemma decodeKey_encodeKey_witness :
  legal (DataType:=unit) tt "a"%char ∧
  decodeKey tt (encodeKey tt "a"%char) = Some "a"%char.
Proof.
  assert (L : legal (DataType:=unit) tt "a"%char) by (intros rest; reflexivity).
  split; [exact L|].
  exact (proj1 (decodeKey_encodeKey (DataType:=unit) tt "a"%char L)).
Defined.

(** ** The capacity limit chosen at construction *)

Section Construction.

Context {DataType Field : Type} `{Serialization DataType Field}.

(** C9. When an operator-wide maximum is configured (non-zero) and the
    per-table limit exceeds it, the table that the constructor builds
    carries the operator maximum as its limit, and that is the value the
    write path reads through [keysLimit]. *)
Theorem StorageKeeperMap_init_caps_keys_limit
    (path_prefix : string) (has_uuid : bool) (metadata : list (string * DataType))
    (primary_key_ extracted_root_path extracted_name table_unique_id : string)
    (keys_limit_ config_keys_limit : Z) (σ σ' : State) (table : StorageKeeperMap DataType) :
  config_keys_limit ≠ 0%Z →
  (keys_limit_ > config_keys_limit)%Z →
  StorageKeeperMap_init path_prefix has_uuid metadata primary_key_ extracted_root_path
    extracted_name table_unique_id keys_limit_ config_keys_limit σ = (Ok table, σ') →
  keysLimit table = config_keys_limit.
Proof.
  intros Hconf Hgt. unfold StorageKeeperMap_init.
  destruct (Str.is_empty path_prefix); [unfold throw; discriminate|].
  destruct (negb has_uuid); [unfold throw; discriminate|].
  destruct (Str.is_empty extracted_root_path); [unfold throw; discriminate|].
  destruct (negb (Str.starts_with "/" extracted_root_path)); [unfold throw; discriminate|].
  assert (Hz : (config_keys_limit =? 0)%Z = false) by now apply Z.eqb_neq.
  assert (Hg : (keys_limit_ >? config_keys_limit)%Z = true) by (apply Z.gtb_lt; lia).
  rewrite Hz, Hg. cbn [negb andb]. unfold_M.
  intros [= <- _]. reflexivity.
Qed.

End Construction.

Lemma StorageKeeperMap_init_caps_keys_limit_witness :
  keysLimit (ByteColumns.table 3) = 3%Z.
Proof.
  refine ((StorageKeeperMap_init_caps_keys_limit
            "/keeper_map" true [("k", tt); ("v", tt)] "k" "/t" "default" "0001"
            5 3 (ByteColumns.state [] None)
            (add_event (Logged LWarning "Keys limit defined by argument is larger than the one defined by keeper_map_keys_limit config. Will use config defined value") (ByteColumns.state [] None))
            (ByteColumns.table 3) _ _ _)).
  - lia.
  - lia.
  - reflexivity.
Defined.

(** ** The validity check *)

Section Validity.

Context {DataType Field : Type} `{Serialization DataType Field}.

(** A cached validity value is handed back without a call to the service. *)
Lemma isTableValid_cached (table : StorageKeeperMap DataType) (σ : State) (v : bool) :
  table_is_valid σ = Some v → isTableValid table σ = (Ok (Some v), σ).
Proof.
  intros Hv. unfold isTableValid. unfold_M. now rewrite Hv.
Qed.

(** C7 (as amended). On a table handle without a cached validity value,
    the validity check sends one check transaction for the table marker.
    When the service answers, validity is whether the marker exists, and it
    is cached: the next call answers from the cache without a call. A
    connectivity (hardware) error is swallowed and logged and leaves the
    validity value unset (it is not cached, and nothing is reported as
    false). Any other coordination error, and any other [DB::Exception], is
    swallowed and logged and sets validity to false. *)
Theorem isTableValid_first_call (table : StorageKeeperMap DataType) (σ : State) :
  table_is_valid σ = None →
  let r := isTableValid table σ in
  let query := Called (CMulti [CheckRequest (table_path table)]) in
  (session σ = None →
     let v := bool_decide (is_Some (nodes σ !! table_path table)) in
     r.1 = Ok (Some v) ∧ table_is_valid r.2 = Some v ∧
     events r.2 = events σ ++ [query] ∧
     isTableValid table r.2 = (Ok (Some v), r.2)) ∧
  (∀ code, session σ = Some (CoordinationException code) →
     isHardwareError code = true →
     r.1 = Ok None ∧ table_is_valid r.2 = None ∧
     events r.2 = events σ ++ [query; ExceptionLogged (CoordinationException code)]) ∧
  (∀ code, session σ = Some (CoordinationException code) →
     isHardwareError code = false →
     r.1 = Ok (Some false) ∧ table_is_valid r.2 = Some false ∧
     events r.2 = events σ ++ [query; ExceptionLogged (CoordinationException code)]) ∧
  (∀ code, session σ = Some (DBException code) →
     r.1 = Ok (Some false) ∧ table_is_valid r.2 = Some false ∧
     events r.2 = events σ ++ [query; ExceptionLogged (DBException code)]).
Proof.
  intros Hnone r query.
  assert (Hr : r = isTableValid table σ) by reflexivity.
  unfold isTableValid in Hr. unfold_M in Hr. rewrite Hnone in Hr.
  unfold zkutil.tryMulti, zkutil.service in Hr. cbn [session add_event] in Hr.
  split; [|split; [|split]].
  - intros Hs v. rewrite Hs in Hr. cbn in Hr.
    assert (Hv : r = (Ok (Some v),
                      set_table_is_valid (Some v) (add_event query σ))).
    { subst v. destruct (nodes σ !! table_path table); rewrite Hr; reflexivity. }
    rewrite Hv. cbn [fst snd]. split; [reflexivity|]. split; [reflexivity|].
    split; [reflexivity|]. now apply isTableValid_cached.
  - intros code Hs Hh. rewrite Hs in Hr. cbn in Hr. rewrite Hh in Hr. cbn in Hr.
    rewrite Hr. cbn. rewrite ?Hnone. split; [reflexivity|]. split; [reflexivity|].
    now rewrite <- app_assoc.
  - intros code Hs Hh. rewrite Hs in Hr. cbn in Hr. rewrite Hh in Hr. cbn in Hr.
    rewrite Hr. cbn. rewrite ?Hnone. split; [reflexivity|]. split; [reflexivity|].
    now rewrite <- app_assoc.
  - intros code Hs. rewrite Hs in Hr. cbn in Hr.
    rewrite Hr. cbn. rewrite ?Hnone. split; [reflexivity|]. split; [reflexivity|].
    now rewrite <- app_assoc.
Qed.

End Validity.

Lemma isTableValid_first_call_witness :
  (isTableValid (ByteColumns.table 0)
     (ByteColumns.failing_state (CoordinationException ZCONNECTIONLOSS) None)).1 = Ok None.
Proof.
  destruct (isTableValid_first_call (ByteColumns.table 0)
              (ByteColumns.failing_state (CoordinationException ZCONNECTIONLOSS) None)
              eq_refl) as (_ & Hhardware & _).
  exact (proj1 (Hhardware ZCONNECTIONLOSS eq_refl eq_refl)).
Defined.

(** C7 as stated fails: after a connection loss during the check the
    validity value is not false, it is still unset. *)
Lemma isTableValid_connection_loss_not_false :
  isHardwareError ZCONNECTIONLOSS = true ∧
  table_is_valid
    (isTableValid (ByteColumns.table 0)
       (ByteColumns.failing_state (CoordinationException ZCONNECTIONLOSS) None)).2
  ≠ Some false.
Proof. split; [reflexivity|]. vm_compute. discriminate. Qed.

(** ** The reclaim step of the drop protocol *)

Lemma apply_request_remove (path : string) (n : gmap string string) :
  zkutil.apply_request (RemoveRequest path) n = (ZOK, delete path n) ∨
  zkutil.apply_request (RemoveRequest path) n = (ZNOTEMPTY, n) ∨
  zkutil.apply_request (RemoveRequest path) n = (ZNONODE, n).
Proof.
  unfold zkutil.apply_request.
  destruct (n !! path); [|now right; right].
  destruct (zkutil.children n path); [now left | now right; left].
Qed.

(** A transaction of three removals ends in one of three ways, and on
    success the three nodes are gone. *)
Lemma apply_requests_three_removals (a b c : string) (n : gmap string string) :
  let r := zkutil.apply_requests [RemoveRequest a; RemoveRequest b; RemoveRequest c] n in
  (r.1 = ZOK ∧ r.2 = delete c (delete b (delete a n))) ∨
  r.1 = ZNOTEMPTY ∨
  r.1 = ZNONODE.
Proof.
  cbn [zkutil.apply_requests].
  destruct (apply_request_remove a n) as [-> | [-> | ->]];
    [|right; left; reflexivity | right; right; reflexivity].
  destruct (apply_request_remove b (delete a n)) as [-> | [-> | ->]];
    [|right; left; reflexivity | right; right; reflexivity].
  destruct (apply_request_remove c (delete b (delete a n))) as [-> | [-> | ->]];
    [left; split; reflexivity | right; left; reflexivity | right; right; reflexivity].
Qed.

Section Reclaim.

Context {DataType Field : Type} `{Serialization DataType Field}.

(** C8. The reclaim procedure first removes every node below the root but
    the metadata subtree, then removes the dropped lock, the dropped marker
    and the metadata directory in one transaction. On a reachable service
    that transaction has exactly three outcomes: it succeeds, and the
    procedure returns [true] with the three nodes gone; it reports a node
    that is not empty, and the procedure logs an error and returns [false]
    without raising, leaving the remnants; or it reports a missing node, and
    the procedure raises a logic error (it neither returns nor retries). *)
Theorem dropTable_outcomes (table : StorageKeeperMap DataType) (metadata_drop_lock : string)
    (σ : State) (base : string) :
  session σ = None →
  getBaseName (metadata_path table) = Ok base →
  let swept :=
    zkutil.sweep (root_path table)
      {| zkutil.keep_path := base; zkutil.remove_subtree := false |} (nodes σ) in
  let ops := [RemoveRequest metadata_drop_lock;
              RemoveRequest (dropped_path table);
              RemoveRequest (metadata_path table)] in
  let code := (zkutil.apply_requests ops swept).1 in
  let r := dropTable table metadata_drop_lock σ in
  (code = ZOK ∨ code = ZNOTEMPTY ∨ code = ZNONODE) ∧
  (code = ZOK →
     r.1 = Ok true ∧
     nodes r.2 = delete (metadata_path table)
                   (delete (dropped_path table) (delete metadata_drop_lock swept))) ∧
  (code = ZNOTEMPTY →
     r.1 = Ok false ∧ nodes r.2 = swept ∧
     last (events r.2) =
       Some (Logged LError "Metadata was not completely removed from ZooKeeper")) ∧
  (code = ZNONODE →
     r.1 = Throw (DBException LOGICAL_ERROR) ∧ nodes r.2 = swept).
Proof.
  intros Hs Hbase swept ops code r.
  destruct σ as [n s v ev]. cbn [session] in Hs. subst s. cbn [nodes] in swept.
  pose proof (apply_requests_three_removals metadata_drop_lock (dropped_path table)
                (metadata_path table) swept) as Hcases.
  cbv zeta in Hcases. fold ops in Hcases. fold code in Hcases.
  subst r. unfold dropTable. rewrite Hbase. run_M.
  fold swept. fold ops. subst code.
  destruct (zkutil.apply_requests ops swept) as [c n'].
  cbn [fst snd] in *.
  destruct Hcases as [[-> ->] | [-> | ->]].
  - split; [now left|]. repeat split; intros; try discriminate; try reflexivity.
  - split; [now right; left|]. repeat split; intros; try discriminate; try reflexivity.
    now rewrite last_snoc.
  - split; [now right; right|]. repeat split; intros; try discriminate; try reflexivity.
Qed.

End Reclaim.

Lemma dropTable_outcomes_witness :
  (dropTable (ByteColumns.table 0) "/keeper_map/t/ch_metadata/dropped/lock"
     (mkState (ByteColumns.dropped_tree [("YQ==", "q")]) None (Some true) [])).1 = Ok true.
Proof.
  destruct (dropTable_outcomes (ByteColumns.table 0)
              "/keeper_map/t/ch_metadata/dropped/lock"
              (mkState (ByteColumns.dropped_tree [("YQ==", "q")]) None (Some true) [])
              "ch_metadata" eq_refl eq_refl) as (_ & Hsuccess & _).
  apply Hsuccess. vm_compute. reflexivity.
Defined.

(** ** The slices of the read path *)

(** Consecutive slices of a list, cut at the points [b 0 ≤ b 1 ≤ ...],
    put together again. *)
Lemma concat_slices {A : Type} (l : list A) (b : nat → nat) (T : nat) :
  (∀ t, (t < T)%nat → (b t ≤ b (S t))%nat) →
  concat (map (λ t, take (b (S t) - b t) (drop (b t) l)) (seq 0 T))
  = take (b T - b 0%nat) (drop (b 0%nat) l).
Proof.
  induction T as [|T IH]; intros Hmono.
  - rewrite Nat.sub_diag. reflexivity.
  - rewrite seq_S, map_app, concat_app. cbn [map concat Nat.add].
    rewrite app_nil_r, IH by (intros; apply Hmono; lia).
    assert (Hb : (b 0%nat ≤ b T)%nat).
    { clear -Hmono. induction T as [|T IHT]; [lia|].
      etrans; [apply IHT; intros; apply Hmono; lia | apply Hmono; lia]. }
    pose proof (Hmono T ltac:(lia)) as HT.
    replace (drop (b T) l) with (drop (b T - b 0%nat) (drop (b 0%nat) l))
      by (rewrite drop_drop; f_equal; lia).
    rewrite take_take_drop. f_equal. lia.
Qed.

(** The cut points [n * t / k] of [process_keys]: they grow with [t], and two
    neighbours are [n / k] or [n / k + 1] apart. *)
Lemma cut_points (n k t : Z) :
  (0 ≤ n)%Z → (0 < k)%Z → (0 ≤ t)%Z →
  let lo := (n * t / k)%Z in
  let hi := (n * (t + 1) / k)%Z in
  (0 ≤ lo ≤ hi)%Z ∧ (hi - lo = n / k ∨ hi - lo = n / k + 1)%Z.
Proof.
  intros Hn Hk Ht lo hi. subst lo hi.
  replace (n * (t + 1))%Z with (n * t + n)%Z by lia.
  pose proof (Z.div_mod n k ltac:(lia)) as Hdm.
  pose proof (Z.mod_pos_bound n k Hk) as Hr.
  set (a := (n * t)%Z). assert (Ha : (0 ≤ a)%Z) by (subst a; nia).
  replace (a + n)%Z with ((a + n mod k) + (n / k) * k)%Z by lia.
  rewrite Z.div_add by lia.
  assert (H1 : (a / k ≤ (a + n mod k) / k)%Z) by (apply Z.div_le_mono; lia).
  assert (H2 : ((a + n mod k) / k ≤ (a + k) / k)%Z) by (apply Z.div_le_mono; lia).
  replace (a + k)%Z with (a + 1 * k)%Z in H2 by lia.
  rewrite Z.div_add in H2 by lia.
  assert (H0 : (0 ≤ a / k)%Z) by (apply Z.div_pos; lia).
  assert (Hq : (0 ≤ n / k)%Z) by (apply Z.div_pos; lia).
  split; lia.
Qed.

Lemma wrap64_small (z : Z) : (0 ≤ z < 2 ^ 64)%Z → wrap64 z = z.
Proof. intros Hz. unfold wrap64. now apply Z.mod_small. Qed.

Section Slices.

Context {DataType K : Type} `{Less K, EqDecision K}.

Lemma process_keys_sources (table : StorageKeeperMap DataType) (max_block_size_ : nat)
    (num_streams : Z) (keys : list K) :
  let sorted := unique (sort keys) in
  let k := Z.min num_streams (Z.of_nat (length sorted)) in
  (0 < length sorted)%nat →
  (1 ≤ num_streams < 2 ^ 32)%Z →
  (Z.of_nat (length sorted) < 2 ^ 32)%Z →
  process_keys table max_block_size_ num_streams keys
  = map (source_at table max_block_size_ sorted k) (seq 0 (Z.to_nat k)).
Proof.
  intros sorted k Hpos Hstreams Hkeys.
  destruct keys as [|x keys]; [exfalso; revert Hpos; vm_compute; lia|].
  unfold process_keys. fold sorted. fold k.
  apply map_ext_in. intros t Ht. apply in_seq in Ht.
  assert (Hk : (1 ≤ k ≤ Z.of_nat (length sorted))%Z) by lia.
  assert (Ht' : (0 ≤ Z.of_nat t < k)%Z) by lia.
  unfold source_at.
  rewrite (wrap64_small (Z.of_nat t + 1)) by lia.
  rewrite !wrap64_small; [reflexivity | nia | nia].
Qed.

(** The cut points of thread [t] among [k] threads over [n] keys. *)
Lemma cut_bounds (n : nat) (k : Z) (t : nat) :
  (1 ≤ k ≤ Z.of_nat n)%Z →
  (t < Z.to_nat k)%nat →
  let lo := (Z.of_nat n * Z.of_nat t / k)%Z in
  let hi := (Z.of_nat n * (Z.of_nat t + 1) / k)%Z in
  (0 ≤ lo ≤ hi)%Z ∧ (hi ≤ Z.of_nat n)%Z ∧
  (hi - lo = Z.of_nat n / k ∨ hi - lo = Z.of_nat n / k + 1)%Z.
Proof.
  intros Hk Ht lo hi.
  destruct (cut_points (Z.of_nat n) k (Z.of_nat t)) as [Hle Hsize]; [lia..|].
  split; [exact Hle|]. split; [|exact Hsize].
  subst hi. transitivity (Z.of_nat n * k / k)%Z.
  - apply Z.div_le_mono; [lia | nia].
  - rewrite Z.div_mul by lia. lia.
Qed.

(** The slices of the sources, one after the other, are the whole
    sequence. *)
Lemma source_at_cover (table : StorageKeeperMap DataType) (max_block_size_ : nat)
    (sorted : list K) (k : Z) :
  (1 ≤ k ≤ Z.of_nat (length sorted))%Z →
  concat (map slice (map (source_at table max_block_size_ sorted k) (seq 0 (Z.to_nat k))))
  = sorted.
Proof.
  intros Hk. set (n := length sorted) in *.
  rewrite map_map.
  rewrite (map_ext_in _ (λ t, take (Z.to_nat (Z.of_nat n * Z.of_nat (S t) / k)
                                    - Z.to_nat (Z.of_nat n * Z.of_nat t / k))
                                   (drop (Z.to_nat (Z.of_nat n * Z.of_nat t / k)) sorted))).
  - rewrite (concat_slices sorted (λ t, Z.to_nat (Z.of_nat n * Z.of_nat t / k))).
    + cbn [Z.of_nat]. rewrite Z.mul_0_r, Zdiv_0_l. cbn [Z.to_nat drop].
      rewrite Nat.sub_0_r, Z2Nat.id by lia.
      rewrite Z.div_mul by lia. rewrite Nat2Z.id. apply firstn_all.
    + intros t Ht. destruct (cut_bounds n k t Hk Ht) as (Hlo & _ & _).
      rewrite Nat2Z.inj_succ, <- Z.add_1_r. lia.
  - intros t Ht. apply in_seq in Ht.
    unfold slice, source_at. cbn [container it end_]. fold n.
    now rewrite Nat2Z.inj_succ, <- Z.add_1_r.
Qed.

(** C4. For a read over a key set whose sorted, deduplicated sequence has
    [n > 0] keys, with a requested parallelism of at least one stream (an
    [unsigned]) and a key count within the 32 bits that the code asserts,
    the read path creates exactly [min(P, n)] sources; source [t] covers
    the positions from [n * t / min(P, n)] up to, not including,
    [n * (t + 1) / min(P, n)] of that sequence; the sizes of two slices
    differ by at most one; and the slices, put one after the other, are the
    sequence itself: they are disjoint and every key is covered once. *)
Theorem process_keys_slices (table : StorageKeeperMap DataType) (max_block_size_ : nat)
    (num_streams : Z) (keys : list K) :
  let sorted := unique (sort keys) in
  let n := length sorted in
  let k := Z.min num_streams (Z.of_nat n) in
  let sources := process_keys table max_block_size_ num_streams keys in
  (0 < n)%nat →
  (1 ≤ num_streams < 2 ^ 32)%Z →
  (Z.of_nat n < 2 ^ 32)%Z →
  Z.of_nat (length sources) = k ∧
  (∀ t source, sources !! t = Some source →
     container source = sorted ∧
     Z.of_nat (it source) = (Z.of_nat n * Z.of_nat t / k)%Z ∧
     Z.of_nat (end_ source) = (Z.of_nat n * (Z.of_nat t + 1) / k)%Z ∧
     (it source ≤ end_ source ≤ n)%nat ∧
     (Z.of_nat (length (slice source)) = Z.of_nat n / k ∨
      Z.of_nat (length (slice source)) = Z.of_nat n / k + 1)%Z) ∧
  concat (map slice sources) = sorted.
Proof.
  intros sorted n k sources Hpos Hstreams Hkeys.
  assert (Hk : (1 ≤ k ≤ Z.of_nat n)%Z) by lia.
  assert (Hsources : sources = map (source_at table max_block_size_ sorted k)
                                   (seq 0 (Z.to_nat k)))
    by now apply process_keys_sources.
  rewrite Hsources. split; [|split].
  - rewrite length_map, length_seq. lia.
  - intros t source Hlookup.
    change (map ?f ?l) with (f <$> l) in Hlookup.
    rewrite list_lookup_fmap in Hlookup.
    destruct (seq 0 (Z.to_nat k) !! t) as [t'|] eqn:Hseq; [|discriminate].
    apply lookup_seq in Hseq as [-> Ht]. cbn in Hlookup. injection Hlookup as <-.
    destruct (cut_bounds n k t Hk Ht) as (Hlo & Hhi & Hsize).
    unfold slice, source_at. cbn [container it end_]. fold n.
    split; [reflexivity|]. split; [lia|]. split; [lia|]. split; [lia|].
    rewrite length_take, length_drop. fold n. lia.
  - now apply source_at_cover.
Qed.

End Slices.

Lemma process_keys_slices_witness :
  concat (map slice (process_keys (ByteColumns.table 0) 2 2 ["c"; "a"; "b"; "a"]))
  = ["a"; "b"; "c"].
Proof.
  refine (proj2 (proj2 (process_keys_slices (ByteColumns.table 0) 2 2
                          ["c"; "a"; "b"; "a"] _ _ _))).
  - vm_compute. lia.
  - lia.
  - vm_compute. reflexivity.
Defined.

(** ** Fetching by keys *)

Lemma same_service_refl (σ : State) : same_service σ σ.
Proof. repeat split. Qed.

Lemma same_service_trans (σ1 σ2 σ3 : State) :
  same_service σ1 σ2 → same_service σ2 σ3 → same_service σ1 σ3.
Proof. intros (? & ? & ?) (? & ? & ?). repeat split; congruence. Qed.

Lemma asyncTryGet_connected (path : string) (σ : State) :
  session σ = None →
  zkutil.asyncTryGet path σ
  = (Ok (answer_of (nodes σ) path), add_event (Called (CTryGet path)) σ).
Proof.
  intros Hs. unfold zkutil.asyncTryGet, zkutil.async, answer_of.
  cbn [session add_event nodes]. rewrite Hs.
  destruct (nodes σ !! path); reflexivity.
Qed.

Lemma same_service_add_event (ev : Event) (σ : State) : same_service σ (add_event ev σ).
Proof. repeat split. Qed.

Section Fetch.

Context {DataType Field : Type} `{Serialization DataType Field}.

Lemma request_values_slots (table : StorageKeeperMap DataType) (keys : list string)
    (σ : State) :
  session σ = None →
  ∃ σ', request_values table keys σ = (Ok (map (slot_of table (nodes σ)) keys), σ')
        ∧ same_service σ σ'.
Proof.
  intros Hs. revert σ Hs.
  induction keys as [|key keys IH]; intros σ Hs.
  - exists σ. split; [reflexivity | apply same_service_refl].
  - unfold request_values in *. cbn [for_each map]. unfold slot_of at 1.
    destruct (String.eqb (fullPathForKey table key) (metadata_path table)).
    + destruct (IH σ Hs) as (σ' & Hrun & Hsame).
      exists σ'. split; [|exact Hsame].
      erewrite bind_Ok; [|reflexivity].
      erewrite bind_Ok; [reflexivity | exact Hrun].
    + destruct (IH (add_event (Called (CTryGet (fullPathForKey table key))) σ) Hs)
        as (σ' & Hrun & Hsame).
      exists σ'. split.
      * erewrite bind_Ok;
          [|erewrite bind_Ok; [reflexivity | now apply asyncTryGet_connected]].
        erewrite bind_Ok; [reflexivity | exact Hrun].
      * eapply same_service_trans; [apply same_service_add_event | exact Hsame].
Qed.

Lemma slot_of_data_keys (table : StorageKeeperMap DataType) (n : gmap string string)
    (keys : list string) :
  Forall (λ key, fullPathForKey table key ≠ metadata_path table) keys →
  map (slot_of table n) keys
  = map (λ key, Some (answer_of n (fullPathForKey table key))) keys.
Proof.
  intros Hkeys. apply map_ext_in. intros key Hin.
  apply list_elem_of_In in Hin. rewrite Forall_forall in Hkeys.
  unfold slot_of. destruct (String.eqb_spec (fullPathForKey table key) (metadata_path table));
    [now apply Hkeys in Hin | reflexivity].
Qed.

Lemma collect_values_with_null_map (table : StorageKeeperMap DataType) (key_pos : nat)
    (n : gmap string string) (keys : list string) :
  Forall (decodable table key_pos n) keys →
  ∀ (i : nat) (columns : list (Row Field)) (filled : list Z),
    length filled = i →
    ∃ rows,
      Forall2 (λ key row, contribution table key_pos n key = Some row) keys rows ∧
      collect_values table key_pos true i keys
        (map (λ key, Some (answer_of n (fullPathForKey table key))) keys)
        columns (filled ++ replicate (length keys) 1%Z)
      = Ok (columns ++ rows, filled ++ map (null_map_entry table n) keys).
Proof.
  induction 1 as [|key keys Hkey _ IH]; intros i columns filled Hlen.
  - exists []. split; [constructor|]. cbn. now rewrite !app_nil_r.
  - cbn [map collect_values answer_of ready_in_time value negb length replicate].
    unfold contribution at 1, null_map_entry at 1. unfold decodable in Hkey.
    destruct (n !! fullPathForKey table key) as [payload|] eqn:Hnode; cbn [error data].
    + destruct (Hkey payload eq_refl) as [row Hrow]. rewrite Hrow.
      destruct (IH (S i) (columns ++ [row]) (filled ++ [1%Z])) as (rows & Hrows & Hrun).
      { rewrite length_app. cbn. lia. }
      exists (row :: rows). split.
      * constructor; [|exact Hrows]. unfold contribution. now rewrite Hnode.
      * rewrite <- !app_assoc in Hrun. exact Hrun.
    + destruct (IH (S i) (columns ++ [default_row (sample_block table)])
                  (filled ++ [0%Z])) as (rows & Hrows & Hrun).
      { rewrite length_app. cbn. lia. }
      exists (default_row (sample_block table) :: rows). split.
      * constructor; [|exact Hrows]. unfold contribution. now rewrite Hnode.
      * rewrite insert_app_r_alt by lia. rewrite Hlen, Nat.sub_diag. cbn [insert list_insert].
        rewrite <- !app_assoc in Hrun. exact Hrun.
Qed.

Lemma collect_values_without_null_map (table : StorageKeeperMap DataType) (key_pos : nat)
    (n : gmap string string) (keys : list string) :
  Forall (decodable table key_pos n) keys →
  ∀ (i : nat) (columns : list (Row Field)) (null_map : list Z),
    collect_values table key_pos false i keys
      (map (λ key, Some (answer_of n (fullPathForKey table key))) keys)
      columns null_map
    = Ok (columns ++ omap (found_row table key_pos n) keys, null_map).
Proof.
  induction 1 as [|key keys Hkey _ IH]; intros i columns null_map.
  - cbn. now rewrite app_nil_r.
  - cbn [map collect_values answer_of ready_in_time value negb].
    unfold decodable in Hkey.
    destruct (n !! fullPathForKey table key) as [payload|] eqn:Hnode; cbn [error data].
    + destruct (Hkey payload eq_refl) as [row Hrow]. rewrite Hrow.
      assert (Hfound : found_row table key_pos n key = Some row)
        by (unfold found_row; now rewrite Hnode).
      cbn [omap list_omap]. rewrite Hfound.
      rewrite IH, <- app_assoc. reflexivity.
    + assert (Hfound : found_row table key_pos n key = None)
        by (unfold found_row; now rewrite Hnode).
      cbn [omap list_omap]. rewrite Hfound. apply IH.
Qed.

Lemma getPositionByName_header (header : list (string * DataType)) (name : string) (pos : nat) :
  getPositionByName header name = Ok pos → header ≠ [].
Proof. destruct header; [discriminate | discriminate]. Qed.

(** One fetch on a reachable service: the chunk is what the second loop
    collects from the answers, and the state changes in its recorded events
    only. *)
Lemma getBySerializedKeys_connected (table : StorageKeeperMap DataType) (keys : list string)
    (with_null_map : bool) (σ : State) (key_pos : nat)
    (rows : list (Row Field)) (null_map : list Z) :
  session σ = None →
  getPositionByName (sample_block table) (primary_key table) = Ok key_pos →
  collect_values table key_pos with_null_map 0 keys
    (map (slot_of table (nodes σ)) keys) []
    (if with_null_map then replicate (length keys) 1%Z else [])
  = Ok (rows, null_map) →
  ∃ σ', getBySerializedKeys table keys with_null_map σ
          = (Ok (rows, if with_null_map then Some null_map else None), σ')
        ∧ same_service σ σ'.
Proof.
  intros Hs Hpos Hcollect.
  destruct (request_values_slots table keys σ Hs) as (σ' & Hrequest & Hsame).
  exists σ'. split; [|exact Hsame].
  unfold getBySerializedKeys. rewrite Hpos.
  erewrite bind_Ok; [|reflexivity].
  erewrite bind_Ok; [|exact Hrequest].
  rewrite Hcollect.
  erewrite bind_Ok; [|reflexivity].
  apply getPositionByName_header in Hpos.
  destruct (sample_block table); [contradiction | reflexivity].
Qed.

(** C6 (as amended). A fetch by keys on a reachable service, over keys none
    of which names the metadata node and whose nodes decode. With a null
    map: every key contributes one row, in the order of the keys; a key
    with a node contributes the decoded row of its node and its null-map
    entry is 1 (the value every entry starts with); a key without a node
    contributes the row of column defaults and its null-map entry is 0.
    Without a null map: the rows are those of the keys that have a node,
    keys without a node contribute no row. *)
Theorem getBySerializedKeys_rows_and_null_map (table : StorageKeeperMap DataType)
    (keys : list string) (σ : State) (key_pos : nat) :
  session σ = None →
  getPositionByName (sample_block table) (primary_key table) = Ok key_pos →
  Forall (λ key, fullPathForKey table key ≠ metadata_path table) keys →
  Forall (decodable table key_pos (nodes σ)) keys →
  (∃ rows null_map,
     (getBySerializedKeys table keys true σ).1 = Ok (rows, Some null_map) ∧
     length rows = length keys ∧ length null_map = length keys ∧
     ∀ i key, keys !! i = Some key →
       match nodes σ !! fullPathForKey table key with
       | Some payload =>
           rows !! i = decode_node table key_pos key payload ∧
           null_map !! i = Some 1%Z
       | None =>
           rows !! i = Some (default_row (sample_block table)) ∧
           null_map !! i = Some 0%Z
       end) ∧
  (getBySerializedKeys table keys false σ).1
  = Ok (omap (found_row table key_pos (nodes σ)) keys, None).
Proof.
  intros Hs Hpos Hkeys Hdecode. split.
  - destruct (collect_values_with_null_map table key_pos (nodes σ) keys Hdecode
                0 [] [] eq_refl) as (rows & Hrows & Hcollect).
    cbn [app] in Hcollect. rewrite <- slot_of_data_keys in Hcollect by exact Hkeys.
    destruct (getBySerializedKeys_connected table keys true σ key_pos rows
                (map (null_map_entry table (nodes σ)) keys) Hs Hpos Hcollect)
      as (σ' & Hrun & _).
    exists rows, (map (null_map_entry table (nodes σ)) keys).
    rewrite Hrun. split; [reflexivity|].
    split; [symmetry; eapply Forall2_length; exact Hrows|].
    split; [apply length_map|].
    intros i key Hi.
    destruct (Forall2_lookup_l _ _ _ _ _ Hrows Hi) as (row & Hrow & Hcontribution).
    change (map ?f ?l) with (f <$> l). rewrite list_lookup_fmap, Hi. cbn [fmap option_fmap option_map].
    unfold contribution in Hcontribution. unfold null_map_entry.
    destruct (nodes σ !! fullPathForKey table key) as [payload|].
    + split; [congruence | reflexivity].
    + split; [congruence | reflexivity].
  - pose proof (collect_values_without_null_map table key_pos (nodes σ) keys Hdecode
                  0 [] []) as Hcollect.
    cbn [app] in Hcollect. rewrite <- slot_of_data_keys in Hcollect by exact Hkeys.
    destruct (getBySerializedKeys_connected table keys false σ key_pos _ _
                Hs Hpos Hcollect) as (σ' & Hrun & _).
    rewrite Hrun. reflexivity.
Qed.

End Fetch.

Lemma getBySerializedKeys_rows_and_null_map_witness :
  (getBySerializedKeys (ByteColumns.table 0) ["YQ=="; "Yg=="] false
     (ByteColumns.state [("YQ==", "q")] (Some true))).1
  = Ok ([["a"%char; "q"%char]], None).
Proof.
  refine (proj2 (getBySerializedKeys_rows_and_null_map (ByteColumns.table 0)
                   ["YQ=="; "Yg=="] (ByteColumns.state [("YQ==", "q")] (Some true)) 0
                   eq_refl eq_refl _ _)).
  - repeat constructor; vm_compute; discriminate.
  - repeat constructor; intros payload; vm_compute; intros [= <-]; eexists; reflexivity.
Defined.

(** C6 as stated fails on the polarity of the null map: the key that
    exists gets the entry 1, the key that is missing gets the entry 0. *)
Lemma getBySerializedKeys_null_map_polarity :
  (getBySerializedKeys (ByteColumns.table 0) ["YQ=="; "Yg=="] true
     (ByteColumns.state [("YQ==", "q")] (Some true))).1
  = Ok ([["a"%char; "q"%char]; [Ascii.zero; Ascii.zero]], Some [1%Z; 0%Z])
  ∧
  (getBySerializedKeys (ByteColumns.table 0) ["YQ=="; "Yg=="] true
     (ByteColumns.state [("YQ==", "q")] (Some true))).1
  ≠ Ok ([["a"%char; "q"%char]; [Ascii.zero; Ascii.zero]], Some [0%Z; 1%Z]).
Proof. split; [vm_compute; reflexivity | vm_compute; discriminate]. Qed.

(** ** The write path *)

Lemma get_connected (path payload : string) (σ : State) :
  session σ = None →
  nodes σ !! path = Some payload →
  zkutil.get path σ
  = (Ok (payload, {| numChildren := Z.of_nat (length (zkutil.children (nodes σ) path)) |}),
     add_event (Called (CGet path)) σ).
Proof.
  intros Hs Hnode. unfold zkutil.get, zkutil.service.
  cbn [session add_event nodes]. rewrite Hs, Hnode. now destruct σ.
Qed.

Lemma get_missing (path : string) (σ : State) :
  session σ = None →
  nodes σ !! path = None →
  zkutil.get path σ
  = (Throw (CoordinationException ZNONODE), add_event (Called (CGet path)) σ).
Proof.
  intros Hs Hnode. unfold zkutil.get, zkutil.service.
  cbn [session add_event nodes]. rewrite Hs, Hnode. now destruct σ.
Qed.

Lemma asyncExists_connected (path : string) (σ : State) :
  session σ = None →
  zkutil.asyncExists path σ
  = (Ok (exists_answer (nodes σ) path), add_event (Called (CExists path)) σ).
Proof.
  intros Hs. unfold zkutil.asyncExists, zkutil.async, exists_answer.
  cbn [session add_event nodes]. rewrite Hs.
  destruct (nodes σ !! path); reflexivity.
Qed.

Lemma multi_connected (requests : list Request) (σ : State) (n' : gmap string string) :
  session σ = None →
  zkutil.apply_requests requests (nodes σ) = (ZOK, n') →
  zkutil.multi requests σ
  = (Ok tt, set_nodes n' (add_event (Called (CMulti requests)) σ)).
Proof.
  intros Hs Happly. unfold zkutil.multi, zkutil.tryMulti, zkutil.service.
  unfold mbind, M_bind. cbn [session add_event nodes]. rewrite Hs, Happly. reflexivity.
Qed.

Lemma multi_broken (requests : list Request) (σ : State) (e : Exception) :
  session σ = Some e →
  zkutil.multi requests σ = (Throw e, add_event (Called (CMulti requests)) σ).
Proof.
  intros Hs. unfold zkutil.multi, zkutil.tryMulti, zkutil.service.
  unfold mbind, M_bind. cbn [session add_event nodes]. now rewrite Hs.
Qed.

(** A transaction on a reachable service: all requests are applied, or the
    code of the first one that fails is thrown and the tree stays. *)
Lemma multi_run (requests : list Request) (σ : State) :
  session σ = None →
  zkutil.multi requests σ
  = match zkutil.apply_requests requests (nodes σ) with
    | (ZOK, n') => (Ok tt, set_nodes n' (add_event (Called (CMulti requests)) σ))
    | (code, _) =>
        (Throw (CoordinationException code), add_event (Called (CMulti requests)) σ)
    end.
Proof.
  intros Hs. unfold zkutil.multi, zkutil.tryMulti, zkutil.service.
  unfold mbind, M_bind. cbn [session add_event nodes]. rewrite Hs.
  destruct (zkutil.apply_requests requests (nodes σ)) as [[] n']; reflexivity.
Qed.

(** *** The parent of a node *)

Lemma find_last_of_None (c : ascii) (s : string) :
  Str.find_last_of c s = None ↔ Str.contains c s = false.
Proof.
  induction s as [|x s IH]; [split; reflexivity|].
  cbn [Str.find_last_of Str.contains].
  destruct (Str.find_last_of c s) as [i|].
  - split; [discriminate|]. destruct (Ascii.eqb x c); [discriminate|].
    intros Hc. apply IH in Hc. discriminate.
  - destruct (Ascii.eqb x c); [split; discriminate|].
    split; intros _; [now apply IH | reflexivity].
Qed.

Lemma find_last_of_append (c : ascii) (dir base : string) :
  Str.contains c base = false →
  Str.find_last_of c (dir +:+ String c base) = Some (String.length dir).
Proof.
  intros Hc. induction dir as [|x dir IH].
  - rewrite append_nil_l. cbn [Str.find_last_of String.length].
    apply find_last_of_None in Hc. rewrite Hc. now rewrite Ascii.eqb_refl.
  - rewrite append_cons. cbn [Str.find_last_of String.length]. now rewrite IH.
Qed.

Lemma substring_append (a b : string) :
  String.substring 0 (String.length a) (a +:+ b) = a.
Proof.
  induction a as [|x a IH].
  - rewrite append_nil_l. now destruct b.
  - rewrite append_cons. cbn [String.length String.substring]. now rewrite IH.
Qed.

(** The parent of [dir/name] is [dir] when [name] is one segment. *)
Lemma parent_path_child (dir name : string) :
  Str.contains "/" name = false →
  zkutil.parent_path (dir +:+ "/" +:+ name) = Some dir.
Proof.
  intros Hc. unfold zkutil.parent_path.
  rewrite append_cons, append_nil_l, find_last_of_append by exact Hc.
  now rewrite substring_append.
Qed.

Lemma has_parent_child (n : gmap string string) (dir name : string) :
  Str.contains "/" name = false →
  is_Some (n !! dir) →
  zkutil.has_parent n (dir +:+ "/" +:+ name) = true.
Proof.
  intros Hc [payload Hdir]. unfold zkutil.has_parent.
  rewrite parent_path_child by exact Hc.
  destruct dir; [reflexivity|]. now rewrite Hdir.
Qed.

(** A node that is added takes no parent away. *)
Lemma has_parent_insert (n : gmap string string) (path data other : string) :
  zkutil.has_parent n other = true →
  zkutil.has_parent (<[path := data]> n) other = true.
Proof.
  unfold zkutil.has_parent.
  destruct (zkutil.parent_path other) as [[|c parent]|]; [reflexivity| |discriminate].
  destruct (decide (path = String c parent)) as [->|Hne].
  - now rewrite lookup_insert_eq.
  - now rewrite lookup_insert_ne.
Qed.

Lemma reads_only_refl (σ : State) : reads_only σ σ.
Proof. split; [reflexivity|]. exists []. now rewrite app_nil_r. Qed.

Lemma reads_only_trans (σ1 σ2 σ3 : State) :
  reads_only σ1 σ2 → reads_only σ2 σ3 → reads_only σ1 σ3.
Proof.
  intros (Hn1 & evs1 & He1 & Hr1) (Hn2 & evs2 & He2 & Hr2).
  split; [congruence|]. exists (evs1 ++ evs2).
  rewrite He2, He1, <- app_assoc. split; [reflexivity|].
  now rewrite forallb_app, Hr1, Hr2.
Qed.

Lemma reads_only_add_event (ev : Event) (σ : State) :
  is_write_event ev = false → reads_only σ (add_event ev σ).
Proof.
  intros Hev. split; [reflexivity|]. exists [ev]. split; [reflexivity|].
  cbn. now rewrite Hev.
Qed.

Section Write.

Context {DataType Field : Type} `{Serialization DataType Field}.

Lemma fullPathForKey_inj (table : StorageKeeperMap DataType) (a b : string) :
  fullPathForKey table a = fullPathForKey table b → a = b.
Proof.
  unfold fullPathForKey. intros E.
  apply append_inv_head in E. now apply (append_inv_head "/") in E.
Qed.

(** The first loop of [onFinish] on a reachable service. *)
Lemma exist_responses_connected (table : StorageKeeperMap DataType)
    (values : list (string * string)) (σ : State) :
  session σ = None →
  ∃ σ',
    for_each (λ kv : string * string,
                response ← zkutil.asyncExists (fullPathForKey table kv.1);
                mret (kv.1, response)) values σ
    = (Ok (map (λ kv, (kv.1, exists_answer (nodes σ) (fullPathForKey table kv.1))) values), σ')
    ∧ reads_only σ σ' ∧ session σ' = None.
Proof.
  revert σ. induction values as [|kv values IH]; intros σ Hs.
  - exists σ. split; [reflexivity|]. split; [apply reads_only_refl | exact Hs].
  - destruct (IH (add_event (Called (CExists (fullPathForKey table kv.1))) σ) Hs)
      as (σ' & Hrun & Hreads & Hs').
    exists σ'. split; [|split; [|exact Hs']].
    + cbn [for_each map].
      erewrite bind_Ok;
        [|erewrite bind_Ok; [reflexivity | now apply asyncExists_connected]].
      erewrite bind_Ok; [reflexivity | exact Hrun].
    + eapply reads_only_trans; [|exact Hreads]. now apply reads_only_add_event.
Qed.

(** The second loop of [onFinish] on the answers of a reachable service. *)
Lemma stage_requests_connected (table : StorageKeeperMap DataType)
    (m n : gmap string string) (values : list (string * string))
    (requests : list Request) (new_keys_num : Z) :
  stage_requests table m
    (map (λ kv, (kv.1, exists_answer n (fullPathForKey table kv.1))) values)
    requests new_keys_num
  = Ok (requests ++ map (staged_request table m n) (map fst values),
        count_new table n (map fst values) new_keys_num).
Proof.
  revert requests new_keys_num.
  induction values as [|[key v] values IH]; intros requests new_keys_num.
  - cbn. now rewrite app_nil_r.
  - cbn [map stage_requests exists_answer value fst count_new].
    destruct (n !! fullPathForKey table key) as [payload|] eqn:Hnode.
    + assert (Hreq : staged_request table m n key
                     = SetRequest (fullPathForKey table key) (m !!! key))
        by (unfold staged_request; now rewrite Hnode).
      rewrite IH, Hreq, <- app_assoc. reflexivity.
    + assert (Hreq : staged_request table m n key
                     = CreateRequest (fullPathForKey table key) (m !!! key) Persistent)
        by (unfold staged_request; now rewrite Hnode).
      rewrite IH, Hreq, <- app_assoc. reflexivity.
Qed.

Lemma count_new_length (table : StorageKeeperMap DataType) (n : gmap string string)
    (keys : list string) (acc : Z) :
  (0 ≤ acc)%Z →
  (acc + Z.of_nat (length (filter (λ key, n !! fullPathForKey table key = None) keys))
   < 2 ^ 64)%Z →
  count_new table n keys acc
  = (acc + Z.of_nat (length (filter (λ key, n !! fullPathForKey table key = None) keys)))%Z.
Proof.
  revert acc. induction keys as [|key keys IH]; intros acc Hacc Hbound.
  - cbn. lia.
  - cbn [count_new]. rewrite filter_cons in Hbound |- *.
    destruct (n !! fullPathForKey table key) as [payload|] eqn:Hnode.
    + rewrite decide_False in Hbound |- * by discriminate. apply IH; lia.
    + rewrite decide_True in Hbound |- * by reflexivity. cbn [length] in Hbound |- *.
      rewrite wrap64_small by lia. rewrite IH by lia. lia.
Qed.

Lemma count_new_all_exist (table : StorageKeeperMap DataType) (n : gmap string string)
    (keys : list string) (acc : Z) :
  Forall (λ key, is_Some (n !! fullPathForKey table key)) keys →
  count_new table n keys acc = acc.
Proof.
  induction 1 as [|key keys [payload Hkey] _ IH]; [reflexivity|].
  cbn [count_new]. now rewrite Hkey.
Qed.

Lemma commit_cons (table : StorageKeeperMap DataType) (key v : string)
    (values : list (string * string)) (cur : gmap string string) :
  commit table ((key, v) :: values) cur
  = commit table values (<[fullPathForKey table key := v]> cur).
Proof. reflexivity. Qed.

(** One staged request on a tree that agrees with the one the existence
    checks saw: an overwrite meets its node, a create meets none and
    succeeds exactly when the parent is there. *)
Lemma apply_staged_request (table : StorageKeeperMap DataType) (m n cur : gmap string string)
    (key : string) :
  cur !! fullPathForKey table key = n !! fullPathForKey table key →
  zkutil.apply_request (staged_request table m n key) cur
  = if decide (n !! fullPathForKey table key = None
               ∧ zkutil.has_parent cur (fullPathForKey table key) = false)
    then (ZNONODE, cur)
    else (ZOK, <[fullPathForKey table key := m !!! key]> cur).
Proof.
  intros Hcur. unfold staged_request. rewrite <- Hcur.
  destruct (cur !! fullPathForKey table key) eqn:Hnode; cbn [zkutil.apply_request].
  - rewrite Hnode. rewrite decide_False by (intros [? _]; discriminate). reflexivity.
  - destruct (zkutil.has_parent cur (fullPathForKey table key)); cbn [negb].
    + rewrite Hnode. rewrite decide_False by (intros [_ ?]; discriminate). reflexivity.
    + rewrite decide_True by (split; reflexivity). reflexivity.
Qed.

(** The staged requests all succeed on the tree the existence checks saw
    when every node to create has its parent: an overwrite meets its node, a
    create meets none, and no two requests touch the same path. *)
Lemma apply_staged_requests (table : StorageKeeperMap DataType) (m n : gmap string string)
    (values : list (string * string)) :
  NoDup (map fst values) →
  (∀ key v, (key, v) ∈ values → m !!! key = v) →
  ∀ cur,
    (∀ key, key ∈ map fst values → cur !! fullPathForKey table key = n !! fullPathForKey table key) →
    (∀ key, key ∈ map fst values → n !! fullPathForKey table key = None →
            zkutil.has_parent cur (fullPathForKey table key) = true) →
    zkutil.apply_requests (map (staged_request table m n) (map fst values)) cur
    = (ZOK, commit table values cur).
Proof.
  induction values as [|[key v] values IH]; intros Hnodup Htotal cur Hcur Hparent;
    [reflexivity|].
  cbn [map fst] in *. apply NoDup_cons in Hnodup as [Hfresh Hnodup].
  assert (Hv : m !!! key = v) by (apply Htotal; left).
  cbn [zkutil.apply_requests].
  rewrite apply_staged_request by (apply Hcur; left).
  rewrite decide_False, Hv, commit_cons.
  - rewrite IH; [reflexivity | exact Hnodup | | |].
    + intros key' v' Hin. apply Htotal. now right.
    + intros key' Hin. rewrite lookup_insert_ne.
      * apply Hcur. now right.
      * intros E. apply fullPathForKey_inj in E. subst key'. contradiction.
    + intros key' Hin Hnew. apply has_parent_insert, Hparent; [now right | exact Hnew].
  - intros [Hnew Horphan]. rewrite Hparent in Horphan; [discriminate | left | exact Hnew].
Qed.

(** Whatever the parents are, the staged requests are all applied or the
    transaction is refused because a parent is missing. *)
Lemma apply_staged_requests_outcome (table : StorageKeeperMap DataType)
    (m n : gmap string string) (values : list (string * string)) :
  NoDup (map fst values) →
  (∀ key v, (key, v) ∈ values → m !!! key = v) →
  ∀ cur,
    (∀ key, key ∈ map fst values → cur !! fullPathForKey table key = n !! fullPathForKey table key) →
    zkutil.apply_requests (map (staged_request table m n) (map fst values)) cur
    = (ZOK, commit table values cur)
    ∨ (zkutil.apply_requests (map (staged_request table m n) (map fst values)) cur).1
      = ZNONODE.
Proof.
  induction values as [|[key v] values IH]; intros Hnodup Htotal cur Hcur; [now left|].
  cbn [map fst] in *. apply NoDup_cons in Hnodup as [Hfresh Hnodup].
  assert (Hv : m !!! key = v) by (apply Htotal; left).
  cbn [zkutil.apply_requests].
  rewrite apply_staged_request by (apply Hcur; left).
  case_decide; [now right|]. rewrite Hv, commit_cons.
  apply IH; [exact Hnodup | |].
  - intros key' v' Hin. apply Htotal. now right.
  - intros key' Hin. rewrite lookup_insert_ne.
    + apply Hcur. now right.
    + intros E. apply fullPathForKey_inj in E. subst key'. contradiction.
Qed.

Lemma commit_lookup_other (table : StorageKeeperMap DataType)
    (values : list (string * string)) (cur : gmap string string) (path : string) :
  (∀ key, key ∈ map fst values → fullPathForKey table key ≠ path) →
  commit table values cur !! path = cur !! path.
Proof.
  revert cur. induction values as [|[key v] values IH]; intros cur Hother; [reflexivity|].
  rewrite commit_cons.
  rewrite IH by (intros key' Hin; apply Hother; now right).
  apply lookup_insert_ne, Hother. left.
Qed.

Lemma commit_lookup (table : StorageKeeperMap DataType)
    (values : list (string * string)) (cur : gmap string string) (key v : string) :
  NoDup (map fst values) →
  (key, v) ∈ values →
  commit table values cur !! fullPathForKey table key = Some v.
Proof.
  revert cur. induction values as [|[key' v'] values IH]; intros cur Hnodup Hin.
  - now apply elem_of_nil in Hin.
  - cbn [map fst] in Hnodup. apply NoDup_cons in Hnodup as [Hfresh Hnodup].
    rewrite commit_cons.
    apply elem_of_cons in Hin as [[= -> ->] | Hin].
    + rewrite commit_lookup_other; [apply lookup_insert_eq|].
      intros key Hkey E. apply fullPathForKey_inj in E. subst key. contradiction.
    + now apply IH.
Qed.

(** [onFinish] on a reachable service: it fails when the root is gone and a
    limit asks for its child count, it rejects the batch when the test says
    so, and it sends the transaction otherwise, which commits or is refused
    as a whole. Only a commit changes the tree. *)
Lemma onFinish_connected (sink : StorageKeeperMapSink DataType) (σ : State) :
  session σ = None →
  let table := storage sink in
  let m := new_values sink in
  (keysLimit table ≠ 0%Z ∧ nodes σ !! rootKeeperPath table = None ∧
   ∃ σ', onFinish sink σ = (Throw (CoordinationException ZNONODE), σ') ∧ reads_only σ σ')
  ∨
  ((keysLimit table = 0%Z ∨ is_Some (nodes σ !! rootKeeperPath table)) ∧
   ∃ σ',
     if limit_exceeded table m (nodes σ)
     then onFinish sink σ = (Throw (DBException LIMIT_EXCEEDED), σ') ∧ reads_only σ σ'
     else
       match zkutil.apply_requests
               (map (staged_request table m (nodes σ)) (map fst (map_to_list m))) (nodes σ)
       with
       | (ZOK, n') => onFinish sink σ = (Ok tt, σ') ∧ nodes σ' = n'
       | (code, _) =>
           onFinish sink σ = (Throw (CoordinationException code), σ') ∧ nodes σ' = nodes σ
       end).
Proof.
  intros Hs table m.
  assert (Hphase1 :
    (keysLimit table ≠ 0%Z ∧ nodes σ !! rootKeeperPath table = None) ∨
    ((keysLimit table = 0%Z ∨ is_Some (nodes σ !! rootKeeperPath table)) ∧
     ∃ σ1, (if negb (keysLimit table =? 0)%Z
            then root ← zkutil.get (rootKeeperPath table);
                 mret (wrap64 (numChildren root.2 - 1))
            else mret 0%Z) σ
           = (Ok (current_keys_num table (nodes σ)), σ1)
           ∧ reads_only σ σ1 ∧ session σ1 = None)).
  { unfold current_keys_num.
    destruct (Z.eqb_spec (keysLimit table) 0) as [Hzero|Hlimit]; cbn [negb].
    - right. split; [now left|]. exists σ.
      split; [reflexivity|]. split; [apply reads_only_refl | exact Hs].
    - destruct (nodes σ !! rootKeeperPath table) as [payload|] eqn:Hroot.
      + right. split; [right; eauto|].
        exists (add_event (Called (CGet (rootKeeperPath table))) σ).
        split; [|split; [now apply reads_only_add_event | exact Hs]].
        erewrite bind_Ok; [|eapply get_connected; eassumption]. reflexivity.
      + left. split; [exact Hlimit | reflexivity]. }
  destruct Hphase1 as [[Hlimit Hroot] | [Hok (σ1 & Hrun1 & Hreads1 & Hs1)]].
  - left. split; [exact Hlimit|]. split; [exact Hroot|].
    exists (add_event (Called (CGet (rootKeeperPath table))) σ).
    split; [|now apply reads_only_add_event].
    unfold onFinish. fold table.
    apply Z.eqb_neq in Hlimit. rewrite Hlimit. cbn [negb].
    apply bind_Throw. apply bind_Throw. now apply get_missing.
  - right. split; [exact Hok|].
    destruct (exist_responses_connected table (map_to_list m) σ1 Hs1)
      as (σ2 & Hrun2 & Hreads2 & Hs2).
    assert (Hn1 : nodes σ1 = nodes σ) by apply Hreads1.
    assert (Hn2 : nodes σ2 = nodes σ) by (rewrite <- Hn1; apply Hreads2).
    rewrite Hn1 in Hrun2.
    unfold limit_exceeded. fold m.
    set (new_keys_num := count_new table (nodes σ) (map fst (map_to_list m)) 0).
    assert (Hrun : onFinish sink σ
                   = ((if negb (new_keys_num =? 0)%Z
                       then if negb (keysLimit table =? 0)%Z
                                 && (wrap64 (current_keys_num table (nodes σ) + new_keys_num)
                                     >? keysLimit table)%Z
                            then throw (DBException LIMIT_EXCEEDED)
                            else mret tt
                       else mret tt);;
                      zkutil.multi (map (staged_request table m (nodes σ))
                                        (map fst (map_to_list m)))) σ2).
    { unfold onFinish. fold table. fold m.
      erewrite bind_Ok; [|exact Hrun1].
      erewrite bind_Ok; [|exact Hrun2].
      rewrite stage_requests_connected. cbn [app].
      erewrite bind_Ok; [|reflexivity]. reflexivity. }
    rewrite Hrun. clear Hrun.
    pose proof (multi_run (map (staged_request table m (nodes σ)) (map fst (map_to_list m)))
                  σ2 Hs2) as Hmulti.
    rewrite Hn2 in Hmulti.
    assert (Hsent : ∃ σ',
      match zkutil.apply_requests
              (map (staged_request table m (nodes σ)) (map fst (map_to_list m))) (nodes σ)
      with
      | (ZOK, n') =>
          (mret tt;; zkutil.multi (map (staged_request table m (nodes σ))
                                       (map fst (map_to_list m)))) σ2 = (Ok tt, σ')
          ∧ nodes σ' = n'
      | (code, _) =>
          (mret tt;; zkutil.multi (map (staged_request table m (nodes σ))
                                       (map fst (map_to_list m)))) σ2
          = (Throw (CoordinationException code), σ')
          ∧ nodes σ' = nodes σ
      end).
    { destruct (zkutil.apply_requests _ (nodes σ)) as [[] n'];
        eexists; (split; [erewrite bind_Ok; [exact Hmulti | reflexivity]|]);
        first [reflexivity | exact Hn2]. }
    destruct (new_keys_num =? 0)%Z; cbn [negb andb].
    + exact Hsent.
    + destruct (negb (keysLimit table =? 0)%Z
                && (wrap64 (current_keys_num table (nodes σ) + new_keys_num)
                    >? keysLimit table)%Z).
      * exists σ2. split; [reflexivity|].
        eapply reads_only_trans; [exact Hreads1 | exact Hreads2].
      * exact Hsent.
Qed.

(** The transaction of [onFinish] is applied when every node that it
    creates has its parent. *)
Lemma onFinish_commits (sink : StorageKeeperMapSink DataType) (σ : State) :
  let table := storage sink in
  let m := new_values sink in
  session σ = None →
  (keysLimit table = 0%Z ∨ is_Some (nodes σ !! rootKeeperPath table)) →
  limit_exceeded table m (nodes σ) = false →
  (∀ key, is_Some (m !! key) → nodes σ !! fullPathForKey table key = None →
          zkutil.has_parent (nodes σ) (fullPathForKey table key) = true) →
  ∃ σ', onFinish sink σ = (Ok tt, σ') ∧ nodes σ' = commit table (map_to_list m) (nodes σ).
Proof.
  intros table m Hs Hroot Hexceeded Hparent.
  destruct (onFinish_connected sink σ Hs) as [(Hlimit & Hnone & _) | (_ & σ' & Hrun)].
  - fold table in Hlimit, Hnone. destruct Hroot as [E | Hsome]; [contradiction|].
    rewrite Hnone in Hsome. now destruct Hsome.
  - fold table in Hrun. fold m in Hrun. rewrite Hexceeded in Hrun.
    rewrite apply_staged_requests in Hrun; [now exists σ' | | | |].
    + apply NoDup_fst_map_to_list.
    + intros key v Hin. apply elem_of_map_to_list in Hin. now apply lookup_total_correct.
    + reflexivity.
    + intros key Hin. apply Hparent.
      change (map fst ?l) with (l.*1) in Hin.
      apply list_elem_of_fmap in Hin as ([key' v] & -> & Hin).
      apply elem_of_map_to_list in Hin. cbn. eauto.
Qed.

(** A run of [onFinish] that returns has applied its transaction. *)
Lemma onFinish_committed (sink : StorageKeeperMapSink DataType) (σ σ' : State) :
  session σ = None →
  onFinish sink σ = (Ok tt, σ') →
  (keysLimit (storage sink) = 0%Z ∨ is_Some (nodes σ !! rootKeeperPath (storage sink))) ∧
  limit_exceeded (storage sink) (new_values sink) (nodes σ) = false ∧
  zkutil.apply_requests
    (map (staged_request (storage sink) (new_values sink) (nodes σ))
         (map fst (map_to_list (new_values sink)))) (nodes σ)
  = (ZOK, commit (storage sink) (map_to_list (new_values sink)) (nodes σ)) ∧
  nodes σ' = commit (storage sink) (map_to_list (new_values sink)) (nodes σ).
Proof.
  intros Hs Hok.
  destruct (onFinish_connected sink σ Hs) as [(_ & _ & σ1 & Hrun & _) | (Hroot & σ1 & Hrun)].
  { rewrite Hok in Hrun. discriminate. }
  split; [exact Hroot|]. cbv zeta in Hrun.
  destruct (limit_exceeded (storage sink) (new_values sink) (nodes σ)).
  { destruct Hrun as [Hrun _]. rewrite Hok in Hrun. discriminate. }
  split; [reflexivity|].
  destruct (apply_staged_requests_outcome (storage sink) (new_values sink) (nodes σ)
              (map_to_list (new_values sink))) with (cur := nodes σ) as [Happly | Hrefused].
  - apply NoDup_fst_map_to_list.
  - intros key v Hin. apply elem_of_map_to_list in Hin. now apply lookup_total_correct.
  - reflexivity.
  - rewrite Happly in Hrun. destruct Hrun as [Hrun Hnodes]. rewrite Hok in Hrun.
    injection Hrun as <-. split; [exact Happly | exact Hnodes].
  - destruct (zkutil.apply_requests _ (nodes σ)) as [code n']. cbn [fst] in Hrefused.
    subst code. destruct Hrun as [Hrun _]. rewrite Hok in Hrun. discriminate.
Qed.

End Write.

(** *** The children of a node *)

Lemma NoDup_omap_inj {A B : Type} (f : A → option B) (l : list A) :
  NoDup l →
  (∀ x y z, f x = Some z → f y = Some z → x = y) →
  NoDup (omap f l).
Proof.
  intros Hl Hinj. induction Hl as [|x l Hx Hl IH]; [constructor|].
  cbn [omap list_omap]. destruct (f x) as [z|] eqn:Hfx; [|exact IH].
  apply NoDup_cons. split; [|exact IH].
  intros Hin. apply list_elem_of_omap in Hin as (y & Hy & Hfy).
  assert (x = y) by (eapply Hinj; eassumption). now subst y.
Qed.

Lemma child_name_Some (parent path name : string) :
  zkutil.child_name parent path = Some name ↔
  path = parent +:+ "/" +:+ name ∧ Str.is_empty name = false ∧ Str.contains "/" name = false.
Proof.
  unfold zkutil.child_name. split.
  - destruct (Str.strip_prefix (parent +:+ "/") path) as [rest|] eqn:Hstrip; [|discriminate].
    apply strip_prefix_Some in Hstrip. rewrite append_assoc in Hstrip.
    destruct (Str.is_empty rest) eqn:He; [discriminate|].
    destruct (Str.contains "/" rest) eqn:Hc; [discriminate|].
    cbn [orb]. intros [= <-]. auto.
  - intros (-> & He & Hc). rewrite <- append_assoc, strip_prefix_append, He, Hc.
    reflexivity.
Qed.

Lemma children_NoDup (n : gmap string string) (parent : string) :
  NoDup (zkutil.children n parent).
Proof.
  unfold zkutil.children. apply NoDup_omap_inj.
  - apply NoDup_fst_map_to_list.
  - intros x y z Hx Hy. apply child_name_Some in Hx as [-> _].
    apply child_name_Some in Hy as [-> _]. reflexivity.
Qed.

Lemma elem_of_children (n : gmap string string) (parent name : string) :
  name ∈ zkutil.children n parent ↔
  is_Some (n !! (parent +:+ "/" +:+ name)) ∧
  Str.is_empty name = false ∧ Str.contains "/" name = false.
Proof.
  unfold zkutil.children. rewrite list_elem_of_omap. split.
  - intros (path & Hin & Hname). apply child_name_Some in Hname as (-> & He & Hc).
    split; [|auto].
    change (map fst ?l) with (l.*1) in Hin.
    apply list_elem_of_fmap in Hin as ([path v] & -> & Hin).
    apply elem_of_map_to_list in Hin. cbn. eauto.
  - intros ([v Hv] & He & Hc). exists (parent +:+ "/" +:+ name).
    split; [|now apply child_name_Some].
    change (map fst ?l) with (l.*1).
    apply list_elem_of_fmap. exists (parent +:+ "/" +:+ name, v).
    split; [reflexivity | now apply elem_of_map_to_list].
Qed.

(** Taking the one element that fails a test out of a list without
    duplicates shortens it by one. *)
Lemma length_filter_but_one {A : Type} (P : A → Prop) `{∀ x, Decision (P x)}
    (l : list A) (x : A) :
  NoDup l → x ∈ l → ¬ P x → (∀ y, y ∈ l → y ≠ x → P y) →
  S (length (filter P l)) = length l.
Proof.
  intros Hl. revert x. induction Hl as [|y l Hy Hl IH]; intros x Hin Hx Hrest.
  - now apply elem_of_nil in Hin.
  - rewrite filter_cons. apply elem_of_cons in Hin as [<- | Hin].
    + rewrite decide_False by exact Hx. cbn [length]. f_equal.
      assert (Hall : Forall P l).
      { apply Forall_forall. intros z Hz. apply Hrest; [now right|].
        intros ->. contradiction. }
      clear -Hall. induction Hall as [|z l Hz _ IHl]; [reflexivity|].
      rewrite filter_cons, decide_True by exact Hz. cbn [length]. now rewrite IHl.
    + rewrite decide_True.
      * cbn [length]. f_equal. apply (IH x); [exact Hin | exact Hx |].
        intros z Hz Hne. apply Hrest; [now right | exact Hne].
      * apply Hrest; [now left|]. intros ->. contradiction.
Qed.

Section Capacity.

Context {DataType Field : Type} `{Serialization DataType Field}.

(** With the metadata node among the children of the root, the child
    count less one is the number of data nodes. *)
Lemma data_keys_count (table : StorageKeeperMap DataType) (n : gmap string string)
    (base : string) :
  metadata_path table = fullPathForKey table base →
  base ∈ zkutil.children n (root_path table) →
  (Z.of_nat (length (zkutil.children n (root_path table))) - 1
   = Z.of_nat (length (data_keys table n)))%Z.
Proof.
  intros Hmeta Hbase. unfold data_keys.
  rewrite <- (length_filter_but_one
                (λ name, fullPathForKey table name ≠ metadata_path table)
                (zkutil.children n (root_path table)) base).
  - lia.
  - apply children_NoDup.
  - exact Hbase.
  - intros Hne. now apply Hne.
  - intros name _ Hne E. rewrite Hmeta in E. now apply fullPathForKey_inj in E.
Qed.

(** C1 (as amended). A batch finalized on a reachable service against a
    table with a capacity limit [L], the metadata node being a child of the
    root: if at least one key of the batch does not exist yet and the
    current number of data nodes plus the number of such new keys exceeds
    [L], finalization raises the capacity error; up to that point only
    reads were sent to the service (no transaction, no removal), and the
    node tree, keys and values, is exactly as before. *)
Theorem onFinish_limit_exceeded_writes_nothing (sink : StorageKeeperMapSink DataType)
    (σ : State) (base : string) :
  let table := storage sink in
  let current := Z.of_nat (length (data_keys table (nodes σ))) in
  let new := Z.of_nat (length (new_keys table (new_values sink) (nodes σ))) in
  session σ = None →
  (0 < keysLimit table)%Z →
  is_Some (nodes σ !! rootKeeperPath table) →
  metadata_path table = fullPathForKey table base →
  base ∈ zkutil.children (nodes σ) (root_path table) →
  (0 < new)%Z →
  (keysLimit table < current + new < 2 ^ 64)%Z →
  ∃ σ', onFinish sink σ = (Throw (DBException LIMIT_EXCEEDED), σ') ∧
        nodes σ' = nodes σ ∧ reads_only σ σ'.
Proof.
  intros table current new Hs Hlimit Hroot Hmeta Hbase Hnew Hsum.
  assert (Hcount : count_new table (nodes σ) (map fst (map_to_list (new_values sink))) 0 = new).
  { rewrite count_new_length; [reflexivity | lia |]. fold (new_keys table (new_values sink) (nodes σ)).
    fold new. subst current. lia. }
  assert (Hcurrent : current_keys_num table (nodes σ) = current).
  { unfold current_keys_num. destruct (Z.eqb_spec (keysLimit table) 0) as [E|_]; [lia|].
    unfold rootKeeperPath. rewrite (data_keys_count table (nodes σ) base Hmeta Hbase).
    fold current. apply wrap64_small. subst current. lia. }
  assert (Hexceeded : limit_exceeded table (new_values sink) (nodes σ) = true).
  { unfold limit_exceeded. rewrite Hcount, Hcurrent.
    rewrite wrap64_small by (subst current; lia).
    destruct (Z.eqb_spec new 0) as [E|_]; [lia|].
    destruct (Z.eqb_spec (keysLimit table) 0) as [E|_]; [lia|].
    cbn [negb andb]. apply Z.gtb_lt. lia. }
  destruct (onFinish_connected sink σ Hs) as [(_ & Hnone & _) | (_ & σ' & Hrun)].
  - fold table in Hnone. rewrite Hnone in Hroot. now destruct Hroot.
  - fold table in Hrun. rewrite Hexceeded in Hrun. destruct Hrun as [Hrun Hreads].
    exists σ'. split; [exact Hrun|]. split; [apply Hreads | exact Hreads].
Qed.

(** C10. A batch all of whose keys exist already, finalized on a reachable
    service: whatever the limit and the current number of keys, no capacity
    error is raised and the batch commits: every buffered key holds its
    buffered value afterwards and every other node is as before. (With a
    limit the root has to exist, its child count is read.) *)
Theorem onFinish_without_new_keys_commits (sink : StorageKeeperMapSink DataType) (σ : State) :
  let table := storage sink in
  session σ = None →
  (keysLimit table = 0%Z ∨ is_Some (nodes σ !! rootKeeperPath table)) →
  (∀ key, is_Some (new_values sink !! key) →
          is_Some (nodes σ !! fullPathForKey table key)) →
  ∃ σ', onFinish sink σ = (Ok tt, σ') ∧
        (∀ key v, new_values sink !! key = Some v →
                  nodes σ' !! fullPathForKey table key = Some v) ∧
        (∀ path, (∀ key, is_Some (new_values sink !! key) → fullPathForKey table key ≠ path) →
                 nodes σ' !! path = nodes σ !! path).
Proof.
  intros table Hs Hroot Hexist.
  assert (Hcount : count_new table (nodes σ) (map fst (map_to_list (new_values sink))) 0 = 0%Z).
  { apply count_new_all_exist. apply Forall_forall. intros key Hin.
    apply Hexist. change (map fst ?l) with (l.*1) in Hin.
    apply list_elem_of_fmap in Hin as ([key' v] & -> & Hin).
    apply elem_of_map_to_list in Hin. cbn. eauto. }
  assert (Hexceeded : limit_exceeded table (new_values sink) (nodes σ) = false).
  { unfold limit_exceeded. now rewrite Hcount. }
  destruct (onFinish_commits sink σ Hs Hroot Hexceeded) as (σ' & Hrun & Hnodes).
  { intros key Hkey Hnew. apply Hexist in Hkey. fold table in Hnew.
    rewrite Hnew in Hkey. now destruct Hkey. }
  exists σ'. split; [exact Hrun|]. fold table in Hnodes. rewrite Hnodes. split.
  - intros key v Hkey. apply commit_lookup; [apply NoDup_fst_map_to_list|].
    now apply elem_of_map_to_list.
  - intros path Hother. apply commit_lookup_other. intros key Hin.
    apply Hother. change (map fst ?l) with (l.*1) in Hin.
    apply list_elem_of_fmap in Hin as ([key' v] & -> & Hin).
    apply elem_of_map_to_list in Hin. cbn. eauto.
Qed.

End Capacity.

Lemma onFinish_limit_exceeded_writes_nothing_witness :
  (onFinish (ByteColumns.batch 2 [["b"; "y"]%char])
     (ByteColumns.state [("YQ==", "q"); ("Yw==", "q")] (Some true))).1
  = Throw (DBException LIMIT_EXCEEDED).
Proof.
  destruct (onFinish_limit_exceeded_writes_nothing
              (ByteColumns.batch 2 [["b"; "y"]%char])
              (ByteColumns.state [("YQ==", "q"); ("Yw==", "q")] (Some true))
              "ch_metadata") as (σ' & Hrun & _).
  - reflexivity.
  - vm_compute. reflexivity.
  - vm_compute. eexists. reflexivity.
  - reflexivity.
  - apply elem_of_children. split; [vm_compute; eexists; reflexivity|].
    split; reflexivity.
  - vm_compute. reflexivity.
  - vm_compute. split; reflexivity.
  - rewrite Hrun. reflexivity.
Defined.

(** C1 as stated fails when the batch creates no key: with a limit of 1,
    two data nodes and a batch that only overwrites one of them, the count
    that the claim compares (2 + 0) exceeds the limit, yet no error is
    raised and the overwrite is committed. *)
Lemma onFinish_over_limit_overwrite_commits :
  keysLimit (storage (ByteColumns.batch 1 [["a"; "z"]%char])) = 1%Z ∧
  length (data_keys (ByteColumns.table 1)
            (nodes (ByteColumns.state [("YQ==", "q"); ("Yw==", "q")] (Some true)))) = 2%nat ∧
  length (new_keys (ByteColumns.table 1)
            (new_values (ByteColumns.batch 1 [["a"; "z"]%char]))
            (nodes (ByteColumns.state [("YQ==", "q"); ("Yw==", "q")] (Some true)))) = 0%nat ∧
  (onFinish (ByteColumns.batch 1 [["a"; "z"]%char])
     (ByteColumns.state [("YQ==", "q"); ("Yw==", "q")] (Some true))).1 = Ok tt ∧
  nodes (ByteColumns.state [("YQ==", "q"); ("Yw==", "q")] (Some true))
    !! "/keeper_map/t/YQ==" = Some "q" ∧
  nodes (onFinish (ByteColumns.batch 1 [["a"; "z"]%char])
           (ByteColumns.state [("YQ==", "q"); ("Yw==", "q")] (Some true))).2
    !! "/keeper_map/t/YQ==" = Some "z".
Proof. repeat split; vm_compute; reflexivity. Qed.

Lemma onFinish_without_new_keys_commits_witness :
  (onFinish (ByteColumns.batch 1 [["a"; "z"]%char])
     (ByteColumns.state [("YQ==", "q"); ("Yw==", "q")] (Some true))).1 = Ok tt.
Proof.
  destruct (onFinish_without_new_keys_commits
              (ByteColumns.batch 1 [["a"; "z"]%char])
              (ByteColumns.state [("YQ==", "q"); ("Yw==", "q")] (Some true)))
    as (σ' & Hrun & _).
  - reflexivity.
  - right. vm_compute. eexists. reflexivity.
  - intros key [v Hv].
    assert (Hkey : key = "YQ==").
    { destruct (decide (key = "YQ==")) as [E|Hne]; [exact E|].
      exfalso. revert Hv. change (new_values (ByteColumns.batch 1 [["a"; "z"]%char]))
        with (<["YQ==" := "z"]> (∅ : gmap string string)).
      rewrite lookup_insert_ne by congruence. now rewrite lookup_empty. }
    subst key. vm_compute. eexists. reflexivity.
  - rewrite Hrun. reflexivity.
Defined.

(** *** Duplicates within a batch *)

Section LastWriteWins.

Context {DataType Field : Type} `{Serialization DataType Field}.

Lemma consume_row_storage (sink : StorageKeeperMapSink DataType) (row : Row Field) :
  storage (consume_row sink row) = storage sink ∧
  primary_key_pos (consume_row sink row) = primary_key_pos sink ∧
  new_values (consume_row sink row)
  = <[(row_entry sink row).1 := (row_entry sink row).2]> (new_values sink).
Proof. unfold consume_row. destruct (row_entry sink row). repeat split. Qed.

Lemma row_entry_storage (sink sink' : StorageKeeperMapSink DataType) (row : Row Field) :
  storage sink' = storage sink →
  primary_key_pos sink' = primary_key_pos sink →
  row_entry sink' row = row_entry sink row.
Proof. intros Hst Hpos. unfold row_entry. now rewrite Hst, Hpos. Qed.

Lemma consume_storage (chunk : list (Row Field)) (sink : StorageKeeperMapSink DataType) :
  storage (consume chunk sink) = storage sink ∧
  primary_key_pos (consume chunk sink) = primary_key_pos sink.
Proof.
  revert sink. induction chunk as [|row chunk IH]; intros sink; [split; reflexivity|].
  unfold consume. cbn [foldl]. fold (consume chunk (consume_row sink row)).
  destruct (IH (consume_row sink row)) as [Hst Hpos].
  destruct (consume_row_storage sink row) as (Hst' & Hpos' & _).
  split; congruence.
Qed.

(** Rows with other keys leave the buffered value of a key alone. *)
Lemma consume_other_keys (chunk : list (Row Field)) (sink : StorageKeeperMapSink DataType)
    (key : string) :
  Forall (λ later, (row_entry sink later).1 ≠ key) chunk →
  new_values (consume chunk sink) !! key = new_values sink !! key.
Proof.
  revert sink. induction chunk as [|row chunk IH]; intros sink Hother; [reflexivity|].
  apply Forall_cons in Hother as [Hrow Hother].
  unfold consume. cbn [foldl]. fold (consume chunk (consume_row sink row)).
  destruct (consume_row_storage sink row) as (Hst & Hpos & Hvalues).
  rewrite IH.
  - rewrite Hvalues. now apply lookup_insert_ne.
  - eapply Forall_impl; [exact Hother|]. intros later Hlater.
    now rewrite (row_entry_storage sink (consume_row sink row)).
Qed.

(** The node name of a row is free of slashes whatever the key bytes are. *)
Lemma row_entry_key_segment (sink : StorageKeeperMapSink DataType) (row : Row Field) :
  Str.contains "/" (row_entry sink row).1 = false.
Proof.
  unfold row_entry.
  destruct (serialize_row (sample_block (storage sink)) row 0 (primary_key_pos sink)
              EmptyString EmptyString) as [wb_key wb_value].
  apply base64Encode_no_slash.
Qed.

Lemma consume_cons (row : Row Field) (chunk : list (Row Field))
    (sink : StorageKeeperMapSink DataType) :
  consume (row :: chunk) sink = consume chunk (consume_row sink row).
Proof. reflexivity. Qed.

Lemma consume_keys (chunk : list (Row Field)) (sink : StorageKeeperMapSink DataType)
    (key : string) :
  is_Some (new_values (consume chunk sink) !! key) ↔
  is_Some (new_values sink !! key) ∨ ∃ row, row ∈ chunk ∧ (row_entry sink row).1 = key.
Proof.
  revert sink. induction chunk as [|row chunk IH]; intros sink.
  - split; [now left|]. intros [Hold | (row & Hin & _)]; [exact Hold|].
    now apply elem_of_nil in Hin.
  - rewrite consume_cons, IH.
    destruct (consume_row_storage sink row) as (Hst & Hpos & Hvalues).
    rewrite Hvalues. split.
    + intros [Hnow | (later & Hin & Hkey)].
      * destruct (decide ((row_entry sink row).1 = key)) as [E|Hne].
        -- right. exists row. split; [left | exact E].
        -- left. now rewrite lookup_insert_ne in Hnow.
      * right. exists later. split; [now right|].
        now rewrite <- (row_entry_storage sink (consume_row sink row)).
    + intros [Hold | (r & Hin & Hkey)].
      * left. destruct (decide ((row_entry sink row).1 = key)) as [E|Hne].
        -- rewrite E, lookup_insert_eq. eauto.
        -- now rewrite lookup_insert_ne.
      * apply elem_of_cons in Hin as [-> | Hin].
        -- left. rewrite Hkey, lookup_insert_eq. eauto.
        -- right. exists r. split; [exact Hin|].
           now rewrite (row_entry_storage sink (consume_row sink row)).
Qed.

(** C5. A batch in which a key occurs in several rows is consumed without
    error; the buffer holds for that key the payload of the last row that
    carries it. On a reachable service that has the root node of the table,
    the finalization of the batch commits unless the capacity test rejects
    it, which it never does without a limit (the keys that the buffer held
    before being node names as well). And whenever a finalization commits,
    the node of the key holds the payload of that last row. *)
Theorem consume_last_write_wins (sink : StorageKeeperMapSink DataType)
    (before after : list (Row Field)) (row : Row Field) (key v : string) (σ : State) :
  let filled := consume (before ++ row :: after) sink in
  row_entry sink row = (key, v) →
  Forall (λ later, (row_entry sink later).1 ≠ key) after →
  session σ = None →
  new_values filled !! key = Some v ∧
  (is_Some (nodes σ !! rootKeeperPath (storage sink)) →
   (∀ held, is_Some (new_values sink !! held) → Str.contains "/" held = false) →
   keysLimit (storage sink) = 0%Z
   ∨ limit_exceeded (storage sink) (new_values filled) (nodes σ) = false →
   ∃ σ', onFinish filled σ = (Ok tt, σ')) ∧
  (∀ σ', onFinish filled σ = (Ok tt, σ') →
         nodes σ' !! fullPathForKey (storage sink) key = Some v).
Proof.
  intros filled Hrow Hafter Hs.
  destruct (consume_storage before sink) as [Hst Hpos].
  assert (Hfilled : filled = consume after (consume_row (consume before sink) row)).
  { unfold filled, consume. now rewrite foldl_app. }
  assert (Hentry : row_entry (consume before sink) row = (key, v)).
  { now rewrite (row_entry_storage sink). }
  destruct (consume_row_storage (consume before sink) row) as (Hst' & Hpos' & Hvalues).
  rewrite Hentry in Hvalues. cbn [fst snd] in Hvalues.
  assert (Hbuffer : new_values filled !! key = Some v).
  { rewrite Hfilled, consume_other_keys.
    - rewrite Hvalues. apply lookup_insert_eq.
    - eapply Forall_impl; [exact Hafter|]. intros later Hlater.
      rewrite (row_entry_storage sink); [exact Hlater | congruence | congruence]. }
  assert (Hstorage : storage filled = storage sink) by apply consume_storage.
  split; [exact Hbuffer|]. split.
  - intros Hroot Hheld Hlimit.
    destruct (onFinish_commits filled σ Hs) as (σ' & Hrun & _).
    + right. now rewrite Hstorage.
    + rewrite Hstorage. destruct Hlimit as [Hzero | Hpassed]; [|exact Hpassed].
      unfold limit_exceeded. apply Z.eqb_eq in Hzero. rewrite Hzero.
      cbn [negb]. now rewrite andb_false_r.
    + intros held Hbuffered _. rewrite Hstorage. unfold fullPathForKey.
      apply has_parent_child; [|exact Hroot].
      apply consume_keys in Hbuffered as [Hold | (r & _ & <-)];
        [now apply Hheld | apply row_entry_key_segment].
    + now exists σ'.
  - intros σ' Hok.
    destruct (onFinish_committed filled σ σ' Hs Hok) as (_ & _ & _ & Hnodes).
    rewrite Hnodes, Hstorage. apply commit_lookup; [apply NoDup_fst_map_to_list|].
    now apply elem_of_map_to_list.
Qed.

End LastWriteWins.

Lemma consume_last_write_wins_witness :
  new_values (consume [["a"; "x"]; ["b"; "y"]; ["a"; "z"]]%char (ByteColumns.sink 0))
    !! "YQ==" = Some "z" ∧
  ∃ σ', onFinish (consume [["a"; "x"]; ["b"; "y"]; ["a"; "z"]]%char (ByteColumns.sink 0))
          (ByteColumns.state [] (Some true)) = (Ok tt, σ').
Proof.
  destruct (consume_last_write_wins (ByteColumns.sink 0)
              [["a"; "x"]; ["b"; "y"]]%char [] ["a"; "z"]%char "YQ==" "z"
              (ByteColumns.state [] (Some true))) as (Hbuffer & Hcommit & _).
  - reflexivity.
  - constructor.
  - reflexivity.
  - split; [exact Hbuffer|]. apply Hcommit.
    + vm_compute. eexists. reflexivity.
    + intros held [payload Hheld]. exfalso. revert Hheld.
      change (new_values (ByteColumns.sink 0)) with (∅ : gmap string string).
      now rewrite lookup_empty.
    + now left.
Defined.

(** ** Full scans *)

Lemma unique_from_NoDup {K : Type} `{EqDecision K} (x : K) (l : list K) :
  NoDup (x :: l) → unique_from x l = x :: l.
Proof.
  revert x. induction l as [|y l IH]; intros x Hnodup; [reflexivity|].
  apply NoDup_cons in Hnodup as [Hx Hl]. cbn [unique_from].
  rewrite decide_False by (intros ->; apply Hx; left).
  now rewrite IH.
Qed.

(** Without duplicates there is nothing for [std::unique] to remove. *)
Lemma unique_NoDup {K : Type} `{EqDecision K} (l : list K) : NoDup l → unique l = l.
Proof. destruct l as [|x l]; [reflexivity | apply unique_from_NoDup]. Qed.

Lemma sort_Permutation {K : Type} `{Less K} (l : list K) : sort l ≡ₚ l.
Proof. apply merge_sort_Permutation. Qed.

Section Scan.

Context {DataType Field : Type} `{Serialization DataType Field}.
Context `{Less Field, EqDecision Field}.

Lemma collect_values_scan (table : StorageKeeperMap DataType) (key_pos : nat)
    (n : gmap string string) (keys : list string) :
  Forall (scannable table key_pos n) keys →
  ∀ (i : nat) (columns : list (Row Field)) (null_map : list Z),
    collect_values table key_pos false i keys (map (slot_of table n) keys) columns null_map
    = Ok (columns ++ omap (scan_row table key_pos n) keys, null_map).
Proof.
  induction 1 as [|key keys Hkey _ IH]; intros i columns null_map.
  - cbn. now rewrite app_nil_r.
  - cbn [map collect_values omap list_omap].
    unfold slot_of at 1, scan_row at 1. unfold scannable in Hkey.
    destruct (String.eqb_spec (fullPathForKey table key) (metadata_path table)) as [E|Hne].
    + apply IH.
    + cbn [answer_of ready_in_time value negb]. specialize (Hkey Hne).
      unfold decodable in Hkey. unfold found_row.
      destruct (n !! fullPathForKey table key) as [payload|]; cbn [error data].
      * destruct (Hkey payload eq_refl) as [row Hrow]. rewrite Hrow.
        rewrite IH, <- app_assoc. reflexivity.
      * apply IH.
Qed.

(** One fetch of a scan: the rows of the names of the batch. *)
Lemma getBySerializedKeys_scan (table : StorageKeeperMap DataType) (keys : list string)
    (σ : State) (key_pos : nat) :
  session σ = None →
  getPositionByName (sample_block table) (primary_key table) = Ok key_pos →
  Forall (scannable table key_pos (nodes σ)) keys →
  ∃ σ', getBySerializedKeys table keys false σ
          = (Ok (omap (scan_row table key_pos (nodes σ)) keys, None), σ')
        ∧ same_service σ σ'.
Proof.
  intros Hs Hpos Hkeys.
  apply (getBySerializedKeys_connected table keys false σ key_pos _ []); [exact Hs | exact Hpos |].
  now rewrite collect_values_scan.
Qed.

(** A source that is driven until it ends yields the rows of its slice,
    whatever the batch size, as long as the fuel covers the slice. *)
Lemma drain_slice (key_pos : nat) (fuel : nat) :
  ∀ (source : StorageKeeperMapSource DataType string) (σ : State),
    session σ = None →
    getPositionByName (sample_block (source_storage source))
      (primary_key (source_storage source)) = Ok key_pos →
    (0 < max_block_size source)%nat →
    Forall (scannable (source_storage source) key_pos (nodes σ)) (container source) →
    (end_ source - it source < fuel)%nat →
    ∃ σ', drain fuel source σ
            = (Ok (Some (omap (scan_row (source_storage source) key_pos (nodes σ))
                              (slice source))), σ')
          ∧ same_service σ σ'.
Proof.
  induction fuel as [|fuel IH]; intros source σ Hs Hpos Hsize Hscan Hfuel; [lia|].
  cbn [drain]. unfold generate_strings.
  destruct (Nat.leb_spec (end_ source) (it source)) as [Hdone|Hmore]; cbv iota.
  - exists σ. split; [|apply same_service_refl].
    step_bind ltac:(reflexivity).
    unfold slice. replace (end_ source - it source)%nat with 0%nat by lia.
    reflexivity.
  - set (elem_num := Nat.min (max_block_size source) (end_ source - it source)).
    assert (Helem : (1 ≤ elem_num ≤ end_ source - it source)%nat) by (subst elem_num; lia).
    destruct (getBySerializedKeys_scan (source_storage source)
                (take elem_num (drop (it source) (container source))) σ key_pos Hs Hpos)
      as (σ1 & Hfetch & Hsame1).
    { now apply Forall_take, Forall_drop. }
    destruct Hsame1 as (Hn1 & Hs1 & Hv1).
    destruct (IH (advance source (it source + elem_num)) σ1) as (σ2 & Hrest & Hsame2).
    + congruence.
    + exact Hpos.
    + exact Hsize.
    + rewrite Hn1. exact Hscan.
    + cbn [advance end_ it]. lia.
    + exists σ2. split.
      * step_bind ltac:(step_bind ltac:(exact Hfetch); reflexivity).
        step_bind ltac:(exact Hrest).
        unfold mret, M_ret. f_equal. f_equal. f_equal.
        rewrite Hn1. cbn [fst advance source_storage slice container it end_].
        unfold slice. rewrite <- omap_app. f_equal.
        cbn [advance container it end_].
        rewrite <- (drop_drop (container source) elem_num (it source)).
        rewrite take_take_drop. f_equal. lia.
      * eapply same_service_trans; [|exact Hsame2]. repeat split; assumption.
Qed.

(** All sources of a pipe, driven one after the other. *)
Lemma drain_all_slices (table : StorageKeeperMap DataType) (key_pos : nat) (fuel : nat)
    (sources : list (StorageKeeperMapSource DataType string)) :
  getPositionByName (sample_block table) (primary_key table) = Ok key_pos →
  ∀ σ,
    session σ = None →
    Forall (λ source,
              source_storage source = table ∧
              (0 < max_block_size source)%nat ∧
              Forall (scannable table key_pos (nodes σ)) (container source) ∧
              (end_ source - it source < fuel)%nat) sources →
    ∃ σ', drain_all fuel sources σ
            = (Ok (Some (omap (scan_row table key_pos (nodes σ))
                              (concat (map slice sources)))), σ')
          ∧ same_service σ σ'.
Proof.
  intros Hpos. induction sources as [|source sources IH]; intros σ Hs Hsources.
  - exists σ. split; [reflexivity | apply same_service_refl].
  - apply Forall_cons in Hsources as [(Hst & Hsize & Hscan & Hfuel) Hsources].
    destruct (drain_slice key_pos fuel source σ Hs) as (σ1 & Hrun1 & Hsame1);
      [now rewrite Hst | exact Hsize | now rewrite Hst | exact Hfuel |].
    destruct Hsame1 as (Hn1 & Hs1 & Hv1).
    destruct (IH σ1) as (σ2 & Hrun2 & Hsame2); [congruence | |].
    { eapply Forall_impl; [exact Hsources|]. intros s (? & ? & ? & ?).
      rewrite Hn1. auto. }
    exists σ2. split.
    + cbn [drain_all]. step_bind ltac:(exact Hrun1).
      step_bind ltac:(exact Hrun2).
      cbn [map concat]. rewrite omap_app, Hst, Hn1. reflexivity.
    + eapply same_service_trans; [|exact Hsame2]. repeat split; assumption.
Qed.

(** The rows of a scan over a list of names: one per name that is not the
    metadata node, in the order of the names. *)
Lemma scan_rows (table : StorageKeeperMap DataType) (key_pos : nat)
    (n : gmap string string) (names : list string) :
  Forall (λ key, fullPathForKey table key ≠ metadata_path table →
                 is_Some (found_row table key_pos n key)) names →
  Forall2 (λ key row, found_row table key_pos n key = Some row)
    (filter (λ key, fullPathForKey table key ≠ metadata_path table) names)
    (omap (scan_row table key_pos n) names).
Proof.
  induction 1 as [|key names Hkey _ IH]; [constructor|].
  rewrite filter_cons. cbn [omap list_omap]. unfold scan_row at 1.
  destruct (String.eqb_spec (fullPathForKey table key) (metadata_path table)) as [E|Hne].
  - rewrite decide_False by (intros Hne; now apply Hne). exact IH.
  - rewrite decide_True by exact Hne.
    destruct (Hkey Hne) as [row Hrow]. rewrite Hrow. now constructor.
Qed.

Lemma read_full_scan (table : StorageKeeperMap DataType) (filtered_keys : list Field)
    (max_block_size_ : nat) (num_streams : Z) (σ : State) :
  session σ = None →
  table_is_valid σ = Some true →
  is_Some (nodes σ !! root_path table) →
  read table filtered_keys true max_block_size_ num_streams σ
  = (Ok (ScanPipe (process_keys table max_block_size_ num_streams
                     (zkutil.children (nodes σ) (root_path table)))),
     add_event (Called (CGetChildren (root_path table))) σ).
Proof.
  intros Hs Hvalid [payload Hroot]. unfold read, checkTable.
  step_bind ltac:(step_bind ltac:(apply isTableValid_cached; exact Hvalid); reflexivity).
  cbv beta iota.
  step_bind ltac:(unfold zkutil.getChildren, zkutil.service;
                  cbn [session add_event nodes]; rewrite Hs, Hroot; reflexivity).
  now destruct σ.
Qed.

(** C3. A full scan on a reachable service of a valid table whose data
    nodes decode, with a requested parallelism of at least one stream and a
    positive block size: [read] makes its sources from the children of the
    root; driving every source to its end yields, over all sources together,
    exactly one row per data key, the data keys being the children of the
    root without the metadata node: the rows are the decoded nodes of a
    duplicate-free arrangement of those keys, so their number is the number
    [M] of data keys, whatever the parallelism. *)
Theorem full_scan_yields_every_data_key (table : StorageKeeperMap DataType)
    (filtered_keys : list Field) (max_block_size_ : nat) (num_streams : Z)
    (σ : State) (key_pos : nat) :
  let names := zkutil.children (nodes σ) (root_path table) in
  let keys := data_keys table (nodes σ) in
  session σ = None →
  table_is_valid σ = Some true →
  is_Some (nodes σ !! root_path table) →
  getPositionByName (sample_block table) (primary_key table) = Ok key_pos →
  Forall (decodable table key_pos (nodes σ)) keys →
  (1 ≤ num_streams < 2 ^ 32)%Z →
  (0 < max_block_size_)%nat →
  (Z.of_nat (length names) < 2 ^ 32)%Z →
  ∃ sources σ1 rows σ2 order,
    read table filtered_keys true max_block_size_ num_streams σ
    = (Ok (ScanPipe sources), σ1) ∧
    drain_all (S (length names)) sources σ1 = (Ok (Some rows), σ2) ∧
    nodes σ2 = nodes σ ∧
    order ≡ₚ keys ∧ NoDup order ∧
    Forall2 (λ key row, found_row table key_pos (nodes σ) key = Some row) order rows ∧
    length rows = length keys.
Proof.
  intros names keys Hs Hvalid Hroot Hpos Hdecode Hstreams Hblock Hcount.
  set (sorted := unique (sort names)).
  assert (Hnodup : NoDup names) by apply children_NoDup.
  assert (Hsorted : sorted = sort names).
  { apply unique_NoDup. now rewrite sort_Permutation. }
  assert (Hperm : sorted ≡ₚ names) by (rewrite Hsorted; apply sort_Permutation).
  assert (Hlen : length sorted = length names) by now rewrite Hperm.
  set (σ1 := add_event (Called (CGetChildren (root_path table))) σ).
  set (sources := process_keys table max_block_size_ num_streams names).
  assert (Hdata : ∀ key, key ∈ sorted →
            fullPathForKey table key ≠ metadata_path table →
            key ∈ keys ∧ is_Some (nodes σ !! fullPathForKey table key)).
  { intros key Hin Hne. rewrite Hperm in Hin. split.
    - apply list_elem_of_filter. split; [exact Hne | exact Hin].
    - now apply elem_of_children in Hin as [Hnode _]. }
  assert (Hscannable : Forall (scannable table key_pos (nodes σ1)) sorted).
  { apply Forall_forall. intros key Hin Hne.
    destruct (Hdata key Hin Hne) as [Hkey _].
    rewrite Forall_forall in Hdecode. now apply Hdecode. }
  assert (Hdrain : ∃ σ2, drain_all (S (length names)) sources σ1
                         = (Ok (Some (omap (scan_row table key_pos (nodes σ)) sorted)), σ2)
                         ∧ same_service σ1 σ2).
  { destruct (Nat.eq_dec (length names) 0) as [Hzero|Hnonzero].
    - apply nil_length_inv in Hzero. exists σ1.
      split; [|apply same_service_refl].
      unfold sources, sorted. rewrite Hzero. reflexivity.
    - assert (Hpos' : (0 < length sorted)%nat) by lia.
      assert (Hk : (1 ≤ Z.min num_streams (Z.of_nat (length sorted))
                    ≤ Z.of_nat (length sorted))%Z) by lia.
      assert (Hsources : sources
                = map (source_at table max_block_size_ sorted
                         (Z.min num_streams (Z.of_nat (length sorted))))
                      (seq 0 (Z.to_nat (Z.min num_streams (Z.of_nat (length sorted))))))
        by (apply process_keys_sources; [exact Hpos' | exact Hstreams | fold sorted; lia]).
      destruct (drain_all_slices table key_pos (S (length names)) sources Hpos σ1 Hs)
        as (σ2 & Hrun & Hsame).
      + rewrite Hsources. apply Forall_forall. intros source Hin.
        change (map ?f ?l) with (f <$> l) in Hin.
        apply list_elem_of_fmap in Hin as (t & -> & Ht).
        apply elem_of_seq in Ht.
        destruct (cut_bounds (length sorted) _ t Hk ltac:(lia)) as (Hlo & Hhi & _).
        unfold source_at. cbn [source_storage max_block_size container it end_].
        split; [reflexivity|]. split; [exact Hblock|]. split; [exact Hscannable|]. lia.
      + exists σ2. split; [|exact Hsame].
        rewrite Hrun, Hsources, source_at_cover by exact Hk. reflexivity. }
  destruct Hdrain as (σ2 & Hrun & Hn2 & _).
  exists sources, σ1, (omap (scan_row table key_pos (nodes σ)) sorted), σ2,
    (filter (λ key, fullPathForKey table key ≠ metadata_path table) sorted).
  assert (Hrows : Forall2 (λ key row, found_row table key_pos (nodes σ) key = Some row)
                    (filter (λ key, fullPathForKey table key ≠ metadata_path table) sorted)
                    (omap (scan_row table key_pos (nodes σ)) sorted)).
  { apply scan_rows. apply Forall_forall. intros key Hin Hne.
    destruct (Hdata key Hin Hne) as [Hkey [payload Hnode]].
    rewrite Forall_forall in Hdecode. unfold found_row. rewrite Hnode.
    now apply (Hdecode key Hkey). }
  assert (Horder : filter (λ key, fullPathForKey table key ≠ metadata_path table) sorted
                   ≡ₚ keys).
  { unfold keys, data_keys. fold names. now rewrite Hperm. }
  split; [now apply read_full_scan|].
  split; [exact Hrun|].
  split; [exact Hn2|].
  split; [exact Horder|].
  split; [apply NoDup_filter; now rewrite Hperm|].
  split; [exact Hrows|].
  rewrite <- (Forall2_length _ _ _ Hrows). now rewrite Horder.
Qed.

End Scan.

Lemma full_scan_yields_every_data_key_witness :
  ∃ sources σ1 rows σ2,
    read (ByteColumns.table 0) [] true 1 2
      (ByteColumns.state [("YQ==", "q"); ("Yg==", "r")] (Some true))
    = (Ok (ScanPipe sources), σ1) ∧
    drain_all 4 sources σ1 = (Ok (Some rows), σ2) ∧
    length rows = 2%nat.
Proof.
  destruct (full_scan_yields_every_data_key (ByteColumns.table 0) [] 1 2
              (ByteColumns.state [("YQ==", "q"); ("Yg==", "r")] (Some true)) 0)
    as (sources & σ1 & rows & σ2 & order & Hread & Hdrain & _ & _ & _ & _ & Hlength).
  - reflexivity.
  - reflexivity.
  - vm_compute. eexists. reflexivity.
  - reflexivity.
  - vm_compute. repeat constructor; intros payload [= <-]; eexists; reflexivity.
  - lia.
  - lia.
  - vm_compute. reflexivity.
  - exists sources, σ1, rows, σ2. split; [exact Hread|]. split; [exact Hdrain|].
    rewrite Hlength. vm_compute. reflexivity.
Defined.

(** ** Written rows read back *)

Section RoundTrip.

Context {DataType Field : Type} `{Serialization DataType Field}.

(** What [consume] serializes for a row of legal values, [fillColumns]
    reads back, whatever follows in the two buffers. *)
Lemma fillColumns_from_serialize_row (header : list (string * DataType)) (row : Row Field)
    (key_pos : nat) :
  Forall2 (λ col v, legal col.2 v) header row →
  ∀ (idx : nat) (key_rest value_rest : string),
    fillColumns_from header idx key_pos
      ((serialize_row header row idx key_pos EmptyString EmptyString).1 +:+ key_rest)
      ((serialize_row header row idx key_pos EmptyString EmptyString).2 +:+ value_rest)
    = Some row.
Proof.
  induction 1 as [|[name ty] v header row Hv _ IH]; intros idx key_rest value_rest;
    [reflexivity|].
  cbn [serialize_row fillColumns_from]. cbn [snd] in Hv.
  destruct (idx =? key_pos)%nat.
  - rewrite serialize_row_buffers. cbn [fst snd].
    rewrite !append_nil_l, append_assoc, Hv, IH. reflexivity.
  - rewrite serialize_row_buffers. cbn [fst snd].
    rewrite !append_nil_l, append_assoc, Hv, IH. reflexivity.
Qed.

(** The node that the sink stores for a row of legal values decodes to
    that row. *)
Lemma decode_node_row_entry (sink : StorageKeeperMapSink DataType) (row : Row Field) :
  Forall2 (λ col v, legal col.2 v) (sample_block (storage sink)) row →
  decode_node (storage sink) (primary_key_pos sink)
    (row_entry sink row).1 (row_entry sink row).2
  = Some row.
Proof.
  intros Hlegal. unfold decode_node, row_entry, fillColumns.
  pose proof (fillColumns_from_serialize_row (sample_block (storage sink)) row
                (primary_key_pos sink) Hlegal 0 EmptyString EmptyString) as Hread.
  destruct (serialize_row _ row 0 _ _ _) as [wb_key wb_value].
  cbn [fst snd] in *. rewrite !append_nil_r in Hread.
  now rewrite base64Decode_base64Encode.
Qed.

End RoundTrip.

(** ** The engine on a small table *)

Example base64Encode_bytes :
  Base64.base64Encode "a" true = "YQ==" ∧
  Base64.base64Encode "ab" true = "YWI=" ∧
  Base64.base64Encode "abc" true = "YWJj".
Proof. repeat split. Qed.

Example base64Encode_url_alphabet :
  Base64.base64Encode (String (ascii_of_N 251) (String (ascii_of_N 255) EmptyString)) true
  = "-_8=" ∧
  Base64.base64Encode (String (ascii_of_N 251) (String (ascii_of_N 255) EmptyString)) false
  = "+/8=".
Proof. split; reflexivity. Qed.

Example base64Decode_rejects_foreign_name :
  Base64.base64Decode "ch_metadata" true = None.
Proof. reflexivity. Qed.

Example getBaseName_metadata_path :
  getBaseName "/keeper_map/t/ch_metadata" = Ok "ch_metadata" ∧
  getBaseName "ch_metadata" = Throw (DBException LOGICAL_ERROR).
Proof. split; reflexivity. Qed.

(** A limit of two: two new keys go into the empty table, a third key in
    the same batch is one too many. *)
Example onFinish_limit_of_two :
  (onFinish (ByteColumns.batch 2 [["a"; "x"]; ["b"; "y"]]%char)
     (ByteColumns.state [] (Some true))).1 = Ok tt ∧
  (onFinish (ByteColumns.batch 2 [["a"; "x"]; ["b"; "y"]; ["c"; "z"]]%char)
     (ByteColumns.state [] (Some true))).1 = Throw (DBException LIMIT_EXCEEDED).
Proof. split; vm_compute; reflexivity. Qed.

(** Without the root node the transaction of a batch that creates a key
    is refused: the create finds no parent, [multi] throws [ZNONODE], and
    nothing is written. *)
Example onFinish_without_root :
  (onFinish (ByteColumns.batch 0 [["a"; "x"]%char]) (mkState ∅ None (Some true) [])).1
  = Throw (CoordinationException ZNONODE) ∧
  nodes (onFinish (ByteColumns.batch 0 [["a"; "x"]%char]) (mkState ∅ None (Some true) [])).2
  = ∅.
Proof. split; vm_compute; reflexivity. Qed.

(** A request for no stream at all gets no source; the statements about
    slices ask for one stream at least. *)
Example process_keys_without_streams :
  process_keys (ByteColumns.table 0) 1 0 ["a"; "b"] = [].
Proof. reflexivity. Qed.

(** Another table that came back under the same root keeps the metadata
    directory from being removed: the reclaim step gives up without
    raising. *)
Example dropTable_not_empty :
  (dropTable (ByteColumns.table 0) "/keeper_map/t/ch_metadata/dropped/lock"
     (mkState (<["/keeper_map/t/ch_metadata/tables" := EmptyString]>
                 (ByteColumns.dropped_tree []))
              None (Some true) [])).1 = Ok false.
Proof. vm_compute. reflexivity. Qed.

(** The metadata directory is gone already when the transaction runs: the
    logic error. *)
Example dropTable_no_node :
  (dropTable (ByteColumns.table 0) "/keeper_map/t/ch_metadata/dropped/lock"
     (mkState (delete "/keeper_map/t/ch_metadata" (ByteColumns.dropped_tree []))
              None (Some true) [])).1 = Throw (DBException LOGICAL_ERROR).
Proof. vm_compute. reflexivity. Qed.

(** * Part III: further properties of the engine *)

(** ** The base name of a path *)

Lemma find_last_of_Some (c : ascii) (s : string) (i : nat) :
  Str.find_last_of c s = Some i →
  ∃ dir, s = dir +:+ String c (Str.substr (i + 1) s) ∧
         Str.contains c (Str.substr (i + 1) s) = false.
Proof.
  revert i. induction s as [|x s IH]; intros i; [discriminate|].
  cbn [Str.find_last_of].
  destruct (Str.find_last_of c s) as [j|] eqn:Hlast.
  - intros [= <-]. destruct (IH j eq_refl) as (dir & Hs & Hc).
    exists (String x dir). cbn [Nat.add Str.substr]. split; [|exact Hc].
    rewrite append_cons. now f_equal.
  - destruct (Ascii.eqb_spec x c) as [->|]; [|discriminate].
    intros [= <-]. exists EmptyString. cbn [Nat.add Str.substr].
    split; [now rewrite append_nil_l | now apply find_last_of_None].
Qed.

Lemma substr_append (dir s : string) (c : ascii) :
  Str.substr (String.length dir + 1) (dir +:+ String c s) = s.
Proof.
  induction dir as [|x dir IH].
  - now rewrite append_nil_l.
  - rewrite append_cons. cbn [String.length Nat.add Str.substr]. exact IH.
Qed.

(** The base name of [dir/base] is [base] when [base] is one segment. *)
Lemma getBaseName_join (dir base : string) :
  Str.contains "/" base = false → getBaseName (dir +:+ "/" +:+ base) = Ok base.
Proof.
  intros Hc. unfold getBaseName.
  rewrite append_cons, append_nil_l, find_last_of_append by exact Hc.
  now rewrite substr_append.
Qed.

(** X1. [getBaseName] cuts a path at its last slash: the result is the
    part after it, which holds no slash, and the path is some directory
    part, a slash, and that result; the only failure is the logical error
    raised for a path without any slash. *)
Theorem getBaseName_splits_at_last_slash (path : string) :
  match getBaseName path with
  | Ok base => Str.contains "/" base = false ∧ ∃ dir, path = dir +:+ "/" +:+ base
  | Throw e => e = DBException LOGICAL_ERROR ∧ Str.contains "/" path = false
  end.
Proof.
  unfold getBaseName. destruct (Str.find_last_of "/" path) as [i|] eqn:Hlast.
  - apply find_last_of_Some in Hlast as (dir & Hpath & Hc).
    split; [exact Hc|]. exists dir. now rewrite append_cons, append_nil_l.
  - split; [reflexivity | now apply find_last_of_None].
Qed.

(** ** What a sink buffers *)

Section Buffer.

Context {DataType Field : Type} `{Serialization DataType Field}.

(** X2. The keys a sink holds after [consume] are the keys it held before
    and the node names of the rows of the chunk, nothing else; a node name
    holds no slash, so that the node of a row written under a non-empty name
    is a direct child of the root. *)
Theorem consume_buffers_path_segments (chunk : list (Row Field))
    (sink : StorageKeeperMapSink DataType) (key : string) :
  (is_Some (new_values (consume chunk sink) !! key) ↔
   is_Some (new_values sink !! key) ∨ ∃ row, row ∈ chunk ∧ (row_entry sink row).1 = key) ∧
  ∀ row, Str.contains "/" (row_entry sink row).1 = false ∧
         (Str.is_empty (row_entry sink row).1 = false →
          zkutil.child_name (root_path (storage sink))
            (fullPathForKey (storage sink) (row_entry sink row).1)
          = Some (row_entry sink row).1).
Proof.
  split; [apply consume_keys|]. intros row.
  split; [apply row_entry_key_segment|]. intros Hne.
  apply child_name_Some. split; [reflexivity|].
  split; [exact Hne | apply row_entry_key_segment].
Qed.

End Buffer.

(** ** The calls of a finalization *)

Lemma record_calls_cons (c : Call) (calls : list Call) (σ : State) :
  record_calls (c :: calls) σ = record_calls calls (add_event (Called c) σ).
Proof. reflexivity. Qed.

Lemma record_calls_app (calls1 calls2 : list Call) (σ : State) :
  record_calls (calls1 ++ calls2) σ = record_calls calls2 (record_calls calls1 σ).
Proof. apply foldl_app. Qed.

(** Recording calls changes the events only. *)
Lemma record_calls_state (calls : list Call) (σ : State) :
  nodes (record_calls calls σ) = nodes σ ∧
  session (record_calls calls σ) = session σ ∧
  table_is_valid (record_calls calls σ) = table_is_valid σ ∧
  events (record_calls calls σ) = events σ ++ map Called calls.
Proof.
  revert σ. induction calls as [|c calls IH]; intros σ.
  - cbn. now rewrite app_nil_r.
  - rewrite record_calls_cons.
    destruct (IH (add_event (Called c) σ)) as (Hn & Hs & Hv & He).
    rewrite Hn, Hs, Hv, He. cbn [add_event nodes session table_is_valid events map].
    now rewrite <- app_assoc.
Qed.

Lemma get_broken (path : string) (σ : State) (e : Exception) :
  session σ = Some e →
  zkutil.get path σ = (Throw e, add_event (Called (CGet path)) σ).
Proof.
  intros Hs. unfold zkutil.get, zkutil.service.
  cbn [session add_event nodes]. now rewrite Hs.
Qed.

Lemma asyncExists_broken (path : string) (σ : State) (e : Exception) :
  session σ = Some e →
  zkutil.asyncExists path σ
  = (Ok {| value := Throw e; ready_in_time := true |}, add_event (Called (CExists path)) σ).
Proof.
  intros Hs. unfold zkutil.asyncExists, zkutil.async.
  cbn [session add_event nodes]. now rewrite Hs.
Qed.

Section WriteRun.

Context {DataType Field : Type} `{Serialization DataType Field}.

(** The first loop of [onFinish] on a reachable service, with the state it
    leaves. *)
Lemma exist_responses_run (table : StorageKeeperMap DataType)
    (values : list (string * string)) (σ : State) :
  session σ = None →
  for_each (λ kv : string * string,
              response ← zkutil.asyncExists (fullPathForKey table kv.1);
              mret (kv.1, response)) values σ
  = (Ok (map (λ kv, (kv.1, exists_answer (nodes σ) (fullPathForKey table kv.1))) values),
     record_calls (map (λ kv : string * string, CExists (fullPathForKey table kv.1)) values) σ).
Proof.
  revert σ. induction values as [|kv values IH]; intros σ Hs; [reflexivity|].
  cbn [for_each map]. rewrite record_calls_cons.
  erewrite bind_Ok;
    [|erewrite bind_Ok; [reflexivity | now apply asyncExists_connected]].
  erewrite bind_Ok; [reflexivity|].
  exact (IH (add_event (Called (CExists (fullPathForKey table kv.1))) σ) Hs).
Qed.

(** The first loop of [onFinish] on a broken session: every future holds
    the exception of the session. *)
Lemma exist_responses_broken (table : StorageKeeperMap DataType)
    (values : list (string * string)) (σ : State) (e : Exception) :
  session σ = Some e →
  for_each (λ kv : string * string,
              response ← zkutil.asyncExists (fullPathForKey table kv.1);
              mret (kv.1, response)) values σ
  = (Ok (map (λ kv : string * string,
                (kv.1, {| value := Throw e; ready_in_time := true |})) values),
     record_calls (map (λ kv : string * string, CExists (fullPathForKey table kv.1)) values) σ).
Proof.
  revert σ. induction values as [|kv values IH]; intros σ Hs; [reflexivity|].
  cbn [for_each map]. rewrite record_calls_cons.
  erewrite bind_Ok;
    [|erewrite bind_Ok; [reflexivity | eapply asyncExists_broken; exact Hs]].
  erewrite bind_Ok; [reflexivity|].
  exact (IH (add_event (Called (CExists (fullPathForKey table kv.1))) σ) Hs).
Qed.

(** [onFinish] on a reachable service, the root being there when its child
    count is asked for: the outcome and the state it leaves. The transaction
    is applied as a whole or refused as a whole. *)
Lemma onFinish_run (sink : StorageKeeperMapSink DataType) (σ : State) :
  let table := storage sink in
  let m := new_values sink in
  let σ2 := record_calls (onFinish_reads table m) σ in
  session σ = None →
  (keysLimit table = 0%Z ∨ is_Some (nodes σ !! rootKeeperPath table)) →
  onFinish sink σ
  = if limit_exceeded table m (nodes σ)
    then (Throw (DBException LIMIT_EXCEEDED), σ2)
    else
      match zkutil.apply_requests (onFinish_requests table m (nodes σ)) (nodes σ) with
      | (ZOK, n') =>
          (Ok tt,
           set_nodes n' (add_event (Called (CMulti (onFinish_requests table m (nodes σ)))) σ2))
      | (code, _) =>
          (Throw (CoordinationException code),
           add_event (Called (CMulti (onFinish_requests table m (nodes σ)))) σ2)
      end.
Proof.
  intros table m σ2 Hs Hroot.
  set (σ1 := record_calls (if (keysLimit table =? 0)%Z then []
                           else [CGet (rootKeeperPath table)]) σ).
  assert (Hrun1 : (if negb (keysLimit table =? 0)%Z
                   then root ← zkutil.get (rootKeeperPath table);
                        mret (wrap64 (numChildren root.2 - 1))
                   else mret 0%Z) σ
                  = (Ok (current_keys_num table (nodes σ)), σ1)).
  { unfold current_keys_num, σ1.
    destruct (Z.eqb_spec (keysLimit table) 0) as [Hzero|Hlimit]; cbn [negb]; [reflexivity|].
    destruct Hroot as [E | [payload Hnode]]; [contradiction|].
    erewrite bind_Ok; [|eapply get_connected; eassumption]. reflexivity. }
  assert (Hs1 : session σ1 = None).
  { unfold σ1. now rewrite (proj1 (proj2 (record_calls_state _ σ))). }
  assert (Hn1 : nodes σ1 = nodes σ) by apply record_calls_state.
  assert (Hσ2 : σ2 = record_calls
                       (map (λ kv : string * string, CExists (fullPathForKey table kv.1))
                            (map_to_list m)) σ1).
  { unfold σ2, onFinish_reads. now rewrite record_calls_app. }
  assert (Hs2 : session σ2 = None).
  { rewrite Hσ2. now rewrite (proj1 (proj2 (record_calls_state _ σ1))). }
  assert (Hn2 : nodes σ2 = nodes σ).
  { rewrite Hσ2. now rewrite (proj1 (record_calls_state _ σ1)). }
  pose proof (exist_responses_run table (map_to_list m) σ1 Hs1) as Hrun2.
  rewrite Hn1, <- Hσ2 in Hrun2.
  unfold limit_exceeded. fold m.
  set (new_keys_num := count_new table (nodes σ) (map fst (map_to_list m)) 0).
  assert (Hrun : onFinish sink σ
                 = ((if negb (new_keys_num =? 0)%Z
                     then if negb (keysLimit table =? 0)%Z
                               && (wrap64 (current_keys_num table (nodes σ) + new_keys_num)
                                   >? keysLimit table)%Z
                          then throw (DBException LIMIT_EXCEEDED)
                          else mret tt
                     else mret tt);;
                    zkutil.multi (onFinish_requests table m (nodes σ))) σ2).
  { unfold onFinish. fold table. fold m.
    erewrite bind_Ok; [|exact Hrun1].
    erewrite bind_Ok; [|exact Hrun2].
    rewrite stage_requests_connected. cbn [app].
    erewrite bind_Ok; [|reflexivity]. reflexivity. }
  rewrite Hrun. clear Hrun.
  pose proof (multi_run (onFinish_requests table m (nodes σ)) σ2 Hs2) as Hmulti.
  rewrite Hn2 in Hmulti.
  destruct (new_keys_num =? 0)%Z; cbn [negb andb].
  - erewrite bind_Ok; [exact Hmulti | reflexivity].
  - destruct (negb (keysLimit table =? 0)%Z
              && (wrap64 (current_keys_num table (nodes σ) + new_keys_num)
                  >? keysLimit table)%Z).
    + reflexivity.
    + erewrite bind_Ok; [exact Hmulti | reflexivity].
Qed.

(** X3. The calls of a finalization on a reachable service, in order: with
    a limit one read of the root, then one existence check per buffered key,
    then, unless the batch is rejected, the one transaction that holds a
    request per buffered key. A rejected batch ends with the capacity error
    after the reads. A batch that is not rejected ends after the
    transaction: it returns, or the service refuses the transaction with
    [ZNONODE] because the parent of a node to create is missing, and the
    tree is as before; it returns whenever the root node is there and the
    buffered keys are node names. Nothing else is sent. *)
Theorem onFinish_calls_in_order (sink : StorageKeeperMapSink DataType) (σ : State) :
  let table := storage sink in
  let m := new_values sink in
  let r := onFinish sink σ in
  session σ = None →
  (keysLimit table = 0%Z ∨ is_Some (nodes σ !! rootKeeperPath table)) →
  length (onFinish_requests table m (nodes σ)) = size m ∧
  if limit_exceeded table m (nodes σ)
  then r.1 = Throw (DBException LIMIT_EXCEEDED) ∧
       events r.2 = events σ ++ map Called (onFinish_reads table m)
  else events r.2 = events σ ++ map Called (onFinish_reads table m)
                    ++ [Called (CMulti (onFinish_requests table m (nodes σ)))] ∧
       (r.1 = Ok tt
        ∨ r.1 = Throw (CoordinationException ZNONODE) ∧ nodes r.2 = nodes σ) ∧
       (is_Some (nodes σ !! rootKeeperPath table) →
        (∀ key, is_Some (m !! key) → Str.contains "/" key = false) →
        r.1 = Ok tt).
Proof.
  intros table m r Hs Hroot. split.
  { unfold onFinish_requests. now rewrite !length_map, length_map_to_list. }
  unfold r. rewrite (onFinish_run sink σ Hs Hroot). fold table. fold m.
  destruct (limit_exceeded table m (nodes σ)); cbn [fst snd].
  { split; [reflexivity | apply record_calls_state]. }
  assert (Hnodup : NoDup (map fst (map_to_list m))) by apply NoDup_fst_map_to_list.
  assert (Htotal : ∀ key v, (key, v) ∈ map_to_list m → m !!! key = v).
  { intros key v Hin. apply elem_of_map_to_list in Hin. now apply lookup_total_correct. }
  assert (Hevents : events (add_event (Called (CMulti (onFinish_requests table m (nodes σ))))
                              (record_calls (onFinish_reads table m) σ))
                    = events σ ++ map Called (onFinish_reads table m)
                      ++ [Called (CMulti (onFinish_requests table m (nodes σ)))]).
  { cbn [add_event events].
    rewrite (proj2 (proj2 (proj2 (record_calls_state _ σ)))). now rewrite <- app_assoc. }
  pose proof (apply_staged_requests_outcome table m (nodes σ) (map_to_list m) Hnodup Htotal
                (nodes σ) (λ _ _, eq_refl)) as Hout.
  fold (onFinish_requests table m (nodes σ)) in Hout.
  destruct (zkutil.apply_requests (onFinish_requests table m (nodes σ)) (nodes σ))
    as [code n'] eqn:Hcode.
  destruct Hout as [[= -> ->] | Hrefused].
  - cbn [fst snd]. split; [exact Hevents|]. split; [now left | reflexivity].
  - cbn [fst] in Hrefused. subst code. cbn [fst snd].
    split; [exact Hevents|]. split.
    + right. split; [reflexivity|]. cbn [add_event nodes]. apply record_calls_state.
    + intros Hnode Hnames. exfalso. unfold onFinish_requests in Hcode.
      rewrite apply_staged_requests in Hcode; [discriminate | exact Hnodup | exact Htotal | |].
      * reflexivity.
      * intros key Hin _. unfold fullPathForKey. apply has_parent_child; [|exact Hnode].
        apply Hnames. change (map fst ?l) with (l.*1) in Hin.
        apply list_elem_of_fmap in Hin as ([key' v] & -> & Hin).
        apply elem_of_map_to_list in Hin. cbn. eauto.
Qed.

(** X4. A finalization on a broken session fails with the exception of the
    session, whatever the batch and the limit are, and the node tree is as
    before; with a non-empty batch the transaction is not even sent. *)
Theorem onFinish_broken_session (sink : StorageKeeperMapSink DataType) (σ : State)
    (e : Exception) :
  session σ = Some e →
  (onFinish sink σ).1 = Throw e ∧
  nodes (onFinish sink σ).2 = nodes σ ∧
  (new_values sink ≠ ∅ → reads_only σ (onFinish sink σ).2).
Proof.
  intros Hs. set (table := storage sink). set (m := new_values sink).
  unfold onFinish. fold table. fold m.
  destruct (Z.eqb_spec (keysLimit table) 0) as [Hzero|Hlimit]; cbn [negb].
  - erewrite bind_Ok; [|reflexivity].
    erewrite bind_Ok; [|eapply exist_responses_broken; exact Hs].
    set (σ2 := record_calls _ σ).
    assert (Hn2 : nodes σ2 = nodes σ) by apply record_calls_state.
    assert (Hs2 : session σ2 = Some e).
    { unfold σ2. now rewrite (proj1 (proj2 (record_calls_state _ σ))). }
    assert (He2 : reads_only σ σ2).
    { split; [exact Hn2|]. eexists. split; [apply record_calls_state|].
      apply forallb_forall. intros ev Hin. apply List.in_map_iff in Hin as (c & <- & Hin).
      apply List.in_map_iff in Hin as (kv & <- & _). reflexivity. }
    destruct (map_to_list m) as [|[key v] values] eqn:Hlist.
    + cbn [map stage_requests]. erewrite bind_Ok; [|reflexivity]. cbn [Z.eqb negb].
      erewrite bind_Ok; [|reflexivity].
      rewrite (multi_broken _ _ e Hs2). cbn [fst snd add_event nodes].
      split; [reflexivity|]. split; [exact Hn2|].
      intros Hne. apply map_to_list_empty_iff in Hlist. contradiction.
    + cbn [map stage_requests value].
      erewrite bind_Throw; [|reflexivity]. cbn [fst snd].
      split; [reflexivity|]. split; [exact Hn2|]. intros _. exact He2.
  - erewrite bind_Throw; [|apply bind_Throw; eapply get_broken; exact Hs].
    cbn [fst snd add_event nodes]. split; [reflexivity|]. split; [reflexivity|].
    intros _. now apply reads_only_add_event.
Qed.

(** Writing a batch over a tree that holds it already changes nothing. *)
Lemma commit_idempotent (table : StorageKeeperMap DataType) (values : list (string * string))
    (n : gmap string string) :
  NoDup (map fst values) →
  commit table values (commit table values n) = commit table values n.
Proof.
  intros Hnodup. apply map_eq. intros path.
  destruct (decide (Exists (λ key, fullPathForKey table key = path) (map fst values)))
    as [Hsome | Hother].
  - apply Exists_exists in Hsome as (key & Hin & <-).
    change (map fst ?l) with (l.*1) in Hin.
    apply list_elem_of_fmap in Hin as ([key' v] & -> & Hin). cbn [fst].
    now rewrite !(commit_lookup table values _ key' v Hnodup Hin).
  - rewrite !commit_lookup_other; [reflexivity | |];
      intros key Hin E; apply Hother, Exists_exists; eauto.
Qed.

Lemma commit_keeps_nodes (table : StorageKeeperMap DataType) (values : list (string * string))
    (n : gmap string string) (path : string) :
  is_Some (n !! path) → is_Some (commit table values n !! path).
Proof.
  revert n. induction values as [|[key v] values IH]; intros n Hnode; [exact Hnode|].
  rewrite commit_cons. apply IH.
  destruct (decide (fullPathForKey table key = path)) as [->|Hne].
  - rewrite lookup_insert_eq. eauto.
  - now rewrite lookup_insert_ne.
Qed.

Lemma limit_exceeded_all_exist (table : StorageKeeperMap DataType)
    (m n : gmap string string) :
  (∀ key, is_Some (m !! key) → is_Some (n !! fullPathForKey table key)) →
  limit_exceeded table m n = false.
Proof.
  intros Hexist. unfold limit_exceeded. rewrite count_new_all_exist; [reflexivity|].
  apply Forall_forall. intros key Hin. apply Hexist.
  change (map fst ?l) with (l.*1) in Hin.
  apply list_elem_of_fmap in Hin as ([key' v] & -> & Hin).
  apply elem_of_map_to_list in Hin. cbn. eauto.
Qed.

(** What a run of [onFinish] that returns has done to the tree. *)
Lemma onFinish_returns (sink : StorageKeeperMapSink DataType) (σ σ' : State) :
  session σ = None →
  onFinish sink σ = (Ok tt, σ') →
  (keysLimit (storage sink) = 0%Z ∨ is_Some (nodes σ !! rootKeeperPath (storage sink))) ∧
  limit_exceeded (storage sink) (new_values sink) (nodes σ) = false ∧
  nodes σ' = commit (storage sink) (map_to_list (new_values sink)) (nodes σ) ∧
  session σ' = None ∧ table_is_valid σ' = table_is_valid σ.
Proof.
  intros Hs Hok.
  destruct (onFinish_committed sink σ σ' Hs Hok) as (Hroot & Hpassed & Happly & Hnodes).
  split; [exact Hroot|]. split; [exact Hpassed|]. split; [exact Hnodes|].
  rewrite (onFinish_run sink σ Hs Hroot), Hpassed in Hok.
  unfold onFinish_requests in Hok at 1. rewrite Happly in Hok.
  injection Hok as <-.
  cbn [set_nodes add_event session table_is_valid].
  destruct (record_calls_state (onFinish_reads (storage sink) (new_values sink)) σ)
    as (_ & Hs2 & Hv2 & _).
  split; congruence.
Qed.

(** X5. Finalization is idempotent: a batch that was committed on a
    reachable service can be finalized again at once, whatever the limit;
    the second run commits as well and leaves the tree as the first one
    left it. *)
Theorem onFinish_idempotent (sink : StorageKeeperMapSink DataType) (σ σ' : State) :
  session σ = None →
  onFinish sink σ = (Ok tt, σ') →
  (onFinish sink σ').1 = Ok tt ∧ nodes (onFinish sink σ').2 = nodes σ'.
Proof.
  intros Hs Hok.
  destruct (onFinish_returns sink σ σ' Hs Hok) as (Hroot & _ & Hnodes & Hs' & _).
  assert (Hroot' : keysLimit (storage sink) = 0%Z
                   ∨ is_Some (nodes σ' !! rootKeeperPath (storage sink))).
  { destruct Hroot as [E | Hnode]; [now left|]. right. rewrite Hnodes.
    now apply commit_keeps_nodes. }
  assert (Hexist : ∀ key, is_Some (new_values sink !! key) →
                          is_Some (nodes σ' !! fullPathForKey (storage sink) key)).
  { intros key [v Hv]. rewrite Hnodes.
    rewrite (commit_lookup _ _ _ key v); [eauto | apply NoDup_fst_map_to_list |].
    now apply elem_of_map_to_list. }
  assert (Happly : zkutil.apply_requests
                     (onFinish_requests (storage sink) (new_values sink) (nodes σ')) (nodes σ')
                   = (ZOK, commit (storage sink) (map_to_list (new_values sink)) (nodes σ'))).
  { apply apply_staged_requests.
    - apply NoDup_fst_map_to_list.
    - intros key v Hin. apply elem_of_map_to_list in Hin. now apply lookup_total_correct.
    - reflexivity.
    - intros key Hin Hnew. exfalso.
      change (map fst ?l) with (l.*1) in Hin.
      apply list_elem_of_fmap in Hin as ([key' v] & -> & Hin).
      apply elem_of_map_to_list in Hin. cbn [fst] in Hnew.
      destruct (Hexist key') as [payload Hnode]; [eauto|]. congruence. }
  rewrite (onFinish_run sink σ' Hs' Hroot').
  rewrite limit_exceeded_all_exist by exact Hexist.
  rewrite Happly. cbn [fst snd set_nodes nodes]. split; [reflexivity|].
  rewrite Hnodes. apply commit_idempotent, NoDup_fst_map_to_list.
Qed.

End WriteRun.

Lemma onFinish_calls_in_order_witness :
  events (onFinish (ByteColumns.batch 2 [["a"; "x"]%char])
            (ByteColumns.state [] (Some true))).2
  = [Called (CGet "/keeper_map/t");
     Called (CExists "/keeper_map/t/YQ==");
     Called (CMulti [CreateRequest "/keeper_map/t/YQ==" "x" Persistent])].
Proof.
  destruct (onFinish_calls_in_order (ByteColumns.batch 2 [["a"; "x"]%char])
              (ByteColumns.state [] (Some true))) as [_ Hrun].
  - reflexivity.
  - right. vm_compute. eexists. reflexivity.
  - vm_compute in Hrun. vm_compute. exact (proj1 Hrun).
Defined.

Lemma onFinish_broken_session_witness :
  (onFinish (ByteColumns.batch 0 [["a"; "x"]%char])
     (ByteColumns.failing_state (CoordinationException ZCONNECTIONLOSS) (Some true))).1
  = Throw (CoordinationException ZCONNECTIONLOSS).
Proof.
  exact (proj1 (onFinish_broken_session (ByteColumns.batch 0 [["a"; "x"]%char])
                  (ByteColumns.failing_state (CoordinationException ZCONNECTIONLOSS)
                     (Some true))
                  (CoordinationException ZCONNECTIONLOSS) eq_refl)).
Defined.

Lemma onFinish_idempotent_witness :
  (onFinish (ByteColumns.batch 1 [["a"; "x"]%char])
     (onFinish (ByteColumns.batch 1 [["a"; "x"]%char])
        (ByteColumns.state [] (Some true))).2).1 = Ok tt.
Proof.
  refine (proj1 (onFinish_idempotent (ByteColumns.batch 1 [["a"; "x"]%char])
                   (ByteColumns.state [] (Some true)) _ _ _)).
  - reflexivity.
  - vm_compute. reflexivity.
Defined.

(** ** The capacity limit as an invariant *)

Section CapacityInvariant.

Context {DataType Field : Type} `{Serialization DataType Field}.

(** After a commit the data nodes are those that were there and the new
    keys of the batch. *)
Lemma data_keys_commit (table : StorageKeeperMap DataType) (m n : gmap string string)
    (name : string) :
  name ∈ data_keys table (commit table (map_to_list m) n) →
  name ∈ data_keys table n ++ new_keys table m n.
Proof.
  unfold data_keys, new_keys. rewrite elem_of_app, !list_elem_of_filter.
  intros [Hdata Hchild]. apply elem_of_children in Hchild as (Hnode & Hne & Hseg).
  change (root_path table +:+ "/" +:+ name) with (fullPathForKey table name) in Hnode.
  destruct (n !! fullPathForKey table name) as [payload|] eqn:Hbefore.
  - left. split; [exact Hdata|]. apply elem_of_children.
    change (root_path table +:+ "/" +:+ name) with (fullPathForKey table name).
    rewrite Hbefore. eauto.
  - right. split; [reflexivity|].
    destruct (decide (Exists (λ key, fullPathForKey table key = fullPathForKey table name)
                        (map fst (map_to_list m)))) as [Hsome | Hother].
    + apply Exists_exists in Hsome as (key & Hin & E).
      apply fullPathForKey_inj in E. now subst key.
    + rewrite commit_lookup_other, Hbefore in Hnode; [now destruct Hnode|].
      intros key Hin E. apply Hother, Exists_exists. eauto.
Qed.

Lemma new_keys_NoDup (table : StorageKeeperMap DataType) (m n : gmap string string) :
  NoDup (new_keys table m n).
Proof. apply NoDup_filter, NoDup_fst_map_to_list. Qed.

Lemma data_keys_NoDup (table : StorageKeeperMap DataType) (n : gmap string string) :
  NoDup (data_keys table n).
Proof. apply NoDup_filter, children_NoDup. Qed.

(** X6. A finalization never takes a table over its limit: when a batch
    commits on a table with a limit [L], the metadata node being a child of
    the root, the number of data nodes afterwards is at most [L], or at most
    what it was before when that was more than [L] already (a batch that
    only overwrites is let through). *)
Theorem onFinish_respects_limit (sink : StorageKeeperMapSink DataType) (σ σ' : State)
    (base : string) :
  let table := storage sink in
  let before := Z.of_nat (length (data_keys table (nodes σ))) in
  session σ = None →
  (0 < keysLimit table)%Z →
  metadata_path table = fullPathForKey table base →
  base ∈ zkutil.children (nodes σ) (root_path table) →
  (before + Z.of_nat (size (new_values sink)) < 2 ^ 64)%Z →
  onFinish sink σ = (Ok tt, σ') →
  (Z.of_nat (length (data_keys table (nodes σ'))) ≤ Z.max (keysLimit table) before)%Z.
Proof.
  intros table before Hs Hlimit Hmeta Hbase Hbound Hok.
  destruct (onFinish_returns sink σ σ' Hs Hok) as (_ & Hfits & Hnodes & _).
  fold table in Hfits, Hnodes.
  set (m := new_values sink) in *.
  set (new := Z.of_nat (length (new_keys table m (nodes σ)))).
  assert (Hnew : (0 ≤ new ≤ Z.of_nat (size m))%Z).
  { unfold new, new_keys. pose proof (length_filter
      (λ key, nodes σ !! fullPathForKey table key = None) (map fst (map_to_list m))) as Hle.
    rewrite length_map, length_map_to_list in Hle. lia. }
  assert (Hafter : (Z.of_nat (length (data_keys table (nodes σ'))) ≤ before + new)%Z).
  { unfold before, new. rewrite <- Nat2Z.inj_add, <- length_app. apply inj_le.
    apply submseteq_length, NoDup_submseteq; [apply data_keys_NoDup|].
    intros name. rewrite Hnodes. apply data_keys_commit. }
  assert (Hcount : count_new table (nodes σ) (map fst (map_to_list m)) 0 = new).
  { rewrite count_new_length; [reflexivity | lia |].
    fold (new_keys table m (nodes σ)). fold new. unfold before in Hbound. lia. }
  assert (Hcurrent : current_keys_num table (nodes σ) = before).
  { unfold current_keys_num. destruct (Z.eqb_spec (keysLimit table) 0) as [E|_]; [lia|].
    unfold rootKeeperPath. rewrite (data_keys_count table (nodes σ) base Hmeta Hbase).
    fold before. apply wrap64_small. unfold before in *. lia. }
  unfold limit_exceeded in Hfits. rewrite Hcount, Hcurrent in Hfits.
  rewrite wrap64_small in Hfits by (unfold before in *; lia).
  destruct (Z.eqb_spec new 0) as [Hzero|Hsome]; [lia|].
  destruct (Z.eqb_spec (keysLimit table) 0) as [E|_]; [lia|].
  cbn [negb andb] in Hfits. rewrite Z.gtb_ltb in Hfits. apply Z.ltb_ge in Hfits. lia.
Qed.

End CapacityInvariant.

Lemma onFinish_respects_limit_witness :
  (Z.of_nat (length (data_keys (ByteColumns.table 2)
                       (nodes (onFinish (ByteColumns.batch 2 [["b"; "y"]%char])
                                 (ByteColumns.state [("YQ==", "q")] (Some true))).2)))
   ≤ Z.max 2 1)%Z.
Proof.
  apply (onFinish_respects_limit (ByteColumns.batch 2 [["b"; "y"]%char])
           (ByteColumns.state [("YQ==", "q")] (Some true)) _ "ch_metadata").
  - reflexivity.
  - vm_compute. reflexivity.
  - reflexivity.
  - apply elem_of_children. split; [vm_compute; eexists; reflexivity|].
    split; reflexivity.
  - vm_compute. reflexivity.
  - vm_compute. reflexivity.
Defined.

(** ** From a write to a read *)

Section WriteRead.

Context {DataType Field : Type} `{Serialization DataType Field}.

(** A sink handed out by [write] is an empty sink on the table with the
    position of the key column. *)
Lemma write_returns (table : StorageKeeperMap DataType) (sink : StorageKeeperMapSink DataType)
    (σ0 σ : State) :
  write table σ0 = (Ok sink, σ) →
  storage sink = table ∧ new_values sink = ∅ ∧
  getPositionByName (sample_block table) (primary_key table) = Ok (primary_key_pos sink).
Proof.
  unfold write, mbind, M_bind, lift, StorageKeeperMapSink_init.
  destruct (checkTable true table σ0) as [[[]|e] σ1]; [|discriminate].
  destruct (getPositionByName (sample_block table) (primary_key table)) as [pos|e];
    [|discriminate].
  intros [= <- _]. auto.
Qed.

(** The buffer holds for the key of a row the payload of that row when no
    later row of the chunk has the key. *)
Lemma consume_last_value (sink : StorageKeeperMapSink DataType)
    (before after : list (Row Field)) (row : Row Field) :
  Forall (λ later, (row_entry sink later).1 ≠ (row_entry sink row).1) after →
  new_values (consume (before ++ row :: after) sink) !! (row_entry sink row).1
  = Some (row_entry sink row).2.
Proof.
  intros Hafter.
  destruct (consume_storage before sink) as [Hst Hpos].
  assert (Hfilled : consume (before ++ row :: after) sink
                    = consume after (consume_row (consume before sink) row)).
  { unfold consume. now rewrite foldl_app. }
  destruct (consume_row_storage (consume before sink) row) as (Hst' & Hpos' & Hvalues).
  rewrite (row_entry_storage sink (consume before sink) row Hst Hpos) in Hvalues.
  rewrite Hfilled, consume_other_keys.
  - rewrite Hvalues. apply lookup_insert_eq.
  - eapply Forall_impl; [exact Hafter|]. intros later Hlater.
    rewrite (row_entry_storage sink); [exact Hlater | congruence | congruence].
Qed.

(** X7. What is written can be read back: a row whose values are legal for
    their columns, consumed by a sink that [write] handed out and committed
    by [onFinish] on a reachable service, is the row that a fetch of its
    node name returns afterwards, provided no later row of the batch has
    the same key and the name is not the one of the metadata node; the null
    map marks the key as found. *)
Theorem write_then_read_round_trip (table : StorageKeeperMap DataType)
    (sink : StorageKeeperMapSink DataType) (before after : list (Row Field))
    (row : Row Field) (σ0 σ σ' : State) :
  write table σ0 = (Ok sink, σ) →
  session σ = None →
  Forall2 (λ col v, legal col.2 v) (sample_block table) row →
  Forall (λ later, (row_entry sink later).1 ≠ (row_entry sink row).1) after →
  fullPathForKey table (row_entry sink row).1 ≠ metadata_path table →
  onFinish (consume (before ++ row :: after) sink) σ = (Ok tt, σ') →
  (getBySerializedKeys table [(row_entry sink row).1] true σ').1 = Ok ([row], Some [1%Z]) ∧
  (getBySerializedKeys table [(row_entry sink row).1] false σ').1 = Ok ([row], None).
Proof.
  intros Hwrite Hs Hlegal Hafter Hdata Hok.
  destruct (write_returns table sink σ0 σ Hwrite) as (Hst & _ & Hpos).
  set (key := (row_entry sink row).1) in *.
  set (filled := consume (before ++ row :: after) sink) in *.
  assert (Hstorage : storage filled = table).
  { rewrite <- Hst. apply consume_storage. }
  destruct (onFinish_returns filled σ σ' Hs Hok) as (_ & _ & Hnodes & Hs' & _).
  rewrite Hstorage in Hnodes.
  assert (Hnode : nodes σ' !! fullPathForKey table key = Some (row_entry sink row).2).
  { rewrite Hnodes. apply commit_lookup; [apply NoDup_fst_map_to_list|].
    apply elem_of_map_to_list. now apply consume_last_value. }
  assert (Hdecode : decode_node table (primary_key_pos sink) key (row_entry sink row).2
                    = Some row).
  { rewrite <- Hst. apply decode_node_row_entry. now rewrite Hst. }
  assert (Hslot : slot_of table (nodes σ') key
                  = Some (answer_of (nodes σ') (fullPathForKey table key))).
  { unfold slot_of. apply String.eqb_neq in Hdata. now rewrite Hdata. }
  assert (Hcollect : ∀ with_null_map,
    collect_values table (primary_key_pos sink) with_null_map 0 [key]
      (map (slot_of table (nodes σ')) [key]) []
      (if with_null_map then replicate (length [key]) 1%Z else [])
    = Ok ([row], if with_null_map then [1%Z] else [])).
  { intros with_null_map. cbn [map]. rewrite Hslot.
    cbn [collect_values answer_of ready_in_time value negb]. rewrite Hnode.
    cbn [error data]. rewrite Hdecode. now destruct with_null_map. }
  split.
  - destruct (getBySerializedKeys_connected table [key] true σ' _ _ _ Hs' Hpos
                (Hcollect true)) as (σ1 & Hrun & _).
    now rewrite Hrun.
  - destruct (getBySerializedKeys_connected table [key] false σ' _ _ _ Hs' Hpos
                (Hcollect false)) as (σ1 & Hrun & _).
    now rewrite Hrun.
Qed.

End WriteRead.

Lemma write_then_read_round_trip_witness :
  (getBySerializedKeys (ByteColumns.table 0) ["YQ=="] true
     (onFinish (consume [["a"; "x"]%char] (ByteColumns.sink 0))
        (ByteColumns.state [] (Some true))).2).1
  = Ok ([["a"; "x"]%char], Some [1%Z]).
Proof.
  refine (proj1 (write_then_read_round_trip (ByteColumns.table 0) (ByteColumns.sink 0)
                   [] [] ["a"; "x"]%char
                   (ByteColumns.state [] (Some true)) (ByteColumns.state [] (Some true))
                   _ _ _ _ _ _ _)).
  - reflexivity.
  - reflexivity.
  - repeat constructor; intros rest; reflexivity.
  - constructor.
  - vm_compute. discriminate.
  - vm_compute. reflexivity.
Defined.

(** ** Paths and subtrees *)

Lemma length_append (a b : string) :
  String.length (a +:+ b) = String.length a + String.length b.
Proof.
  induction a as [|x a IH]; [now rewrite append_nil_l|].
  rewrite append_cons. cbn [String.length]. now rewrite IH.
Qed.

Lemma below_iff (parent p : string) :
  zkutil.below parent p = true ↔ ∃ rest, p = parent +:+ String "/" rest.
Proof.
  unfold zkutil.below. split.
  - destruct (Str.strip_prefix (parent +:+ "/") p) as [rest|] eqn:E; [|discriminate].
    intros _. exists rest. apply strip_prefix_Some in E.
    now rewrite E, append_assoc, append_cons, append_nil_l.
  - intros [rest ->].
    replace (parent +:+ String "/" rest) with ((parent +:+ "/") +:+ rest)
      by now rewrite append_assoc, append_cons, append_nil_l.
    now rewrite strip_prefix_append.
Qed.

Lemma below_join (parent rest : string) :
  zkutil.below parent (parent +:+ String "/" rest) = true.
Proof. apply below_iff. eauto. Qed.

Lemma below_child (parent name : string) :
  zkutil.below parent (parent +:+ "/" +:+ name) = true.
Proof. rewrite append_cons, append_nil_l. apply below_join. Qed.

Lemma below_trans (a b c : string) :
  zkutil.below a b = true → zkutil.below b c = true → zkutil.below a c = true.
Proof.
  intros [r1 ->]%below_iff [r2 ->]%below_iff. apply below_iff.
  exists (r1 +:+ String "/" r2). now rewrite append_assoc, append_cons.
Qed.

Lemma below_length (parent p : string) :
  zkutil.below parent p = true → String.length parent < String.length p.
Proof.
  intros [rest ->]%below_iff. rewrite length_append. cbn [String.length]. lia.
Qed.

Lemma below_irrefl (p : string) : zkutil.below p p = false.
Proof.
  destruct (zkutil.below p p) eqn:E; [|reflexivity].
  apply below_length in E. lia.
Qed.

(** A path below a child of [root] is not itself a child of [root]. *)
Lemma below_child_slash (root base name : string) :
  zkutil.below (root +:+ "/" +:+ base) (root +:+ "/" +:+ name) = true →
  Str.contains "/" name = true.
Proof.
  intros [rest E]%below_iff. rewrite append_assoc in E.
  apply append_inv_head in E. rewrite !append_cons, !append_nil_l in E.
  injection E as ->. rewrite contains_append. cbn. apply orb_true_r.
Qed.

Lemma children_nil (n : gmap string string) (parent : string) :
  (∀ name, Str.contains "/" name = false → n !! (parent +:+ "/" +:+ name) = None) →
  zkutil.children n parent = [].
Proof.
  intros Hnone. destruct (zkutil.children n parent) as [|name l] eqn:E; [reflexivity|].
  assert (Hin : name ∈ zkutil.children n parent) by (rewrite E; left).
  apply elem_of_children in Hin as ([v Hv] & _ & Hseg).
  rewrite Hnone in Hv by exact Hseg. discriminate.
Qed.

Lemma sweep_lookup (path : string) (keep_child : zkutil.RemoveException)
    (n : gmap string string) (p : string) :
  zkutil.sweep path keep_child n !! p
  = if zkutil.survives path keep_child p then n !! p else None.
Proof.
  unfold zkutil.sweep. destruct (zkutil.survives path keep_child p) eqn:Hp.
  - apply option_eq. intros v. rewrite map_lookup_filter_Some. cbn [fst]. tauto.
  - apply map_lookup_filter_None. right. intros v _. cbn [fst]. congruence.
Qed.

(** With a kept child [base] whose subtree stays, a path survives the walk
    of [root] when it is not below [root], or is the kept child, or is below
    the kept child. *)
Lemma survives_kept (root base p : string) :
  Str.is_empty base = false →
  zkutil.survives root {| zkutil.keep_path := base; zkutil.remove_subtree := false |} p
  = negb (zkutil.below root p) || String.eqb p (root +:+ "/" +:+ base)
    || zkutil.below (root +:+ "/" +:+ base) p.
Proof.
  intros Hbase. unfold zkutil.survives. cbn [zkutil.keep_path zkutil.remove_subtree].
  rewrite Hbase. destruct (zkutil.below root p); cbn [negb orb]; [|reflexivity].
  destruct (String.eqb p (root +:+ "/" +:+ base)); cbn [negb orb andb]; [reflexivity|].
  apply andb_true_r.
Qed.

(** ** Single steps on a reachable service *)

Lemma tryMulti_ok (requests : list Request) (σ : State) (n' : gmap string string) :
  session σ = None →
  zkutil.apply_requests requests (nodes σ) = (ZOK, n') →
  zkutil.tryMulti requests σ
  = (Ok ZOK, set_nodes n' (add_event (Called (CMulti requests)) σ)).
Proof.
  intros Hs Happly. unfold zkutil.tryMulti, zkutil.service.
  cbn [session add_event nodes]. rewrite Hs, Happly. reflexivity.
Qed.

Lemma tryMulti_failed (requests : list Request) (σ : State) (code : Error)
    (n' : gmap string string) :
  session σ = None →
  zkutil.apply_requests requests (nodes σ) = (code, n') →
  code ≠ ZOK →
  zkutil.tryMulti requests σ
  = (Ok code, set_nodes (nodes σ) (add_event (Called (CMulti requests)) σ)).
Proof.
  intros Hs Happly Hcode. unfold zkutil.tryMulti, zkutil.service.
  cbn [session add_event nodes]. rewrite Hs, Happly.
  destruct code; [contradiction | reflexivity..].
Qed.

Lemma removeChildrenRecursive_connected (path : string)
    (keep_child : zkutil.RemoveException) (σ : State) :
  session σ = None →
  zkutil.removeChildrenRecursive path keep_child σ
  = (Ok tt, set_nodes (zkutil.sweep path keep_child (nodes σ))
              (add_event (Called (CRemoveChildren path)) σ)).
Proof.
  intros Hs. unfold zkutil.removeChildrenRecursive, zkutil.service.
  cbn [session add_event nodes]. now rewrite Hs.
Qed.

Lemma tryRemoveChildrenRecursive_connected (path : string) (probably_flat : bool)
    (keep_child : zkutil.RemoveException) (σ : State) :
  session σ = None →
  ZooKeeper.tryRemoveChildrenRecursive path probably_flat keep_child σ
  = (Ok true, set_nodes (zkutil.sweep path keep_child (nodes σ))
                (add_event (Called (CRemoveChildren path)) σ)).
Proof.
  intros Hs. unfold ZooKeeper.tryRemoveChildrenRecursive, zkutil.service.
  cbn [session add_event nodes]. now rewrite Hs.
Qed.

Lemma getChildren_connected (path payload : string) (σ : State) :
  session σ = None →
  nodes σ !! path = Some payload →
  zkutil.getChildren path σ
  = (Ok (zkutil.children (nodes σ) path), add_event (Called (CGetChildren path)) σ).
Proof.
  intros Hs Hnode. unfold zkutil.getChildren, zkutil.service.
  cbn [session add_event nodes]. rewrite Hs, Hnode. now destruct σ.
Qed.

Lemma apply_request_remove_ok (path payload : string) (n : gmap string string) :
  n !! path = Some payload →
  zkutil.children n path = [] →
  zkutil.apply_request (RemoveRequest path) n = (ZOK, delete path n).
Proof. intros Hnode Hchildren. cbn [zkutil.apply_request]. now rewrite Hnode, Hchildren. Qed.

Lemma apply_request_create_ok (path data : string) (mode : CreateMode)
    (n : gmap string string) :
  zkutil.has_parent n path = true →
  n !! path = None →
  zkutil.apply_request (CreateRequest path data mode) n = (ZOK, <[path := data]> n).
Proof. intros Hparent Hnode. cbn [zkutil.apply_request]. now rewrite Hparent, Hnode. Qed.

Section Guard.

Context {DataType Field : Type} `{Serialization DataType Field}.

Lemma checkTable_valid (table : StorageKeeperMap DataType) (throw_on_error : bool)
    (σ : State) :
  table_is_valid σ = Some true → checkTable throw_on_error table σ = (Ok tt, σ).
Proof.
  intros Hvalid. unfold checkTable.
  erewrite bind_Ok; [|eapply isTableValid_cached; exact Hvalid]. reflexivity.
Qed.

Lemma checkTable_invalid (table : StorageKeeperMap DataType) (σ : State) :
  table_is_valid σ = Some false →
  checkTable true table σ = (Throw (DBException INVALID_STATE), σ).
Proof.
  intros Hvalid. unfold checkTable.
  erewrite bind_Ok; [|eapply isTableValid_cached; exact Hvalid]. reflexivity.
Qed.

(** [dropTable] on a reachable service: the walk, then the transaction of
    the three removals on the tree the walk left, whose code decides. *)
Lemma dropTable_run (table : StorageKeeperMap DataType) (metadata_drop_lock : string)
    (σ : State) (base : string) :
  session σ = None →
  getBaseName (metadata_path table) = Ok base →
  let swept :=
    zkutil.sweep (root_path table)
      {| zkutil.keep_path := base; zkutil.remove_subtree := false |} (nodes σ) in
  let ops := [RemoveRequest metadata_drop_lock;
              RemoveRequest (dropped_path table);
              RemoveRequest (metadata_path table)] in
  let r := dropTable table metadata_drop_lock σ in
  session r.2 = None ∧ table_is_valid r.2 = table_is_valid σ ∧
  match zkutil.apply_requests ops swept with
  | (ZOK, n') => r.1 = Ok true ∧ nodes r.2 = n'
  | (ZNOTEMPTY, _) => r.1 = Ok false ∧ nodes r.2 = swept
  | (ZNONODE, _) => r.1 = Throw (DBException LOGICAL_ERROR) ∧ nodes r.2 = swept
  | (code, _) => r.1 = Throw (CoordinationException code) ∧ nodes r.2 = swept
  end.
Proof.
  intros Hs Hbase swept ops r.
  destruct σ as [n s v ev]. cbn [session] in Hs. subst s. cbn [nodes] in swept.
  subst r. unfold dropTable. rewrite Hbase. run_M.
  fold swept. fold ops.
  destruct (zkutil.apply_requests ops swept) as [c n'].
  destruct c; cbn; auto.
Qed.

(** X8. When the reclaim step reports success, the root is left without
    children: the walk took every child but the metadata node, and the
    transaction took the metadata node. Nodes that are not below the root
    are as before, the lock and the dropped marker apart, which are gone
    wherever they were. *)
Theorem dropTable_success_clears_root (table : StorageKeeperMap DataType)
    (metadata_drop_lock : string) (σ : State) (base : string) :
  let r := dropTable table metadata_drop_lock σ in
  session σ = None →
  Str.is_empty base = false →
  Str.contains "/" base = false →
  metadata_path table = root_path table +:+ "/" +:+ base →
  r.1 = Ok true →
  zkutil.children (nodes r.2) (root_path table) = [] ∧
  nodes r.2 !! metadata_drop_lock = None ∧
  nodes r.2 !! dropped_path table = None ∧
  ∀ p, zkutil.below (root_path table) p = false →
       p ≠ metadata_drop_lock → p ≠ dropped_path table →
       nodes r.2 !! p = nodes σ !! p.
Proof.
  intros r Hs Hne Hseg Hmeta Hok.
  assert (Hbase : getBaseName (metadata_path table) = Ok base).
  { rewrite Hmeta. now apply getBaseName_join. }
  destruct (dropTable_run table metadata_drop_lock σ base Hs Hbase) as (_ & _ & Hrun).
  fold r in Hrun.
  set (keep := {| zkutil.keep_path := base; zkutil.remove_subtree := false |}) in *.
  set (swept := zkutil.sweep (root_path table) keep (nodes σ)) in *.
  pose proof (apply_requests_three_removals metadata_drop_lock (dropped_path table)
                (metadata_path table) swept) as Hcases.
  cbv zeta in Hcases.
  destruct (zkutil.apply_requests
              [RemoveRequest metadata_drop_lock; RemoveRequest (dropped_path table);
               RemoveRequest (metadata_path table)] swept) as [code n'].
  cbn [fst snd] in Hcases.
  destruct Hcases as [[-> ->] | [-> | ->]];
    [|destruct Hrun as [Hrun _]; rewrite Hok in Hrun; discriminate..].
  destruct Hrun as [_ Hnodes]. rewrite Hnodes.
  assert (Hlookup : ∀ p, delete (metadata_path table)
                           (delete (dropped_path table)
                              (delete metadata_drop_lock swept)) !! p
                         = if decide (p = metadata_path table) then None
                           else if decide (p = dropped_path table) then None
                           else if decide (p = metadata_drop_lock) then None
                           else swept !! p).
  { intros p. destruct (decide (p = metadata_path table)) as [->|H1].
    { apply lookup_delete_eq. }
    rewrite lookup_delete_ne by congruence.
    destruct (decide (p = dropped_path table)) as [->|H2].
    { apply lookup_delete_eq. }
    rewrite lookup_delete_ne by congruence.
    destruct (decide (p = metadata_drop_lock)) as [->|H3].
    { apply lookup_delete_eq. }
    now rewrite lookup_delete_ne by congruence. }
  split; [|split; [|split]].
  - apply children_nil. intros name Hname. rewrite Hlookup.
    destruct (decide (root_path table +:+ "/" +:+ name = metadata_path table))
      as [E|Hother]; [reflexivity|].
    destruct (decide (root_path table +:+ "/" +:+ name = dropped_path table));
      [reflexivity|].
    destruct (decide (root_path table +:+ "/" +:+ name = metadata_drop_lock));
      [reflexivity|].
    destruct (swept !! (root_path table +:+ "/" +:+ name)) as [v|] eqn:Hnode;
      [|reflexivity].
    exfalso. unfold swept in Hnode. rewrite sweep_lookup in Hnode. unfold keep in Hnode.
    rewrite survives_kept in Hnode by exact Hne.
    rewrite below_child in Hnode. cbn [negb orb] in Hnode. rewrite <- Hmeta in Hnode.
    destruct (String.eqb_spec (root_path table +:+ "/" +:+ name) (metadata_path table))
      as [E|_]; [contradiction|].
    cbn [orb] in Hnode.
    destruct (zkutil.below (metadata_path table) (root_path table +:+ "/" +:+ name))
      eqn:Hbelow; [|discriminate].
    rewrite Hmeta in Hbelow. apply below_child_slash in Hbelow. congruence.
  - rewrite Hlookup. repeat case_decide; congruence.
  - rewrite Hlookup. repeat case_decide; congruence.
  - intros p Hout Hlock Hdropped. rewrite Hlookup.
    rewrite decide_False.
    + rewrite !decide_False by assumption.
      unfold swept. rewrite sweep_lookup. unfold keep.
      rewrite survives_kept by exact Hne. now rewrite Hout.
    + intros ->. rewrite Hmeta, below_child in Hout. discriminate.
Qed.

End Guard.

Lemma dropTable_success_clears_root_witness :
  zkutil.children
    (nodes (dropTable (ByteColumns.table 0) "/keeper_map/t/ch_metadata/dropped/lock"
              (mkState (ByteColumns.dropped_tree [("YQ==", "q")]) None (Some true) [])).2)
    "/keeper_map/t" = [].
Proof.
  refine (proj1 (dropTable_success_clears_root (ByteColumns.table 0)
                   "/keeper_map/t/ch_metadata/dropped/lock"
                   (mkState (ByteColumns.dropped_tree [("YQ==", "q")]) None (Some true) [])
                   "ch_metadata" _ _ _ _ _)).
  - reflexivity.
  - reflexivity.
  - reflexivity.
  - reflexivity.
  - vm_compute. reflexivity.
Defined.

(** ** Truncating and dropping a table *)

Lemma below_neq (a b : string) : zkutil.below a b = true → a ≠ b.
Proof. intros Hbelow ->. rewrite below_irrefl in Hbelow. discriminate. Qed.

(** No path under the dropped marker is a path under the tables
    directory. *)
Lemma dropped_not_tables (m s1 s2 : string) :
  (m +:+ "/dropped") +:+ s1 ≠ (m +:+ "/tables") +:+ s2.
Proof.
  rewrite !append_assoc. intros E. apply append_inv_head in E.
  rewrite !append_cons in E. discriminate.
Qed.

Section Drop.

Context {DataType Field : Type} `{Serialization DataType Field}.
Context `{Less Field, EqDecision Field}.

(** What the layout says about the paths of a table. *)
Lemma layout_paths (table : StorageKeeperMap DataType) (base id : string) :
  layout table base id →
  getBaseName (metadata_path table) = Ok base ∧
  zkutil.below (root_path table) (metadata_path table) = true ∧
  zkutil.below (metadata_path table) (tables_path table) = true ∧
  zkutil.below (tables_path table) (table_path table) = true ∧
  zkutil.below (metadata_path table) (dropped_path table) = true ∧
  zkutil.below (dropped_path table) (dropped_lock_path table) = true ∧
  (∀ s1 s2, dropped_path table +:+ s1 ≠ tables_path table +:+ s2).
Proof.
  intros (Hne & Hseg & Hmeta & Htables & Htable & Hdropped & Hlock).
  split; [rewrite Hmeta; now apply getBaseName_join|].
  split; [rewrite Hmeta; apply below_child|].
  split; [rewrite Htables; apply below_join|].
  split; [rewrite Htable; apply below_child|].
  split; [rewrite Hdropped; apply below_join|].
  split; [rewrite Hlock; apply below_join|].
  intros s1 s2. rewrite Hdropped, Htables. apply dropped_not_tables.
Qed.

(** The tree that the walk of [dropTable] or [truncate] leaves. *)
Lemma swept_lookup (table : StorageKeeperMap DataType) (base id : string)
    (n : gmap string string) (p : string) :
  layout table base id →
  zkutil.sweep (root_path table)
    {| zkutil.keep_path := base; zkutil.remove_subtree := false |} n !! p
  = if negb (zkutil.below (root_path table) p) || String.eqb p (metadata_path table)
       || zkutil.below (metadata_path table) p
    then n !! p else None.
Proof.
  intros (Hne & Hseg & Hmeta & _). rewrite sweep_lookup, survives_kept by exact Hne.
  now rewrite <- Hmeta.
Qed.

Lemma truncate_run (table : StorageKeeperMap DataType) (base id : string) (σ : State) :
  session σ = None →
  table_is_valid σ = Some true →
  layout table base id →
  truncate table σ
  = (Ok tt,
     set_nodes (zkutil.sweep (root_path table)
                  {| zkutil.keep_path := base; zkutil.remove_subtree := false |} (nodes σ))
       (add_event (Called (CRemoveChildren (root_path table))) σ)).
Proof.
  intros Hs Hvalid Hlayout. destruct (layout_paths table base id Hlayout) as (Hbase & _).
  unfold truncate.
  erewrite bind_Ok; [|eapply checkTable_valid; exact Hvalid].
  rewrite Hbase. erewrite bind_Ok; [|reflexivity].
  erewrite bind_Ok; [|eapply tryRemoveChildrenRecursive_connected; exact Hs].
  reflexivity.
Qed.

(** X9. [truncate] on a valid table and a reachable service returns and
    leaves no data node: every child of the root but the metadata node is
    gone. The metadata node, everything below it and everything that is not
    below the root are as before. *)
Theorem truncate_removes_data_only (table : StorageKeeperMap DataType) (base id : string)
    (σ : State) :
  let r := truncate table σ in
  session σ = None →
  table_is_valid σ = Some true →
  layout table base id →
  r.1 = Ok tt ∧
  data_keys table (nodes r.2) = [] ∧
  ∀ p, zkutil.below (root_path table) p = false ∨ p = metadata_path table
       ∨ zkutil.below (metadata_path table) p = true →
       nodes r.2 !! p = nodes σ !! p.
Proof.
  intros r Hs Hvalid Hlayout. unfold r.
  rewrite (truncate_run table base id σ Hs Hvalid Hlayout). cbn [fst snd set_nodes nodes].
  split; [reflexivity|]. split.
  - unfold data_keys.
    destruct (filter _ _) as [|name l] eqn:E; [reflexivity|]. exfalso.
    assert (Hin : name ∈ name :: l) by left. rewrite <- E in Hin.
    apply list_elem_of_filter in Hin as [Hdata Hchild].
    apply elem_of_children in Hchild as ([v Hnode] & _ & Hname).
    rewrite (swept_lookup table base id) in Hnode by exact Hlayout.
    rewrite below_child in Hnode. cbn [negb orb] in Hnode.
    change (root_path table +:+ "/" +:+ name) with (fullPathForKey table name) in Hnode.
    destruct (String.eqb_spec (fullPathForKey table name) (metadata_path table))
      as [E'|_]; [contradiction|].
    cbn [orb] in Hnode.
    destruct (zkutil.below (metadata_path table) (fullPathForKey table name)) eqn:Hbelow;
      [|discriminate].
    destruct Hlayout as (_ & _ & Hmeta & _). rewrite Hmeta in Hbelow.
    apply below_child_slash in Hbelow. congruence.
  - intros p Hkept. rewrite (swept_lookup table base id) by exact Hlayout.
    destruct Hkept as [Hout | [-> | Hbelow]].
    + now rewrite Hout.
    + now rewrite String.eqb_refl, orb_true_r.
    + now rewrite Hbelow, orb_true_r.
Qed.

(** X10. No operation runs on a table known to be invalid: [read],
    [write], [truncate] and [drop] all fail with the invalid-state error
    before anything is sent to the service; the state is untouched. *)
Theorem invalid_table_fails_fast (table : StorageKeeperMap DataType)
    (filtered_keys : list Field) (all_scan : bool) (max_block_size_ : nat)
    (num_streams : Z) (σ : State) :
  table_is_valid σ = Some false →
  read table filtered_keys all_scan max_block_size_ num_streams σ
  = (Throw (DBException INVALID_STATE), σ) ∧
  write table σ = (Throw (DBException INVALID_STATE), σ) ∧
  truncate table σ = (Throw (DBException INVALID_STATE), σ) ∧
  Storage.drop table σ = (Throw (DBException INVALID_STATE), σ).
Proof.
  intros Hvalid. pose proof (checkTable_invalid table σ Hvalid) as Hcheck.
  split; [|split; [|split]]; now apply bind_Throw.
Qed.

(** X11. A table that is dropped while the marker of another table is in
    the tables directory takes away its own marker only: the call returns,
    and the data nodes, the metadata nodes and the other marker are as
    before. *)
Theorem drop_keeps_shared_metadata (table : StorageKeeperMap DataType) (base id other : string)
    (σ : State) :
  let r := Storage.drop table σ in
  session σ = None →
  table_is_valid σ = Some true →
  layout table base id →
  is_Some (nodes σ !! tables_path table) →
  is_Some (nodes σ !! table_path table) →
  zkutil.children (nodes σ) (table_path table) = [] →
  other ∈ zkutil.children (nodes σ) (tables_path table) →
  other ≠ id →
  r.1 = Ok tt ∧ nodes r.2 = delete (table_path table) (nodes σ).
Proof.
  intros r Hs Hvalid Hlayout [payload' Htables] [payload Hmarker] Hleaf Hother Hne.
  destruct (layout_paths table base id Hlayout) as (_ & _ & _ & Hbelow & _).
  destruct Hlayout as (_ & _ & _ & _ & Htable & _).
  assert (Htables' : delete (table_path table) (nodes σ) !! tables_path table
                     = Some payload').
  { rewrite lookup_delete_ne; [exact Htables|].
    intros E. symmetry in E. now apply below_neq in E. }
  assert (Hleft : other ∈ zkutil.children (delete (table_path table) (nodes σ))
                            (tables_path table)).
  { apply elem_of_children in Hother as (Hnode & Hseg).
    apply elem_of_children. split; [|exact Hseg].
    rewrite lookup_delete_ne; [exact Hnode|].
    rewrite Htable. intros E. apply append_inv_head in E.
    apply (append_inv_head "/") in E. congruence. }
  unfold r.
  destruct (zkutil.children (delete (table_path table) (nodes σ)) (tables_path table))
    as [|name names] eqn:Hchildren; [now apply elem_of_nil in Hleft|].
  assert (Hrun : Storage.drop table σ
                 = (Ok tt,
                    add_event (Called (CGetChildren (tables_path table)))
                      (set_nodes (delete (table_path table) (nodes σ))
                         (add_event (Called (CMulti [RemoveRequest (table_path table)]))
                            σ)))).
  { unfold Storage.drop.
    erewrite bind_Ok; [|eapply checkTable_valid; exact Hvalid].
    erewrite bind_Ok; [|apply multi_connected; [exact Hs|]; cbn [zkutil.apply_requests];
                        now rewrite (apply_request_remove_ok _ payload) by assumption].
    erewrite bind_Ok; [|eapply getChildren_connected; [exact Hs | exact Htables']].
    cbn [set_nodes add_event nodes]. rewrite Hchildren. reflexivity. }
  rewrite Hrun. split; reflexivity.
Qed.

End Drop.

Lemma truncate_removes_data_only_witness :
  data_keys (ByteColumns.table 0)
    (nodes (truncate (ByteColumns.table 0)
              (ByteColumns.state [("YQ==", "q"); ("Yg==", "r")] (Some true))).2) = [].
Proof.
  refine (proj1 (proj2 (truncate_removes_data_only (ByteColumns.table 0)
                          "ch_metadata" "0001"
                          (ByteColumns.state [("YQ==", "q"); ("Yg==", "r")] (Some true))
                          _ _ _))).
  - reflexivity.
  - reflexivity.
  - repeat split.
Defined.

Lemma invalid_table_fails_fast_witness :
  Storage.drop (ByteColumns.table 0) (ByteColumns.state [("YQ==", "q")] (Some false))
  = (Throw (DBException INVALID_STATE), ByteColumns.state [("YQ==", "q")] (Some false)).
Proof.
  refine (proj2 (proj2 (proj2 (invalid_table_fails_fast (ByteColumns.table 0)
                                 [] true 1 1
                                 (ByteColumns.state [("YQ==", "q")] (Some false)) _)))).
  reflexivity.
Defined.

Lemma drop_keeps_shared_metadata_witness :
  nodes (Storage.drop (ByteColumns.table 0)
           (mkState (<["/keeper_map/t/ch_metadata/tables/0002" := EmptyString]>
                       (ByteColumns.tree [("YQ==", "q")]))
                    None (Some true) [])).2
  = delete "/keeper_map/t/ch_metadata/tables/0001"
      (<["/keeper_map/t/ch_metadata/tables/0002" := EmptyString]>
         (ByteColumns.tree [("YQ==", "q")])).
Proof.
  refine (proj2 (drop_keeps_shared_metadata (ByteColumns.table 0) "ch_metadata" "0001" "0002"
                   (mkState (<["/keeper_map/t/ch_metadata/tables/0002" := EmptyString]>
                               (ByteColumns.tree [("YQ==", "q")]))
                            None (Some true) [])
                   _ _ _ _ _ _ _ _)).
  - reflexivity.
  - reflexivity.
  - repeat split.
  - vm_compute. eexists. reflexivity.
  - vm_compute. eexists. reflexivity.
  - vm_compute. reflexivity.
  - apply elem_of_children. split; [vm_compute; eexists; reflexivity|].
    split; reflexivity.
  - discriminate.
Defined.

(** ** The last table reclaims the nodes *)

Lemma elem_of_two {A : Type} (x a b : A) : x ∈ [a; b] ↔ x = a ∨ x = b.
Proof. rewrite !elem_of_cons, elem_of_nil. tauto. Qed.

(** A holder whose scope ends after its node was reported removed does
    nothing more. *)
Lemma scope_already_removed (path : string) (body : M bool) (σ σ' : State) :
  body σ = (Ok true, σ') → EphemeralNodeHolder.scope path body σ = (Ok true, σ').
Proof.
  intros Hbody. unfold EphemeralNodeHolder.scope, try_catch.
  erewrite bind_Ok; [|exact Hbody]. reflexivity.
Qed.

Section LastTable.

Context {DataType Field : Type} `{Serialization DataType Field}.

(** The reclaim step on a tree whose metadata node holds the dropped marker
    and its lock and nothing else: it succeeds, and everything below the
    root is gone. *)
Lemma dropTable_reclaims (table : StorageKeeperMap DataType) (base id : string) (σ : State) :
  session σ = None →
  layout table base id →
  is_Some (nodes σ !! metadata_path table) →
  metadata_holds table [dropped_path table; dropped_lock_path table] (nodes σ) →
  let r := dropTable table (dropped_lock_path table) σ in
  r.1 = Ok true ∧ cleared (root_path table) (nodes σ) (nodes r.2).
Proof.
  intros Hs Hlayout [meta Hmeta] Hholds r.
  destruct (layout_paths table base id Hlayout)
    as (Hbase & HRM & HMT & HTP & HMD & HDL & Hapart).
  pose proof (below_trans _ _ _ HMD HDL) as HML.
  set (n := nodes σ) in *.
  set (swept := zkutil.sweep (root_path table)
                  {| zkutil.keep_path := base; zkutil.remove_subtree := false |} n).
  assert (Hswept : ∀ p, swept !! p
                        = if negb (zkutil.below (root_path table) p)
                             || String.eqb p (metadata_path table)
                             || zkutil.below (metadata_path table) p
                          then n !! p else None).
  { intros p. apply (swept_lookup table base id). exact Hlayout. }
  assert (Hbelow : ∀ p, zkutil.below (metadata_path table) p = true → swept !! p = n !! p).
  { intros p Hp. rewrite Hswept, Hp. now rewrite orb_true_r. }
  assert (Hnone : ∀ p, zkutil.below (metadata_path table) p = true →
                       p ≠ dropped_path table → p ≠ dropped_lock_path table →
                       n !! p = None).
  { intros p Hp HD HL. apply eq_None_not_Some. intros Hsome.
    apply (Hholds p Hp), elem_of_two in Hsome as [|]; contradiction. }
  destruct (proj2 (Hholds _ HMD)) as [vD HvD]; [apply elem_of_two; now left|].
  destruct (proj2 (Hholds _ HML)) as [vL HvL]; [apply elem_of_two; now right|].
  pose proof (below_neq _ _ HDL) as HDL_ne.
  pose proof (below_neq _ _ HMD) as HMD_ne.
  pose proof (below_neq _ _ HML) as HML_ne.
  assert (H1 : zkutil.apply_request (RemoveRequest (dropped_lock_path table)) swept
               = (ZOK, delete (dropped_lock_path table) swept)).
  { apply (apply_request_remove_ok _ vL).
    - now rewrite Hbelow.
    - apply children_nil. intros name _.
      pose proof (below_child (dropped_lock_path table) name) as Hchild.
      rewrite Hbelow by exact (below_trans _ _ _ HML Hchild).
      apply Hnone.
      + exact (below_trans _ _ _ HML Hchild).
      + intros E. rewrite E in Hchild.
        pose proof (below_trans _ _ _ HDL Hchild) as Hcycle.
        rewrite below_irrefl in Hcycle. discriminate.
      + apply not_eq_sym. now apply below_neq. }
  assert (H2 : zkutil.apply_request (RemoveRequest (dropped_path table))
                 (delete (dropped_lock_path table) swept)
               = (ZOK, delete (dropped_path table)
                         (delete (dropped_lock_path table) swept))).
  { apply (apply_request_remove_ok _ vD).
    - rewrite lookup_delete_ne by congruence. now rewrite Hbelow.
    - apply children_nil. intros name _.
      pose proof (below_child (dropped_path table) name) as Hchild.
      destruct (decide (dropped_path table +:+ "/" +:+ name = dropped_lock_path table))
        as [E|Hother].
      + rewrite E. apply lookup_delete_eq.
      + rewrite lookup_delete_ne by congruence.
        rewrite Hbelow by exact (below_trans _ _ _ HMD Hchild).
        apply Hnone; [exact (below_trans _ _ _ HMD Hchild) | | exact Hother].
        apply not_eq_sym. now apply below_neq. }
  assert (H3 : zkutil.apply_request (RemoveRequest (metadata_path table))
                 (delete (dropped_path table) (delete (dropped_lock_path table) swept))
               = (ZOK, delete (metadata_path table)
                         (delete (dropped_path table)
                            (delete (dropped_lock_path table) swept)))).
  { apply (apply_request_remove_ok _ meta).
    - rewrite !lookup_delete_ne by congruence.
      rewrite Hswept, String.eqb_refl, orb_true_r. exact Hmeta.
    - apply children_nil. intros name _.
      pose proof (below_child (metadata_path table) name) as Hchild.
      destruct (decide (metadata_path table +:+ "/" +:+ name = dropped_path table))
        as [E|HotherD].
      { rewrite E. apply lookup_delete_eq. }
      rewrite lookup_delete_ne by congruence.
      destruct (decide (metadata_path table +:+ "/" +:+ name = dropped_lock_path table))
        as [E|HotherL].
      { rewrite E. apply lookup_delete_eq. }
      rewrite lookup_delete_ne by congruence.
      rewrite Hbelow by exact Hchild. now apply Hnone. }
  destruct (dropTable_run table (dropped_lock_path table) σ base Hs Hbase)
    as (_ & _ & Hrun).
  cbv zeta in Hrun. fold n in Hrun. fold swept in Hrun.
  cbn [zkutil.apply_requests] in Hrun. rewrite H1, H2, H3 in Hrun.
  destruct Hrun as [Hok Hnodes]. split; [exact Hok|].
  intros p. unfold r. rewrite Hnodes.
  destruct (decide (p = metadata_path table)) as [->|HpM].
  { now rewrite lookup_delete_eq, HRM. }
  rewrite lookup_delete_ne by congruence.
  destruct (decide (p = dropped_path table)) as [->|HpD].
  { now rewrite lookup_delete_eq, (below_trans _ _ _ HRM HMD). }
  rewrite lookup_delete_ne by congruence.
  destruct (decide (p = dropped_lock_path table)) as [->|HpL].
  { now rewrite lookup_delete_eq, (below_trans _ _ _ HRM HML). }
  rewrite lookup_delete_ne by congruence.
  rewrite Hswept. destruct (zkutil.below (root_path table) p); cbn [negb orb]; [|reflexivity].
  destruct (String.eqb_spec p (metadata_path table)) as [E|_]; [contradiction|].
  cbn [orb].
  destruct (zkutil.below (metadata_path table) p) eqn:HMp; [|reflexivity].
  now apply Hnone.
Qed.

(** X12. The table that is dropped last takes everything with it: on a
    valid table and a reachable service, the metadata node holding nothing
    but the tables directory with the marker of this table, [drop] returns,
    and afterwards no node below the root is left (no data node, no
    metadata node, no dropped marker, no lock), while the root itself and
    all nodes that are not below it are as before. *)
Theorem drop_last_table_clears_root (table : StorageKeeperMap DataType) (base id : string)
    (σ : State) :
  let r := Storage.drop table σ in
  session σ = None →
  table_is_valid σ = Some true →
  layout table base id →
  is_Some (nodes σ !! metadata_path table) →
  metadata_holds table [tables_path table; table_path table] (nodes σ) →
  r.1 = Ok tt ∧ cleared (root_path table) (nodes σ) (nodes r.2).
Proof.
  intros r Hs Hvalid Hlayout [meta Hmeta] Hholds.
  destruct (layout_paths table base id Hlayout)
    as (Hbase & HRM & HMT & HTP & HMD & HDL & Hapart).
  assert (Htable : table_path table = tables_path table +:+ "/" +:+ id) by apply Hlayout.
  assert (Hlock : dropped_lock_path table = dropped_path table +:+ "/lock") by apply Hlayout.
  pose proof (below_trans _ _ _ HMT HTP) as HMP.
  pose proof (below_trans _ _ _ HMD HDL) as HML.
  set (n := nodes σ) in *.
  assert (Hnone : ∀ p, zkutil.below (metadata_path table) p = true →
                       p ≠ tables_path table → p ≠ table_path table → n !! p = None).
  { intros p Hp HT HP. apply eq_None_not_Some. intros Hsome.
    apply (Hholds p Hp), elem_of_two in Hsome as [|]; contradiction. }
  destruct (proj2 (Hholds _ HMT)) as [vT HvT]; [apply elem_of_two; now left|].
  destruct (proj2 (Hholds _ HMP)) as [vP HvP]; [apply elem_of_two; now right|].
  pose proof (below_neq _ _ HTP) as HTP_ne.
  pose proof (below_neq _ _ HMT) as HMT_ne.
  pose proof (below_neq _ _ HMP) as HMP_ne.
  pose proof (below_neq _ _ HDL) as HDL_ne.
  pose proof (below_neq _ _ HMD) as HMD_ne.
  pose proof (below_neq _ _ HML) as HML_ne.
  assert (HDT : dropped_path table ≠ tables_path table).
  { intros E. apply (Hapart EmptyString EmptyString). now rewrite !append_nil_r. }
  assert (HDP : dropped_path table ≠ table_path table).
  { intros E. apply (Hapart EmptyString ("/" +:+ id)). now rewrite append_nil_r, <- Htable. }
  assert (HLT : dropped_lock_path table ≠ tables_path table).
  { intros E. apply (Hapart "/lock" EmptyString). now rewrite append_nil_r, <- Hlock. }
  assert (HLP : dropped_lock_path table ≠ table_path table).
  { intros E. apply (Hapart "/lock" ("/" +:+ id)). now rewrite <- Hlock, <- Htable. }
  (* the marker goes *)
  set (n1 := delete (table_path table) n).
  assert (HA : zkutil.apply_requests [RemoveRequest (table_path table)] n = (ZOK, n1)).
  { cbn [zkutil.apply_requests]. rewrite (apply_request_remove_ok _ vP); [reflexivity|exact HvP|].
    apply children_nil. intros name _.
    pose proof (below_child (table_path table) name) as Hchild.
    apply Hnone.
    - exact (below_trans _ _ _ HMP Hchild).
    - intros E. rewrite E in Hchild.
      pose proof (below_trans _ _ _ HTP Hchild) as Hcycle.
      rewrite below_irrefl in Hcycle. discriminate.
    - apply not_eq_sym. now apply below_neq. }
  (* no marker is left *)
  assert (HvT1 : n1 !! tables_path table = Some vT).
  { unfold n1. now rewrite lookup_delete_ne by congruence. }
  assert (HB : zkutil.children n1 (tables_path table) = []).
  { apply children_nil. intros name _.
    pose proof (below_child (tables_path table) name) as Hchild. unfold n1.
    destruct (decide (tables_path table +:+ "/" +:+ name = table_path table)) as [E|Hother].
    - rewrite E. apply lookup_delete_eq.
    - rewrite lookup_delete_ne by congruence.
      apply Hnone; [exact (below_trans _ _ _ HMT Hchild) | | exact Hother].
      apply not_eq_sym. now apply below_neq. }
  (* the tables directory becomes the dropped marker with its lock *)
  set (n2 := <[dropped_lock_path table := EmptyString]>
               (<[dropped_path table := EmptyString]> (delete (tables_path table) n1))).
  assert (HC : zkutil.apply_requests
                 [RemoveRequest (tables_path table);
                  CreateRequest (dropped_path table) EmptyString Persistent;
                  CreateRequest (dropped_lock_path table) EmptyString Ephemeral] n1
               = (ZOK, n2)).
  { cbn [zkutil.apply_requests].
    rewrite (apply_request_remove_ok _ vT) by assumption.
    rewrite apply_request_create_ok.
    2:{ rewrite (proj1 (proj2 (proj2 (proj2 (proj2 (proj2 Hlayout)))))).
        apply (has_parent_child _ (metadata_path table) "dropped"); [reflexivity|].
        unfold n1. rewrite !lookup_delete_ne by congruence. eauto. }
    2:{ unfold n1. rewrite !lookup_delete_ne by congruence. now apply Hnone. }
    rewrite apply_request_create_ok; [reflexivity| |].
    - rewrite Hlock. apply (has_parent_child _ (dropped_path table) "lock"); [reflexivity|].
      rewrite lookup_insert_eq. eauto.
    - unfold n1. rewrite lookup_insert_ne by congruence.
      rewrite !lookup_delete_ne by congruence. now apply Hnone. }
  assert (Hn2 : ∀ p, n2 !! p
                     = if decide (p = dropped_lock_path table) then Some EmptyString
                       else if decide (p = dropped_path table) then Some EmptyString
                       else if decide (p = tables_path table) then None
                       else if decide (p = table_path table) then None
                       else n !! p).
  { intros p. unfold n2, n1.
    destruct (decide (p = dropped_lock_path table)) as [->|HpL]; [apply lookup_insert_eq|].
    rewrite lookup_insert_ne by congruence.
    destruct (decide (p = dropped_path table)) as [->|HpD]; [apply lookup_insert_eq|].
    rewrite lookup_insert_ne by congruence.
    destruct (decide (p = tables_path table)) as [->|HpT]; [apply lookup_delete_eq|].
    rewrite lookup_delete_ne by congruence.
    destruct (decide (p = table_path table)) as [->|HpP]; [apply lookup_delete_eq|].
    now rewrite lookup_delete_ne by congruence. }
  set (σ1 := set_nodes n1 (add_event (Called (CMulti [RemoveRequest (table_path table)])) σ)).
  set (σ2 := add_event (Called (CGetChildren (tables_path table))) σ1).
  set (σ3 := set_nodes n2
               (add_event (Called (CMulti
                  [RemoveRequest (tables_path table);
                   CreateRequest (dropped_path table) EmptyString Persistent;
                   CreateRequest (dropped_lock_path table) EmptyString Ephemeral])) σ2)).
  destruct (dropTable_reclaims table base id σ3) as [Hok3 Hcleared3].
  { exact Hs. }
  { exact Hlayout. }
  { cbn [σ3 set_nodes nodes]. rewrite Hn2. rewrite !decide_False by congruence. eauto. }
  { intros p Hp. cbn [σ3 set_nodes nodes]. rewrite Hn2, elem_of_two.
    destruct (decide (p = dropped_lock_path table)) as [->|HpL]; [split; eauto|].
    destruct (decide (p = dropped_path table)) as [->|HpD]; [split; eauto|].
    assert (Hgone : ∀ v : option string, v = None → is_Some v ↔
                      p = dropped_path table ∨ p = dropped_lock_path table).
    { intros v ->. split; [intros [? [=]] | intros [|]; contradiction]. }
    apply Hgone. repeat case_decide; [reflexivity..|]. now apply Hnone. }
  assert (Hrun : Storage.drop table σ
                 = (Ok tt, (dropTable table (dropped_lock_path table) σ3).2)).
  { unfold Storage.drop.
    erewrite bind_Ok; [|eapply checkTable_valid; exact Hvalid].
    erewrite bind_Ok; [|apply multi_connected; [exact Hs | exact HA]].
    erewrite bind_Ok; [|eapply getChildren_connected; [exact Hs | exact HvT1]].
    cbn [set_nodes add_event nodes]. rewrite HB.
    erewrite bind_Ok; [|apply tryMulti_ok; [exact Hs | exact HC]].
    cbv iota. erewrite bind_Ok; [|reflexivity].
    erewrite bind_Ok; [reflexivity|].
    apply scope_already_removed. fold σ1. fold σ2. fold σ3.
    rewrite <- Hok3. now destruct (dropTable table (dropped_lock_path table) σ3). }
  unfold r. rewrite Hrun. cbn [fst snd]. split; [reflexivity|].
  intros p. rewrite (Hcleared3 p). cbn [σ3 set_nodes nodes].
  destruct (zkutil.below (root_path table) p) eqn:HRp; [reflexivity|].
  pose proof (below_trans _ _ _ HRM HMT) as HRT.
  pose proof (below_trans _ _ _ HRM HMP) as HRP.
  pose proof (below_trans _ _ _ HRM HMD) as HRD.
  pose proof (below_trans _ _ _ HRM HML) as HRL.
  rewrite Hn2. rewrite !decide_False; [reflexivity|..]; intros ->; congruence.
Qed.

End LastTable.

Lemma drop_last_table_clears_root_witness :
  zkutil.children
    (nodes (Storage.drop (ByteColumns.table 0)
              (ByteColumns.state [("YQ==", "q"); ("Yg==", "r")] (Some true))).2)
    "/keeper_map/t" = [].
Proof.
  pose proof (drop_last_table_clears_root (ByteColumns.table 0) "ch_metadata" "0001"
                (ByteColumns.state [("YQ==", "q"); ("Yg==", "r")] (Some true))) as Hdrop.
  cbv zeta in Hdrop. destruct Hdrop as [_ Hcleared].
  - reflexivity.
  - reflexivity.
  - repeat split.
  - vm_compute. eexists. reflexivity.
  - intros p Hp. rewrite elem_of_two. split.
    + intros [v Hv]. unfold ByteColumns.state, ByteColumns.tree in Hv.
      cbn [nodes app map fst snd] in Hv. apply elem_of_list_to_map_2 in Hv.
      repeat (apply elem_of_cons in Hv as [[= -> ->] | Hv];
              [first [now left | now right | vm_compute in Hp; discriminate]|]).
      now apply elem_of_nil in Hv.
    + intros [-> | ->]; vm_compute; eexists; reflexivity.
  - apply children_nil. intros name _. rewrite (Hcleared _), below_child. reflexivity.
Defined.

(** ** The key container of a read *)

Section SortedContainer.

Context {DataType K : Type} `{Less K, EqDecision K}.

Hypothesis less_asym : ∀ a b : K, less a b = true → less b a = false.
Hypothesis less_trans : ∀ a b c : K, less a b = true → less b c = true → less a c = true.
Hypothesis less_total : ∀ a b : K, less a b = false → less b a = false → a = b.

Lemma not_after_total : Total (not_after (K:=K)).
Proof.
  intros a b. unfold not_after.
  destruct (less b a) eqn:E; [right; now apply less_asym | now left].
Qed.

Lemma not_after_trans : Transitive (not_after (K:=K)).
Proof.
  intros a b c. unfold not_after. intros Hba Hcb.
  destruct (less c a) eqn:Hca; [|reflexivity].
  destruct (less b c) eqn:Hbc.
  - rewrite (less_trans b c a Hbc Hca) in Hba. discriminate.
  - rewrite (less_total b c Hbc Hcb) in Hba. congruence.
Qed.

Lemma sort_StronglySorted (l : list K) : StronglySorted not_after (sort l).
Proof.
  apply StronglySorted_merge_sort; [exact not_after_trans | exact not_after_total].
Qed.

(** [std::unique] on a sorted range leaves a strictly ascending one with
    the same elements. *)
Lemma unique_from_sorted (l : list K) :
  ∀ x, StronglySorted not_after (x :: l) →
       StronglySorted (λ a b, less a b = true) (unique_from x l) ∧
       ∀ k, k ∈ unique_from x l ↔ k ∈ x :: l.
Proof.
  induction l as [|y l IH]; intros x Hsorted.
  - cbn [unique_from]. split; [|reflexivity].
    apply SSorted_cons; constructor.
  - cbn [unique_from]. apply StronglySorted_inv in Hsorted as [Htail Hhead].
    destruct (decide (x = y)) as [<-|Hne].
    + destruct (IH x) as [Hs He].
      { apply StronglySorted_inv in Htail as [Htail' Hy].
        apply SSorted_cons; [exact Htail' | exact Hy]. }
      split; [exact Hs|]. intros k. rewrite He, !elem_of_cons. tauto.
    + destruct (IH y Htail) as [Hs He]. split.
      * apply SSorted_cons; [exact Hs|]. apply Forall_forall. intros z Hz.
        apply He in Hz. rewrite Forall_forall in Hhead.
        assert (Hxz : not_after x z) by (apply Hhead; exact Hz).
        destruct (less x z) eqn:E; [reflexivity|]. exfalso.
        assert (x = z) by (apply less_total; assumption). subst z.
        apply elem_of_cons in Hz as [E'|Hz]; [congruence|].
        apply StronglySorted_inv in Htail as [_ Hy]. rewrite Forall_forall in Hy.
        apply Hne. apply less_total; [apply Hy; exact Hz|].
        apply Hhead. left.
      * intros k. rewrite elem_of_cons, He, !elem_of_cons. tauto.
Qed.

Lemma unique_sort_sorted (keys : list K) :
  StronglySorted (λ a b, less a b = true) (unique (sort keys)) ∧
  ∀ k, k ∈ unique (sort keys) ↔ k ∈ keys.
Proof.
  pose proof (sort_StronglySorted keys) as Hsorted.
  pose proof (sort_Permutation keys) as Hperm.
  destruct (sort keys) as [|x l] eqn:E.
  - cbn [unique]. split; [constructor|]. intros k. now rewrite <- Hperm.
  - cbn [unique]. destruct (unique_from_sorted l x Hsorted) as [Hs He].
    split; [exact Hs|]. intros k. now rewrite He, Hperm.
Qed.

Lemma strictly_sorted_NoDup (l : list K) :
  StronglySorted (λ a b, less a b = true) l → NoDup l.
Proof.
  induction 1 as [|x l _ IH Hx]; [constructor|].
  apply NoDup_cons. split; [|exact IH]. intros Hin.
  rewrite Forall_forall in Hx. specialize (Hx x Hin).
  rewrite (less_asym x x Hx) in Hx. discriminate.
Qed.

(** X13. Every source that [read] builds works on the same container: the
    requested keys in strictly ascending order of [operator<], each key
    once, no key added and none lost. ([operator<] is taken to be a strict
    total order.) *)
Theorem process_keys_container_sorted (table : StorageKeeperMap DataType)
    (max_block_size_ : nat) (num_streams : Z) (keys : list K)
    (source : StorageKeeperMapSource DataType K) :
  source ∈ process_keys table max_block_size_ num_streams keys →
  StronglySorted (λ a b, less a b = true) (container source) ∧
  NoDup (container source) ∧
  ∀ k, k ∈ container source ↔ k ∈ keys.
Proof.
  intros Hin.
  assert (Hcontainer : container source = unique (sort keys)).
  { unfold process_keys in Hin. destruct keys as [|k keys]; [now apply elem_of_nil in Hin|].
    apply list_elem_of_fmap in Hin as (t & -> & _). reflexivity. }
  rewrite Hcontainer. destruct (unique_sort_sorted keys) as [Hs He].
  split; [exact Hs|]. split; [now apply strictly_sorted_NoDup | exact He].
Qed.

End SortedContainer.

Lemma byte_less_asym (a b : ascii) : less a b = true → less b a = false.
Proof.
  unfold less, ByteColumns.byte_less. rewrite N.ltb_lt, N.ltb_ge. lia.
Qed.

Lemma byte_less_trans (a b c : ascii) : less a b = true → less b c = true → less a c = true.
Proof.
  unfold less, ByteColumns.byte_less. rewrite !N.ltb_lt. lia.
Qed.

Lemma byte_less_total (a b : ascii) : less a b = false → less b a = false → a = b.
Proof.
  unfold less, ByteColumns.byte_less. rewrite !N.ltb_ge. intros Hab Hba.
  rewrite <- (ascii_N_embedding a), <- (ascii_N_embedding b). f_equal. lia.
Qed.

Lemma process_keys_container_sorted_witness :
  NoDup (unique (sort ["b"; "a"; "b"]%char)).
Proof.
  refine (proj1 (proj2 (process_keys_container_sorted (DataType:=unit)
                          byte_less_asym byte_less_trans byte_less_total
                          (ByteColumns.table 0) 1 1 ["b"; "a"; "b"]%char
                          {| source_storage := ByteColumns.table 0;
                             max_block_size := 1;
                             container := unique (sort ["b"; "a"; "b"]%char);
                             it := 0;
                             end_ := 2 |} _))).
  vm_compute. left.
Defined.

(** ** Fetching by key values *)

(** The text encoding works in groups: four characters for every three
    bytes or part thereof. *)
Lemma base64Encode_length (url_encoding : bool) (s : string) :
  ∃ groups, String.length (Base64.base64Encode s url_encoding) = 4 * groups ∧
            String.length s ≤ 3 * groups ∧ (s ≠ EmptyString → 1 ≤ groups).
Proof.
  induction s as [| a | a b | a b c s IH] using string_ind3.
  - exists 0. cbn [Base64.base64Encode String.length]. repeat split; [lia|].
    intros Hne. contradiction.
  - exists 1. cbn [Base64.base64Encode String.length]. repeat split; lia.
  - exists 1. cbn [Base64.base64Encode String.length]. repeat split; lia.
  - destruct IH as (g & Hl & Hs & _). exists (S g).
    cbn [Base64.base64Encode String.length]. rewrite Hl. repeat split; lia.
Qed.

(** No non-empty byte string is its own encoding. *)
Lemma base64Encode_differs (url_encoding : bool) (s : string) :
  s ≠ EmptyString → Base64.base64Encode s url_encoding ≠ s.
Proof.
  intros Hne E. destruct (base64Encode_length url_encoding s) as (g & Hl & Hs & Hg).
  rewrite E in Hl. specialize (Hg Hne). lia.
Qed.

Section ByKeys.

Context {DataType Field : Type} `{Serialization DataType Field}.

(** A fetch of one name that has no node, with a null map. *)
Lemma getBySerializedKeys_missing (table : StorageKeeperMap DataType) (name : string)
    (σ : State) (key_pos : nat) :
  session σ = None →
  getPositionByName (sample_block table) (primary_key table) = Ok key_pos →
  nodes σ !! fullPathForKey table name = None →
  fullPathForKey table name ≠ metadata_path table →
  getBySerializedKeys table [name] true σ
  = (Ok ([default_row (sample_block table)], Some [0%Z]),
     add_event (Called (CTryGet (fullPathForKey table name))) σ).
Proof.
  intros Hs Hpos Hnone Hmeta. unfold getBySerializedKeys. rewrite Hpos.
  erewrite bind_Ok; [|reflexivity].
  erewrite bind_Ok.
  2:{ unfold request_values. cbn [for_each]. apply String.eqb_neq in Hmeta.
      rewrite Hmeta.
      erewrite bind_Ok;
        [|erewrite bind_Ok; [reflexivity | apply asyncTryGet_connected; exact Hs]].
      reflexivity. }
  cbn [collect_values answer_of ready_in_time value negb length replicate].
  rewrite Hnone. cbn [error]. erewrite bind_Ok; [|reflexivity].
  apply getPositionByName_header in Hpos.
  destruct (sample_block table) as [|col header]; [contradiction|]. reflexivity.
Qed.

(** X14. [getByKeys] asks for the node named by the raw serialization of a
    key, without the text encoding under which [consume] stores it. A key
    whose serialization is not empty is therefore stored under another name
    than the one asked for: with its node in place, and no node at the raw
    name, [getByKeys] sends one fetch, for the raw name, and reports the key
    as missing (the row of defaults, null-map entry 0). *)
Theorem getByKeys_asks_for_raw_names (table : StorageKeeperMap DataType) (ty : DataType)
    (k : Field) (payload : string) (σ : State) (key_pos : nat) :
  let raw := serializeBinary ty k in
  let r := getByKeys table [([k], ty)] σ in
  session σ = None →
  getPositionByName (sample_block table) (primary_key table) = Ok key_pos →
  raw ≠ EmptyString →
  nodes σ !! fullPathForKey table (encodeKey ty k) = Some payload →
  nodes σ !! fullPathForKey table raw = None →
  fullPathForKey table raw ≠ metadata_path table →
  encodeKey ty k ≠ raw ∧
  r.1 = Ok ([default_row (sample_block table)], Some [0%Z]) ∧
  events r.2 = events σ ++ [Called (CTryGet (fullPathForKey table raw))].
Proof.
  intros raw r Hs Hpos Hraw Hstored Hnone Hmeta.
  split; [now apply base64Encode_differs|].
  unfold r, getByKeys, serializeKeysToRawString_column. cbn [map length Nat.eqb negb].
  fold raw. rewrite (getBySerializedKeys_missing table raw σ key_pos) by assumption.
  split; reflexivity.
Qed.

(** X15. [getByKeys] takes exactly one key column: with none or with more
    than one it raises a logical error and sends nothing to the service. *)
Theorem getByKeys_one_key_column (table : StorageKeeperMap DataType)
    (keys : list (list Field * DataType)) (σ : State) :
  length keys ≠ 1 →
  getByKeys table keys σ = (Throw (DBException LOGICAL_ERROR), σ).
Proof.
  intros Hlen. unfold getByKeys.
  destruct keys as [|[column ty] [|second keys]]; [reflexivity | | reflexivity].
  now contradiction Hlen.
Qed.

End ByKeys.

Lemma getByKeys_asks_for_raw_names_witness :
  nodes (ByteColumns.state [("YQ==", "q")] (Some true)) !! "/keeper_map/t/YQ==" = Some "q" ∧
  (getByKeys (ByteColumns.table 0) [(["a"%char], tt)]
     (ByteColumns.state [("YQ==", "q")] (Some true))).1
  = Ok ([[Ascii.zero; Ascii.zero]], Some [0%Z]).
Proof.
  split; [vm_compute; reflexivity|].
  refine (proj1 (proj2 (getByKeys_asks_for_raw_names (ByteColumns.table 0) tt "a"%char "q"
                          (ByteColumns.state [("YQ==", "q")] (Some true)) 0
                          _ _ _ _ _ _))).
  - reflexivity.
  - reflexivity.
  - discriminate.
  - vm_compute. reflexivity.
  - vm_compute. reflexivity.
  - vm_compute. discriminate.
Defined.

Lemma getByKeys_one_key_column_witness :
  getByKeys (ByteColumns.table 0) [] (ByteColumns.state [] (Some true))
  = (Throw (DBException LOGICAL_ERROR), ByteColumns.state [] (Some true)).
Proof.
  apply (getByKeys_one_key_column (ByteColumns.table 0) []
           (ByteColumns.state [] (Some true))).
  discriminate.
Defined.

(** ** The paths laid out by the constructor *)

Lemma ends_with_append (c x : ascii) (a b : string) :
  Str.ends_with c (a +:+ String x b) = Str.ends_with c (String x b).
Proof.
  induction a as [|y a IH]; [now rewrite append_nil_l|].
  rewrite append_cons. cbn [Str.ends_with].
  destruct (a +:+ String x b) eqn:E; [|exact IH].
  destruct a; [rewrite append_nil_l in E | rewrite append_cons in E]; discriminate.
Qed.

(** Joining a directory that does not end in a slash with a relative
    name. *)
Lemma fs_join_relative (a b : string) :
  Str.is_empty a = false →
  Str.ends_with "/" a = false →
  Str.starts_with "/" b = false →
  fs_join a b = a +:+ "/" +:+ b.
Proof. intros Ha He Hb. unfold fs_join. now rewrite Hb, Ha, He. Qed.

Lemma is_empty_append (a : string) (x : ascii) (b : string) :
  Str.is_empty (a +:+ String x b) = false.
Proof. destruct a; [now rewrite append_nil_l | now rewrite append_cons]. Qed.

Lemma fs_join_not_empty (a b : string) :
  Str.is_empty a = false → Str.is_empty (fs_join a b) = false.
Proof.
  intros Ha. unfold fs_join.
  destruct (Str.starts_with "/" b) eqn:Hb; [now destruct b|].
  rewrite Ha. destruct (Str.ends_with "/" a).
  - destruct a; [discriminate | now rewrite append_cons].
  - destruct a; [discriminate | now rewrite append_cons].
Qed.

Section Layout.

Context {DataType Field : Type} `{Serialization DataType Field}.

(** X16. The table that the constructor builds has its metadata nodes
    under its root: when the root path does not end in a slash (and the
    table's unique id is a relative name), the metadata node is the child
    [ch_metadata] of the root, the tables directory and the dropped marker
    are its children [tables] and [dropped], the table's marker is the
    child of the tables directory named by the unique id, and the lock is
    the child [lock] of the dropped marker. So the base name that
    [truncate] and [dropTable] keep is [ch_metadata], a child of the root,
    and building the table object has not touched the node tree. *)
Theorem StorageKeeperMap_init_layout
    (path_prefix : string) (has_uuid : bool) (metadata : list (string * DataType))
    (primary_key_ extracted_root_path extracted_name table_unique_id : string)
    (keys_limit_ config_keys_limit : Z) (σ σ' : State) (table : StorageKeeperMap DataType) :
  StorageKeeperMap_init path_prefix has_uuid metadata primary_key_ extracted_root_path
    extracted_name table_unique_id keys_limit_ config_keys_limit σ = (Ok table, σ') →
  Str.ends_with "/" (root_path table) = false →
  Str.starts_with "/" table_unique_id = false →
  layout table "ch_metadata" table_unique_id ∧
  metadata_path table = fullPathForKey table "ch_metadata" ∧
  getBaseName (metadata_path table) = Ok "ch_metadata" ∧
  nodes σ' = nodes σ.
Proof.
  unfold StorageKeeperMap_init. intros Hinit Hroot Hid.
  destruct (Str.is_empty path_prefix) eqn:Hprefix; [discriminate|].
  destruct (negb has_uuid); [discriminate|].
  destruct (Str.is_empty extracted_root_path); [discriminate|].
  destruct (negb (Str.starts_with "/" extracted_root_path)); [discriminate|].
  set (root := fs_join path_prefix (Str.substr 1 extracted_root_path)) in *.
  assert (Hnodes : ∃ limit, Ok table = Ok
            {| root_path := root;
               primary_key := primary_key_;
               zookeeper_name := extracted_name;
               keys_limit := limit;
               metadata_path := fs_join root "ch_metadata";
               tables_path := fs_join (fs_join root "ch_metadata") "tables";
               table_path := fs_join (fs_join (fs_join root "ch_metadata") "tables")
                               table_unique_id;
               dropped_path := fs_join (fs_join root "ch_metadata") "dropped";
               dropped_lock_path :=
                 fs_join (fs_join (fs_join root "ch_metadata") "dropped") "lock";
               sample_block := metadata |}
            ∧ nodes σ' = nodes σ).
  { revert Hinit. unfold_M. cbn [add_event nodes].
    destruct (negb (config_keys_limit =? 0)%Z && (keys_limit_ >? config_keys_limit)%Z);
      [|destruct (keys_limit_ >? 0)%Z];
      intros [= <- <-]; eexists; split; reflexivity. }
  destruct Hnodes as (limit & [= ->] & Hnodes). cbn [root_path] in Hroot.
  assert (Hne : Str.is_empty root = false) by now apply fs_join_not_empty.
  assert (Hmeta : fs_join root "ch_metadata" = root +:+ "/" +:+ "ch_metadata").
  { now apply fs_join_relative. }
  assert (Htables : fs_join (fs_join root "ch_metadata") "tables"
                    = fs_join root "ch_metadata" +:+ "/tables").
  { rewrite fs_join_relative; [reflexivity | | | reflexivity].
    - rewrite Hmeta. apply is_empty_append.
    - rewrite Hmeta, append_cons, append_nil_l, ends_with_append. reflexivity. }
  assert (Hdropped : fs_join (fs_join root "ch_metadata") "dropped"
                     = fs_join root "ch_metadata" +:+ "/dropped").
  { rewrite fs_join_relative; [reflexivity | | | reflexivity].
    - rewrite Hmeta. apply is_empty_append.
    - rewrite Hmeta, append_cons, append_nil_l, ends_with_append. reflexivity. }
  split; [|split; [exact Hmeta | split; [|exact Hnodes]]].
  - unfold layout.
    cbn [root_path metadata_path tables_path table_path dropped_path dropped_lock_path].
    split; [reflexivity|]. split; [reflexivity|]. split; [exact Hmeta|].
    split; [exact Htables|]. split; [|split; [exact Hdropped|]].
    + apply fs_join_relative; [| |exact Hid].
      * rewrite Htables. apply is_empty_append.
      * rewrite Htables, ends_with_append. reflexivity.
    + rewrite (fs_join_relative _ "lock"); [reflexivity | | | reflexivity].
      * rewrite Hdropped. apply is_empty_append.
      * rewrite Hdropped, ends_with_append. reflexivity.
  - cbn [metadata_path]. rewrite Hmeta. now apply getBaseName_join.
Qed.

End Layout.

Lemma StorageKeeperMap_init_layout_witness :
  layout (ByteColumns.table 0) "ch_metadata" "0001".
Proof.
  refine (proj1 (StorageKeeperMap_init_layout "/keeper_map" true
                   [("k", tt); ("v", tt)] "k" "/t" "default" "0001" 0 0
                   (ByteColumns.state [] None) (ByteColumns.state [] None)
                   (ByteColumns.table 0) _ _ _)).
  - reflexivity.
  - reflexivity.
  - reflexivity.
Defined.

(** ** Reading a written key back through a pipe *)

Section PointRead.

Context {DataType Field : Type} `{Serialization DataType Field}.
Context `{Less Field, EqDecision Field}.

(** The position and the type that the header gives for a column name
    belong to the same column. *)
Lemma getByName_position (header : list (string * DataType)) (name : string)
    (pos : nat) (ty : DataType) :
  getPositionByName header name = Ok pos →
  getByName header name = Ok ty →
  ∃ n, header !! pos = Some (n, ty).
Proof.
  revert pos. induction header as [|[n ty'] header IH]; intros pos; [discriminate|].
  cbn [getPositionByName getByName]. destruct (String.eqb n name).
  - intros [= <-] [= <-]. eauto.
  - destruct (getPositionByName header name) as [i|e]; [|discriminate].
    intros [= <-] Hty. apply (IH i eq_refl Hty).
Qed.

(** The node name of a row is the encoded key of its key column. *)
Lemma row_entry_encodeKey (sink : StorageKeeperMapSink DataType) (row : Row Field)
    (n : string) (ty : DataType) (k : Field) :
  sample_block (storage sink) !! primary_key_pos sink = Some (n, ty) →
  row !! primary_key_pos sink = Some k →
  (row_entry sink row).1 = encodeKey ty k.
Proof.
  intros Hcol Hk. unfold row_entry, encodeKey.
  pose proof (serialize_row_key (sample_block (storage sink)) row 0 (primary_key_pos sink)
                n ty k) as Hkey.
  rewrite Nat.sub_0_r in Hkey. specialize (Hkey (Nat.le_0_l _) Hcol Hk).
  destruct (serialize_row (sample_block (storage sink)) row 0 (primary_key_pos sink)
              EmptyString EmptyString) as [wb_key wb_value].
  cbn [fst] in *. now rewrite Hkey.
Qed.

(** The one source that [read] builds for a single key. *)
Lemma process_keys_single (table : StorageKeeperMap DataType) (max_block_size_ : nat)
    (num_streams : Z) (k : Field) :
  (1 ≤ num_streams)%Z →
  process_keys table max_block_size_ num_streams [k]
  = [{| source_storage := table; max_block_size := max_block_size_;
        container := [k]; it := 0; end_ := 1 |}].
Proof.
  intros Hstreams. unfold process_keys.
  change (unique (sort [k])) with [k]. cbn [length].
  rewrite Z.min_r by lia. reflexivity.
Qed.

(** X17. A written key can be read back through the pipe of a query that
    names it: after a row with legal values was consumed by a sink that
    [write] handed out and committed by [onFinish] (no later row of the
    batch having its key), [read] for the key of the row gives one source,
    whose first chunk is exactly that row and whose second call ends the
    stream. *)
Theorem point_read_returns_written_row (table : StorageKeeperMap DataType)
    (sink : StorageKeeperMapSink DataType) (before after : list (Row Field))
    (row : Row Field) (k : Field) (ty : DataType) (σ σ' : State)
    (max_block_size_ : nat) (num_streams : Z) :
  session σ = None →
  table_is_valid σ = Some true →
  (write table σ).1 = Ok sink →
  getByName (sample_block table) (primary_key table) = Ok ty →
  Forall2 (λ col v, legal col.2 v) (sample_block table) row →
  row !! primary_key_pos sink = Some k →
  Forall (λ later, (row_entry sink later).1 ≠ (row_entry sink row).1) after →
  fullPathForKey table (encodeKey ty k) ≠ metadata_path table →
  onFinish (consume (before ++ row :: after) sink) σ = (Ok tt, σ') →
  (0 < max_block_size_)%nat →
  (1 ≤ num_streams)%Z →
  ∃ source source' σ2,
    read table [k] false max_block_size_ num_streams σ' = (Ok (KeysPipe [source]), σ') ∧
    generate_fields source σ' = (Ok (Some ([row], source')), σ2) ∧
    generate_fields source' σ2 = (Ok None, σ2).
Proof.
  intros Hs Hvalid Hwrite Hty Hlegal Hk Hafter Hdata Hok Hblock Hstreams.
  assert (Hwrite' : write table σ = (Ok sink, σ)).
  { revert Hwrite. unfold write.
    erewrite bind_Ok; [|eapply checkTable_valid; exact Hvalid].
    unfold lift. cbn [fst]. now intros ->. }
  destruct (write_returns table sink σ σ Hwrite') as (Hst & _ & Hpos).
  destruct (getByName_position _ _ _ _ Hpos Hty) as [n Hcol].
  assert (Hname : (row_entry sink row).1 = encodeKey ty k).
  { apply (row_entry_encodeKey sink row n); [now rewrite Hst | exact Hk]. }
  set (filled := consume (before ++ row :: after) sink) in *.
  assert (Hstorage : storage filled = table).
  { rewrite <- Hst. apply consume_storage. }
  destruct (onFinish_returns filled σ σ' Hs Hok) as (_ & _ & Hnodes & Hs' & Hvalid').
  rewrite Hstorage in Hnodes.
  assert (Hnode : nodes σ' !! fullPathForKey table (encodeKey ty k)
                  = Some (row_entry sink row).2).
  { rewrite Hnodes, <- Hname. apply commit_lookup; [apply NoDup_fst_map_to_list|].
    apply elem_of_map_to_list. now apply consume_last_value. }
  assert (Hdecode : decode_node table (primary_key_pos sink) (encodeKey ty k)
                      (row_entry sink row).2 = Some row).
  { rewrite <- Hname, <- Hst. apply decode_node_row_entry. now rewrite Hst. }
  assert (Hcollect :
    collect_values table (primary_key_pos sink) false 0 [encodeKey ty k]
      (map (slot_of table (nodes σ')) [encodeKey ty k]) [] []
    = Ok ([row], [])).
  { cbn [map]. unfold slot_of. apply String.eqb_neq in Hdata. rewrite Hdata.
    cbn [collect_values answer_of ready_in_time value negb]. rewrite Hnode.
    cbn [error data]. now rewrite Hdecode. }
  destruct (getBySerializedKeys_connected table [encodeKey ty k] false σ' _ _ _ Hs' Hpos
              Hcollect) as (σ2 & Hfetch & _).
  set (source := {| source_storage := table; max_block_size := max_block_size_;
                    container := [k]; it := 0; end_ := 1 |}).
  exists source, (advance source 1), σ2. split; [|split].
  - unfold read.
    erewrite bind_Ok; [|eapply checkTable_valid; congruence].
    now rewrite process_keys_single.
  - unfold generate_fields. cbn [source end_ it Nat.leb source_storage container
                                 max_block_size].
    rewrite Hty. erewrite bind_Ok; [|reflexivity].
    unfold serializeKeysToRawString. rewrite Nat.sub_0_r, Nat.min_r by lia.
    cbn [drop take map Nat.add]. fold (encodeKey ty k).
    erewrite bind_Ok; [|exact Hfetch]. reflexivity.
  - reflexivity.
Qed.

End PointRead.

Lemma point_read_returns_written_row_witness :
  ∃ source source' σ2,
    read (ByteColumns.table 0) ["a"%char] false 1 1
      (onFinish (consume [["a"; "x"]%char] (ByteColumns.sink 0))
         (ByteColumns.state [] (Some true))).2
    = (Ok (KeysPipe [source]),
       (onFinish (consume [["a"; "x"]%char] (ByteColumns.sink 0))
          (ByteColumns.state [] (Some true))).2) ∧
    generate_fields source
      (onFinish (consume [["a"; "x"]%char] (ByteColumns.sink 0))
         (ByteColumns.state [] (Some true))).2
    = (Ok (Some ([["a"; "x"]%char], source')), σ2) ∧
    generate_fields source' σ2 = (Ok None, σ2).
Proof.
  apply (point_read_returns_written_row (ByteColumns.table 0) (ByteColumns.sink 0)
           [] [] ["a"; "x"]%char "a"%char tt (ByteColumns.state [] (Some true))).
  - reflexivity.
  - reflexivity.
  - reflexivity.
  - reflexivity.
  - repeat constructor; intros rest; reflexivity.
  - reflexivity.
  - constructor.
  - vm_compute. discriminate.
  - vm_compute. reflexivity.
  - lia.
  - lia.
Defined.

(** ** Construction: attaching and creating *)

Lemma exists_connected (path : string) (σ : State) :
  session σ = None →
  ZooKeeper.exists_ path σ
  = (Ok (bool_decide (is_Some (nodes σ !! path))), add_event (Called (CExists path)) σ).
Proof.
  intros Hs. unfold ZooKeeper.exists_, zkutil.service.
  cbn [session add_event nodes]. rewrite Hs. now destruct σ.
Qed.

Lemma tryCreate_created (path data : string) (mode : CreateMode) (σ : State) :
  session σ = None →
  zkutil.has_parent (nodes σ) path = true →
  nodes σ !! path = None →
  ZooKeeper.tryCreate path data mode σ
  = (Ok ZOK, set_nodes (<[path := data]> (nodes σ))
               (add_event (Called (CMulti [CreateRequest path data mode])) σ)).
Proof.
  intros Hs Hparent Hnode. unfold ZooKeeper.tryCreate.
  erewrite bind_Ok; [|apply tryMulti_ok; [exact Hs|]; cbn [zkutil.apply_requests];
                      now rewrite apply_request_create_ok].
  reflexivity.
Qed.

Lemma createIfNotExists_connected (path data : string) (σ : State) :
  session σ = None →
  zkutil.has_parent (nodes σ) path = true →
  ZooKeeper.createIfNotExists path data σ
  = (Ok tt, set_nodes (create_if_absent path data (nodes σ))
              (add_event (Called (CMulti [CreateRequest path data Persistent])) σ)).
Proof.
  intros Hs Hparent. unfold ZooKeeper.createIfNotExists, create_if_absent.
  destruct (nodes σ !! path) as [payload|] eqn:Hnode.
  - erewrite bind_Ok.
    2:{ apply (tryMulti_failed _ _ ZNODEEXISTS (nodes σ)); [exact Hs | | discriminate].
        cbn [zkutil.apply_requests zkutil.apply_request]. now rewrite Hparent, Hnode. }
    reflexivity.
  - erewrite bind_Ok; [|apply tryMulti_ok; [exact Hs|]; cbn [zkutil.apply_requests];
                        now rewrite apply_request_create_ok].
    reflexivity.
Qed.

Lemma create_if_absent_lookup (path data : string) (n : gmap string string) (p : string) :
  create_if_absent path data n !! p
  = match n !! p with
    | Some v => Some v
    | None => if decide (p = path) then Some data else None
    end.
Proof.
  unfold create_if_absent. destruct (n !! path) as [payload|] eqn:Hnode.
  - destruct (n !! p) eqn:Hp; [reflexivity|].
    destruct (decide (p = path)) as [->|_]; [congruence | reflexivity].
  - destruct (decide (p = path)) as [->|Hne].
    + now rewrite lookup_insert_eq, Hnode.
    + rewrite lookup_insert_ne by congruence. now destruct (n !! p).
Qed.

Lemma elem_of_three {A : Type} (x a b c : A) : x ∈ [a; b; c] ↔ x = a ∨ x = b ∨ x = c.
Proof. rewrite !elem_of_cons, elem_of_nil. tauto. Qed.

Section Create.

Context {DataType Field : Type} `{Serialization DataType Field}.

Lemma create_metadata_S (attempts : nat) (table : StorageKeeperMap DataType) :
  create_metadata (S attempts) table
  = (dropped ← ZooKeeper.exists_ (dropped_path table);
     again ←
       (if dropped : bool
        then
          emit (Logged LInfo "Removing leftover nodes");;
          code ← ZooKeeper.tryCreate (dropped_lock_path table) EmptyString Ephemeral;
          match code with
          | ZNONODE | ZNODEEXISTS =>
              emit (Logged LInfo "Someone else removed leftover nodes");;
              mret false
          | ZOK =>
              removed ← EphemeralNodeHolder.scope (dropped_lock_path table)
                          (dropTable table (dropped_lock_path table));
              mret (negb removed)
          | _ => throw (CoordinationException code)
          end
        else mret false);
     if again : bool
     then create_metadata attempts table
     else
       ZooKeeper.createIfNotExists (metadata_path table) EmptyString;;
       ZooKeeper.createIfNotExists (tables_path table) EmptyString;;
       code ← ZooKeeper.tryCreate (table_path table) EmptyString Persistent;
       match code with
       | ZOK => write_table_is_valid true
       | ZNONODE =>
           emit (Logged LInfo "Metadata nodes were deleted in background, will retry");;
           create_metadata attempts table
       | _ => throw (CoordinationException code)
       end).
Proof. reflexivity. Qed.

(** The validity check on a reachable service, nothing being cached. *)
Lemma isTableValid_connected (table : StorageKeeperMap DataType) (σ : State) :
  session σ = None →
  table_is_valid σ = None →
  let v := bool_decide (is_Some (nodes σ !! table_path table)) in
  isTableValid table σ
  = (Ok (Some v),
     set_table_is_valid (Some v)
       (add_event (Called (CMulti [CheckRequest (table_path table)])) σ)).
Proof.
  intros Hs Hnone v. destruct σ as [n s cached ev]. cbn [session table_is_valid] in *.
  subst s cached. subst v. unfold isTableValid. run_M.
  cbn [zkutil.apply_requests zkutil.apply_request nodes].
  destruct (n !! table_path table); reflexivity.
Qed.

(** The part of a round of [create_metadata] that creates the nodes, the
    root being there and the marker of the table not. *)
Lemma create_nodes_run (table : StorageKeeperMap DataType) (base id : string)
    (retry : M unit) (σ : State) :
  session σ = None →
  layout table base id →
  Str.contains "/" id = false →
  is_Some (nodes σ !! root_path table) →
  nodes σ !! table_path table = None →
  ∃ σ',
    (ZooKeeper.createIfNotExists (metadata_path table) EmptyString;;
     ZooKeeper.createIfNotExists (tables_path table) EmptyString;;
     code ← ZooKeeper.tryCreate (table_path table) EmptyString Persistent;
     match code with
     | ZOK => write_table_is_valid true
     | ZNONODE =>
         emit (Logged LInfo "Metadata nodes were deleted in background, will retry");;
         retry
     | _ => throw (CoordinationException code)
     end) σ = (Ok tt, σ') ∧
    table_is_valid σ' = Some true ∧ session σ' = None ∧
    nodes σ' = <[table_path table := EmptyString]>
                 (create_if_absent (tables_path table) EmptyString
                    (create_if_absent (metadata_path table) EmptyString (nodes σ))).
Proof.
  intros Hs Hlayout Hid Hroot Hmarker.
  destruct (layout_paths table base id Hlayout) as (_ & _ & HMT & HTP & _).
  destruct Hlayout as (_ & Hbase & Hmeta & Htables & Htable & _).
  pose proof (below_neq _ _ HTP) as HTP_ne.
  pose proof (below_neq _ _ (below_trans _ _ _ HMT HTP)) as HMP_ne.
  eexists. split; [|split; [|split]].
  - erewrite bind_Ok.
    2:{ apply createIfNotExists_connected; [exact Hs|].
        rewrite Hmeta. now apply has_parent_child. }
    erewrite bind_Ok.
    2:{ apply createIfNotExists_connected; [exact Hs|]. cbn [set_nodes add_event nodes].
        rewrite Htables.
        apply (has_parent_child _ (metadata_path table) "tables"); [reflexivity|].
        rewrite create_if_absent_lookup, decide_True by reflexivity.
        destruct (nodes σ !! metadata_path table); eauto. }
    erewrite bind_Ok.
    2:{ apply tryCreate_created; [exact Hs| |]; cbn [set_nodes add_event nodes].
        - rewrite Htable at 1. apply has_parent_child; [exact Hid|].
          rewrite create_if_absent_lookup, decide_True by reflexivity.
          destruct (create_if_absent _ _ _ !! tables_path table); eauto.
        - rewrite !create_if_absent_lookup, Hmarker.
          rewrite !decide_False by congruence. reflexivity. }
    reflexivity.
  - reflexivity.
  - exact Hs.
  - reflexivity.
Qed.

(** X18. Attaching a table creates nothing: the constructor with [attach]
    set, on a reachable service and with nothing cached, looks the marker
    of the table up, once, and returns whether it is there or not; the
    node tree is as before. The table is valid afterwards exactly when the
    marker exists; a missing marker is logged as an error and not
    raised. *)
Theorem attach_checks_only (table : StorageKeeperMap DataType)
    (create_missing_root_path : bool) (σ : State) :
  let r := StorageKeeperMap_init_nodes table true create_missing_root_path σ in
  session σ = None →
  table_is_valid σ = None →
  r.1 = Ok tt ∧
  nodes r.2 = nodes σ ∧
  table_is_valid r.2 = Some (bool_decide (is_Some (nodes σ !! table_path table))) ∧
  events r.2 = events σ ++
    Called (CMulti [CheckRequest (table_path table)]) ::
    (if bool_decide (is_Some (nodes σ !! table_path table)) then []
     else [Logged LError "Failed to activate table"]).
Proof.
  intros r Hs Hnone. unfold r, StorageKeeperMap_init_nodes, checkTable.
  erewrite bind_Ok; [|apply isTableValid_connected; assumption].
  destruct (bool_decide (is_Some (nodes σ !! table_path table))).
  - cbn. auto.
  - cbn. rewrite <- app_assoc. auto.
Qed.

(** X19. Creating a table where none was dropped: with the root node in
    place, no dropped marker and no marker of this table (whose unique id
    is one path segment), the constructor returns in its first round, the
    table is valid, and the node tree has gained the marker of the table
    and, where they were missing, the metadata node and the tables
    directory; every node that was there is as before. *)
Theorem create_adds_metadata_nodes (table : StorageKeeperMap DataType) (base id : string)
    (create_missing_root_path : bool) (σ : State) :
  let r := StorageKeeperMap_init_nodes table false create_missing_root_path σ in
  session σ = None →
  layout table base id →
  Str.contains "/" id = false →
  is_Some (nodes σ !! root_path table) →
  nodes σ !! dropped_path table = None →
  nodes σ !! table_path table = None →
  r.1 = Ok tt ∧
  table_is_valid r.2 = Some true ∧
  nodes r.2 = <[table_path table := EmptyString]>
                (create_if_absent (tables_path table) EmptyString
                   (create_if_absent (metadata_path table) EmptyString (nodes σ))) ∧
  nodes σ ⊆ nodes r.2.
Proof.
  intros r Hs Hlayout Hid Hroot Hdropped Hmarker.
  set (σ1 := if String.eqb (root_path table) "/" then σ
             else add_event (Called (CExists (root_path table))) σ).
  assert (Hs1 : session σ1 = None) by (unfold σ1; now destruct (String.eqb _ _)).
  assert (Hn1 : nodes σ1 = nodes σ) by (unfold σ1; now destruct (String.eqb _ _)).
  assert (Hlook : (if negb (String.eqb (root_path table) "/")
                   then found ← ZooKeeper.exists_ (root_path table); mret (negb found)
                   else mret false) σ = (Ok false, σ1)).
  { unfold σ1. destruct (String.eqb_spec (root_path table) "/") as [E|Hne]; [reflexivity|].
    cbn [negb]. erewrite bind_Ok; [|apply exists_connected; exact Hs].
    now rewrite bool_decide_eq_true_2. }
  set (σ2 := add_event (Called (CExists (dropped_path table))) σ1).
  destruct (create_nodes_run table base id (create_metadata 999 table) σ2)
    as (σ' & Hrun & Hvalid & _ & Hnodes); [exact Hs1 | exact Hlayout | exact Hid | | |].
  { cbn [σ2 add_event nodes]. now rewrite Hn1. }
  { cbn [σ2 add_event nodes]. now rewrite Hn1. }
  assert (Hr : r = (Ok tt, σ')).
  { unfold r, StorageKeeperMap_init_nodes.
    erewrite bind_Ok; [|exact Hlook].
    erewrite bind_Ok; [|reflexivity].
    change 1000 with (S 999). rewrite create_metadata_S.
    erewrite bind_Ok; [|apply exists_connected; exact Hs1].
    rewrite Hn1, bool_decide_eq_false_2 by (rewrite Hdropped; intros [? [=]]).
    erewrite bind_Ok; [|reflexivity]. cbv iota. exact Hrun. }
  rewrite Hr. cbn [fst snd]. split; [reflexivity|]. split; [exact Hvalid|].
  cbn [σ2 add_event nodes] in Hnodes. rewrite Hn1 in Hnodes.
  split; [exact Hnodes|]. rewrite Hnodes.
  apply map_subseteq_spec. intros p v Hp.
  destruct (decide (p = table_path table)) as [->|Hne]; [congruence|].
  rewrite lookup_insert_ne by congruence.
  now rewrite !create_if_absent_lookup, Hp.
Qed.

(** X20. A missing root is not created unless that was asked for: with a
    root other than [/] that is not there and [create_missing_root_path]
    unset, the constructor raises the bad-arguments error after the one
    lookup of the root; nothing is created and the table is not marked
    valid. *)
Theorem create_requires_root (table : StorageKeeperMap DataType) (σ : State) :
  let r := StorageKeeperMap_init_nodes table false false σ in
  session σ = None →
  root_path table ≠ "/" →
  nodes σ !! root_path table = None →
  r.1 = Throw (DBException BAD_ARGUMENTS) ∧
  nodes r.2 = nodes σ ∧
  table_is_valid r.2 = table_is_valid σ ∧
  events r.2 = events σ ++ [Called (CExists (root_path table))].
Proof.
  intros r Hs Hroot Hnode. unfold r, StorageKeeperMap_init_nodes.
  apply String.eqb_neq in Hroot. rewrite Hroot. cbn [negb].
  erewrite bind_Ok.
  2:{ erewrite bind_Ok; [|apply exists_connected; exact Hs].
      rewrite bool_decide_eq_false_2 by (rewrite Hnode; intros [? [=]]). reflexivity. }
  erewrite bind_Throw; [|reflexivity].
  cbn [fst snd add_event nodes table_is_valid events]. auto.
Qed.

(** X21. Creating a table over the leftovers of a dropped one reclaims
    them first: with the root and the metadata node in place, the metadata
    node holding the dropped marker and nothing else, the constructor takes
    the lock, removes everything below the root, and then creates the
    metadata node, the tables directory and the marker of the table (whose
    unique id is one path segment). The table is valid, and below the root
    these three nodes are all there is: no data node of the dropped table
    is left. *)
Theorem create_reclaims_dropped_table (table : StorageKeeperMap DataType) (base id : string)
    (create_missing_root_path : bool) (σ : State) :
  let r := StorageKeeperMap_init_nodes table false create_missing_root_path σ in
  session σ = None →
  layout table base id →
  Str.contains "/" id = false →
  is_Some (nodes σ !! root_path table) →
  is_Some (nodes σ !! metadata_path table) →
  metadata_holds table [dropped_path table] (nodes σ) →
  r.1 = Ok tt ∧
  table_is_valid r.2 = Some true ∧
  ∀ p, nodes r.2 !! p
       = if decide (p ∈ [metadata_path table; tables_path table; table_path table])
         then Some EmptyString
         else if zkutil.below (root_path table) p then None else nodes σ !! p.
Proof.
  intros r Hs Hlayout Hid Hroot Hmeta Hholds.
  destruct (layout_paths table base id Hlayout)
    as (Hbase & HRM & HMT & HTP & HMD & HDL & Hapart).
  assert (Hlock : dropped_lock_path table = dropped_path table +:+ "/lock") by apply Hlayout.
  pose proof (below_trans _ _ _ HMD HDL) as HML.
  pose proof (below_trans _ _ _ HMT HTP) as HMP.
  pose proof (below_neq _ _ HDL) as HDL_ne.
  set (σ1 := if String.eqb (root_path table) "/" then σ
             else add_event (Called (CExists (root_path table))) σ).
  assert (Hs1 : session σ1 = None) by (unfold σ1; now destruct (String.eqb _ _)).
  assert (Hn1 : nodes σ1 = nodes σ) by (unfold σ1; now destruct (String.eqb _ _)).
  assert (Hlook : (if negb (String.eqb (root_path table) "/")
                   then found ← ZooKeeper.exists_ (root_path table); mret (negb found)
                   else mret false) σ = (Ok false, σ1)).
  { unfold σ1. destruct (String.eqb_spec (root_path table) "/") as [E|Hne]; [reflexivity|].
    cbn [negb]. erewrite bind_Ok; [|apply exists_connected; exact Hs].
    now rewrite bool_decide_eq_true_2. }
  assert (HD : is_Some (nodes σ !! dropped_path table)).
  { apply (Hholds _ HMD). left. }
  assert (HL : nodes σ !! dropped_lock_path table = None).
  { apply eq_None_not_Some. intros Hsome. apply (Hholds _ HML) in Hsome.
    apply list_elem_of_singleton in Hsome. congruence. }
  set (σ2 := add_event (Logged LInfo "Removing leftover nodes")
               (add_event (Called (CExists (dropped_path table))) σ1)).
  assert (Hn2 : nodes σ2 = nodes σ) by exact Hn1.
  set (σ3 := set_nodes (<[dropped_lock_path table := EmptyString]> (nodes σ2))
               (add_event (Called (CMulti [CreateRequest (dropped_lock_path table)
                                             EmptyString Ephemeral])) σ2)).
  assert (Hn3 : nodes σ3 = <[dropped_lock_path table := EmptyString]> (nodes σ)).
  { cbn [σ3 set_nodes nodes]. now rewrite Hn2. }
  destruct (dropTable_reclaims table base id σ3) as [Hok4 Hcleared4].
  { exact Hs1. }
  { exact Hlayout. }
  { rewrite Hn3. rewrite lookup_insert_ne; [exact Hmeta|].
    apply not_eq_sym. now apply below_neq. }
  { intros p Hp. rewrite Hn3. rewrite elem_of_two.
    destruct (decide (p = dropped_lock_path table)) as [->|HpL].
    - rewrite lookup_insert_eq. split; eauto.
    - rewrite lookup_insert_ne by congruence. rewrite (Hholds p Hp).
      rewrite list_elem_of_singleton. tauto. }
  set (σ4 := (dropTable table (dropped_lock_path table) σ3).2) in *.
  assert (Hdrop : dropTable table (dropped_lock_path table) σ3 = (Ok true, σ4)).
  { unfold σ4. rewrite <- Hok4.
    now destruct (dropTable table (dropped_lock_path table) σ3). }
  assert (Hs4 : session σ4 = None).
  { apply (dropTable_run table (dropped_lock_path table) σ3 base); [exact Hs1 | exact Hbase]. }
  assert (Hmarker4 : nodes σ4 !! table_path table = None).
  { rewrite (Hcleared4 _), (below_trans _ _ _ HRM HMP). reflexivity. }
  assert (Hroot4 : is_Some (nodes σ4 !! root_path table)).
  { rewrite (Hcleared4 _), below_irrefl, Hn3. rewrite lookup_insert_ne; [exact Hroot|].
    intros E. pose proof (below_trans _ _ _ HRM HML) as Hcycle.
    rewrite E, below_irrefl in Hcycle. discriminate. }
  destruct (create_nodes_run table base id (create_metadata 999 table) σ4)
    as (σ' & Hrun & Hvalid & _ & Hnodes);
    [exact Hs4 | exact Hlayout | exact Hid | exact Hroot4 | exact Hmarker4 |].
  assert (Hr : r = (Ok tt, σ')).
  { unfold r, StorageKeeperMap_init_nodes.
    erewrite bind_Ok; [|exact Hlook].
    erewrite bind_Ok; [|reflexivity].
    change 1000 with (S 999). rewrite create_metadata_S.
    erewrite bind_Ok; [|apply exists_connected; exact Hs1].
    rewrite Hn1, bool_decide_eq_true_2 by exact HD.
    assert (Hagain :
      (emit (Logged LInfo "Removing leftover nodes");;
       code ← ZooKeeper.tryCreate (dropped_lock_path table) EmptyString Ephemeral;
       match code with
       | ZNONODE | ZNODEEXISTS =>
           emit (Logged LInfo "Someone else removed leftover nodes");;
           mret false
       | ZOK =>
           removed ← EphemeralNodeHolder.scope (dropped_lock_path table)
                       (dropTable table (dropped_lock_path table));
           mret (negb removed)
       | _ => throw (CoordinationException code)
       end) (add_event (Called (CExists (dropped_path table))) σ1)
      = (Ok false, σ4)).
    { erewrite bind_Ok; [|reflexivity].
      fold σ2.
      erewrite bind_Ok.
      2:{ apply tryCreate_created; [exact Hs1 | | now rewrite Hn2].
          rewrite Hn2, Hlock.
          apply (has_parent_child _ (dropped_path table) "lock"); [reflexivity | exact HD]. }
      cbv iota. fold σ3.
      erewrite bind_Ok; [|apply scope_already_removed; exact Hdrop].
      reflexivity. }
    erewrite bind_Ok; [|exact Hagain].
    cbv iota. exact Hrun. }
  rewrite Hr. clear Hr Hrun. clearbody r.
  cbn [fst snd]. split; [reflexivity|]. split; [exact Hvalid|].
  intros p. rewrite Hnodes.
  destruct (decide (p = table_path table)) as [->|HpP].
  { rewrite lookup_insert_eq, decide_True; [reflexivity|].
    apply elem_of_three. auto. }
  rewrite lookup_insert_ne by congruence. rewrite !create_if_absent_lookup.
  rewrite (Hcleared4 p), Hn3.
  destruct (decide (p ∈ [metadata_path table; tables_path table; table_path table]))
    as [Hin | Hout].
  - apply elem_of_three in Hin as [-> | [-> | ->]]; [| |contradiction].
    + rewrite HRM. repeat case_decide; first [reflexivity | congruence].
    + rewrite (below_trans _ _ _ HRM HMT). repeat case_decide; first [reflexivity | congruence].
  - rewrite elem_of_three in Hout.
    rewrite !decide_False by (intros ->; tauto).
    destruct (zkutil.below (root_path table) p) eqn:HRp; [reflexivity|].
    rewrite lookup_insert_ne.
    + now destruct (nodes σ !! p).
    + intros <-. rewrite (below_trans _ _ _ HRM HML) in HRp. discriminate.
Qed.

End Create.

Lemma attach_checks_only_witness :
  (StorageKeeperMap_init_nodes (ByteColumns.table 0) true false
     (ByteColumns.state [] None)).1 = Ok tt.
Proof.
  exact (proj1 (attach_checks_only (ByteColumns.table 0) false (ByteColumns.state [] None)
                  eq_refl eq_refl)).
Defined.

Lemma create_adds_metadata_nodes_witness :
  table_is_valid
    (StorageKeeperMap_init_nodes (ByteColumns.table 0) false false
       (mkState {["/keeper_map/t" := EmptyString]} None None [])).2 = Some true.
Proof.
  refine (proj1 (proj2 (create_adds_metadata_nodes (ByteColumns.table 0) "ch_metadata" "0001"
                          false (mkState {["/keeper_map/t" := EmptyString]} None None [])
                          _ _ _ _ _ _))).
  - reflexivity.
  - repeat split.
  - reflexivity.
  - vm_compute. eexists. reflexivity.
  - reflexivity.
  - reflexivity.
Defined.

Lemma create_requires_root_witness :
  (StorageKeeperMap_init_nodes (ByteColumns.table 0) false false
     (mkState ∅ None None [])).1 = Throw (DBException BAD_ARGUMENTS).
Proof.
  refine (proj1 (create_requires_root (ByteColumns.table 0) (mkState ∅ None None []) _ _ _)).
  - reflexivity.
  - discriminate.
  - reflexivity.
Defined.

Lemma create_reclaims_dropped_table_witness :
  nodes (StorageKeeperMap_init_nodes (ByteColumns.table 0) false false
           (mkState (list_to_map [("/keeper_map/t", EmptyString);
                                  ("/keeper_map/t/ch_metadata", EmptyString);
                                  ("/keeper_map/t/ch_metadata/dropped", EmptyString);
                                  ("/keeper_map/t/YQ==", "q")])
                    None None [])).2
    !! "/keeper_map/t/YQ==" = None.
Proof.
  pose proof (create_reclaims_dropped_table (ByteColumns.table 0) "ch_metadata" "0001" false
                (mkState (list_to_map [("/keeper_map/t", EmptyString);
                                       ("/keeper_map/t/ch_metadata", EmptyString);
                                       ("/keeper_map/t/ch_metadata/dropped", EmptyString);
                                       ("/keeper_map/t/YQ==", "q")])
                         None None [])) as Hcreate.
  cbv zeta in Hcreate. destruct Hcreate as (_ & _ & Hnodes).
  - reflexivity.
  - repeat split.
  - reflexivity.
  - vm_compute. eexists. reflexivity.
  - vm_compute. eexists. reflexivity.
  - intros p Hp. rewrite list_elem_of_singleton. split.
    + intros [v Hv]. cbn [nodes] in Hv. apply elem_of_list_to_map_2 in Hv.
      repeat (apply elem_of_cons in Hv as [[= -> ->] | Hv];
              [first [reflexivity | vm_compute in Hp; discriminate]|]).
      now apply elem_of_nil in Hv.
    + intros ->. vm_compute. eexists. reflexivity.
  - rewrite (Hnodes _). reflexivity.
Defined.
